(** * influencer-trap: the capture orchestration of [cam.py]

    A shallow embedding of [cam.py]: the indicator ring ([PixelArray]), the
    camera controller ([Camera]) with its two backends ([PyCamera],
    [RaspiStillCamera]), the scraping of raspistill's diagnostic stream
    ([find_last_match]) and the threads that share the controller.

    Python values are modelled as the code has them: floats are binary64
    (Rocq's primitive floats), [bytes] and [str] are strings of 8-bit
    characters, the settings dictionary is a finite map from keys to values,
    exceptions are an error result.  Effects (locks, LEDs, sleeping,
    subprocesses, the camera driver, attributes of [self]) are commands of a
    small free monad, run either by one thread ([run]) or interleaved
    ([step]). *)

From Stdlib Require Import ZArith QArith Floats Ascii String List Lia Bool.
From stdpp Require Import base option strings gmap pretty.

Local Open Scope Z_scope.
Local Open Scope string_scope.
Local Open Scope list_scope.

(** ** Python values and exceptions *)

(** The exceptions the modelled code can raise.  [Exception_] is the bare
    [Exception()] of the abstract [Camera] methods; [EnvError] stands for
    whatever a subprocess or the camera driver raises. *)
Inductive exn : Type :=
  | IndexError
  | ValueError
  | ZeroDivisionError
  | AttributeError
  | KeyError
  | TypeError
  | RuntimeError
  | Exception_
  | EnvError (what : string).

Inductive result (A : Type) : Type :=
  | Ok (a : A)
  | Err (e : exn).
Arguments Ok {A} a.
Arguments Err {A} e.

Definition result_bind {A B} (r : result A) (f : A -> result B) : result B :=
  match r with
  | Ok a => f a
  | Err e => Err e
  end.

(** The values stored in the settings dictionary. *)
Inductive pyval : Type :=
  | VNone
  | VInt (z : Z)
  | VFloat (f : float)
  | VStr (s : string)
  | VList (l : list float).

(** ** Floats *)

(** [float(n)] for an integer [n]: the nearest binary64 value, ties to even. *)
Definition float_of_Z (z : Z) : float :=
  SF2Prim (SpecFloat.binary_normalize 53 1024 z 0 false).

Definition is_digit (c : ascii) : bool :=
  ((48 <=? nat_of_ascii c) && (nat_of_ascii c <=? 57))%nat.

Fixpoint all_digits (s : string) : bool :=
  match s with
  | EmptyString => true
  | String c s' => is_digit c && all_digits s'
  end.

Definition digit_value (c : ascii) : Z := Z.of_nat (nat_of_ascii c) - 48.

Fixpoint decimal_value (acc : Z) (s : string) : Z :=
  match s with
  | EmptyString => acc
  | String c s' => decimal_value (10 * acc + digit_value c) s'
  end.

(** The nearest float to the number a run of digits spells. *)
Definition float_of_digits (s : string) : float := float_of_Z (decimal_value 0 s).

(** [float(s)] on the strings the patterns below capture, runs of ASCII
    digits: the empty string is a [ValueError], a run of digits is the
    nearest float to the number it spells.  (Other strings never reach this
    function, see [match_items_digits]; they are given [ValueError].) *)
Definition py_float (s : string) : result float :=
  match s with
  | EmptyString => Err ValueError
  | _ => if all_digits s then Ok (float_of_digits s) else Err ValueError
  end.

(** [a / b] on floats: Python raises where IEEE would give an infinity. *)
Definition py_truediv (a b : float) : result float :=
  if PrimFloat.eqb b 0%float then Err ZeroDivisionError else Ok (PrimFloat.div a b).

(** [float(g)] for a [Fraction] [n/d]: the quotient rounded once.  The
    quotient is computed with 64 extra bits and a sticky bit, which is
    enough for the rounding of [binary_normalize] to be the correct one. *)
Definition float_of_fraction (g : Q) : float :=
  let n := Qnum g in
  let d := Zpos (Qden g) in
  let k := Z.log2 d + 64 in
  let q := Z.quot (n * 2 ^ k) d in
  let sticky := if Z.eqb (Z.rem (n * 2 ^ k) d) 0 then 0 else Z.sgn n in
  SF2Prim (SpecFloat.binary_normalize 53 1024 (2 * q + sticky) (- k - 1) false).

(** [str(n)] for an integer. *)
Definition py_str_int (z : Z) : string := pretty z.

(** ** [str(b)] for a [bytes] object: its [repr] *)

Definition backslash : ascii := ascii_of_nat 92.
Definition dquote : ascii := ascii_of_nat 34.
Definition squote : ascii := ascii_of_nat 39.

Fixpoint contains_char (c : ascii) (s : string) : bool :=
  match s with
  | EmptyString => false
  | String c' s' => Ascii.eqb c c' || contains_char c s'
  end.

Definition hex_digit (n : nat) : ascii :=
  if (n <? 10)%nat then ascii_of_nat (48 + n) else ascii_of_nat (87 + n).

Definition repr_byte (quote c : ascii) : string :=
  let n := nat_of_ascii c in
  if Ascii.eqb c quote || Ascii.eqb c backslash then String backslash (String c EmptyString)
  else if (n =? 9)%nat then String backslash "t"
  else if (n =? 10)%nat then String backslash "n"
  else if (n =? 13)%nat then String backslash "r"
  else if (n <? 32)%nat || (127 <=? n)%nat then
    String backslash (String "x" (String (hex_digit (n / 16)) (String (hex_digit (n mod 16)) EmptyString)))
  else String c EmptyString.

Fixpoint repr_bytes_body (quote : ascii) (b : string) : string :=
  match b with
  | EmptyString => String quote EmptyString
  | String c b' => repr_byte quote c ++ repr_bytes_body quote b'
  end.

(** [str(result.stderr)]: [result.stderr] is a [bytes], so [str] gives
    [b'...'] with the non-printable bytes escaped. *)
Definition py_str_bytes (b : string) : string :=
  let quote := if contains_char squote b && negb (contains_char dquote b) then dquote else squote in
  String "b" (String quote (repr_bytes_body quote b)).

(** ** Regular expressions: the fragment the two patterns are written in *)

(** A pattern is a sequence of literal texts and named groups, each group a
    starred class of the digits 0 to 9 (see [re_source] for the Python text). *)
Inductive re_item : Type :=
  | Lit (text : string)
  | Digits (name : string).

Definition pattern : Type := list re_item.

(** The Python source of a pattern (for literals without metacharacters). *)
Fixpoint re_source (p : pattern) : string :=
  match p with
  | [] => EmptyString
  | Lit text :: p' => text ++ re_source p'
  | Digits name :: p' => "(?P<" ++ name ++ ">[0-9]*)" ++ re_source p'
  end.

(** A match object: where it starts and ends, and what its groups hold. *)
Record re_match : Type := MkMatch {
  m_start : nat;
  m_end : nat;
  m_groups : list (string * string);
}.

Fixpoint assoc_lookup (name : string) (g : list (string * string)) : option string :=
  match g with
  | [] => None
  | (k, v) :: g' => if String.eqb k name then Some v else assoc_lookup name g'
  end.

(** [m.group(name)] *)
Definition group (m : re_match) (name : string) : result string :=
  match assoc_lookup name (m_groups m) with
  | Some v => Ok v
  | None => Err IndexError
  end.

Fixpoint lit_prefix (text s : string) : option string :=
  match text with
  | EmptyString => Some s
  | String c text' =>
      match s with
      | String c' s' => if Ascii.eqb c c' then lit_prefix text' s' else None
      | EmptyString => None
      end
  end.

(** A starred digit class followed by the rest of the pattern [k]: greedy,
    the longest run of digits first, then shorter ones if the rest fails. *)
Fixpoint digits_star {R : Type} (k : string -> string -> option R) (acc s : string)
  : option R :=
  match s with
  | String c s' =>
      if is_digit c then
        match digits_star k (acc ++ String c EmptyString) s' with
        | Some r => Some r
        | None => k acc s
        end
      else k acc s
  | EmptyString => k acc s
  end.

(** Matching a pattern at the start of [s]: the groups and the number of
    characters consumed. *)
Fixpoint match_items (p : pattern) (s : string) (consumed : nat) (g : list (string * string))
  : option (list (string * string) * nat) :=
  match p with
  | [] => Some (g, consumed)
  | Lit text :: p' =>
      match lit_prefix text s with
      | Some rest => match_items p' rest (consumed + String.length text)%nat g
      | None => None
      end
  | Digits name :: p' =>
      digits_star
        (fun d rest => match_items p' rest (consumed + String.length d)%nat (g ++ [(name, d)]))
        EmptyString s
  end.

Definition match_at (p : pattern) (s : string) (pos : nat) : option re_match :=
  match match_items p s 0%nat [] with
  | Some (g, n) => Some (MkMatch pos (pos + n) g)
  | None => None
  end.

(** [re.finditer]: the non-overlapping matches from left to right.  [skip]
    counts the characters of [s] that the previous match still covers.
    After a match the scan resumes at its end (Python 3.7 and later: an
    empty match there is reported too). *)
Fixpoint scan (p : pattern) (s : string) (pos skip : nat) : list re_match :=
  match s with
  | EmptyString =>
      match skip with
      | O => match match_at p s pos with Some m => [m] | None => [] end
      | S _ => []
      end
  | String _ s' =>
      match skip with
      | S k => scan p s' (S pos) k
      | O =>
          match match_at p s pos with
          | Some m => m :: scan p s' (S pos) (Nat.pred (m_end m - m_start m))
          | None => scan p s' (S pos) O
          end
      end
  end.

Definition re_finditer (p : pattern) (s : string) : list re_match := scan p s 0%nat 0%nat.

(** ** [find_last_match] *)

(** The object [re.finditer] returns: an iterator over the matches. *)
Record callable_iterator (M : Type) : Type := MkIter { iter_items : list M }.
Arguments MkIter {M} iter_items.
Arguments iter_items {M} _.

(** [bool(it)]: the iterator type defines neither [__bool__] nor [__len__],
    so the object is true whatever it still has to yield. *)
Definition iter_truthy {M : Type} (it : callable_iterator M) : bool := true.

(** [list(it)] *)
Definition py_list {M : Type} (it : callable_iterator M) : list M := iter_items it.

(** [l[-1]] *)
Definition getitem_last {M : Type} (l : list M) : result M :=
  match last l with
  | Some m => Ok m
  | None => Err IndexError
  end.

Section FindLastMatch.
  (** [re.finditer(pattern, string, re.MULTILINE)] is the library's; the
      function is written over any engine. *)
  Context {Pat M : Type} (finditer : Pat -> string -> list M).

(** [find_last_match]: [None] of Python is [Ok None]. *)
Definition find_last_match (pat : Pat) (s : string) : result (option M) :=
  let matches := MkIter (finditer pat s) in
  if iter_truthy matches then
    match getitem_last (py_list matches) with
    | Ok m => Ok (Some m)
    | Err e => Err e
    end
  else Ok None.

End FindLastMatch.

(** ** Effects *)

Inductive lock_id : Type := SettingsLock | PixelLock.

Inductive tid : Type := MainThread | TimerThread (n : nat).

Definition rgb : Type := Z * Z * Z.

(** What a [threading.Timer] is asked to call. *)
Inductive callback : Type := UpdateSettings.

(** The commands a thread performs on the shared world. *)
Inductive cmd : Type :=
  | Print (args : list pyval)
  | LockAcquire (l : lock_id)
  | LockRelease (l : lock_id)
  | SetBrightness (b : float)
  | Fill (colour : rgb)
  | Show
  | Sleep (seconds : Q)
  | GetResolution
  | SetResolution (r : Z * Z)
  | GetSettings
  | SetSettings (d : gmap string pyval)
  | GetTimer
  | SetTimer (t : nat)
  | TimerNew (interval : Z) (f : callback)
  | TimerStart (t : nat)
  | TimerCancel (t : nat)
  | SubprocessShell (cmdline : string)
  | SubprocessRun (argv : list string)
  | SubprocessCall (argv : list string)
  | PiCameraOpen (resolution : Z * Z)
  | PiCameraExposureSpeed
  | PiCameraAwbGains
  | PiCameraSet (attr : string) (v : pyval)
  | PiCameraCapture (path : string)
  | PiCameraClose.

(** What a command answers when it does not raise. *)
Definition resp (c : cmd) : Type :=
  match c with
  | GetResolution => (Z * Z)%type
  | GetSettings => gmap string pyval
  | GetTimer => nat
  | TimerNew _ _ => nat
  | SubprocessShell _ => Z
  | SubprocessRun _ => string
  | SubprocessCall _ => Z
  | PiCameraExposureSpeed => Z
  | PiCameraAwbGains => list Q
  | _ => unit
  end.

(** The commands of the camera: subprocesses and the driver. *)
Definition is_camera_cmd (c : cmd) : bool :=
  match c with
  | SubprocessShell _ | SubprocessRun _ | SubprocessCall _
  | PiCameraOpen _ | PiCameraExposureSpeed | PiCameraAwbGains
  | PiCameraSet _ _ | PiCameraCapture _ | PiCameraClose => true
  | _ => false
  end.

(** A piece of Python code: it returns, raises, or performs a command and
    goes on with the answer (or with the exception the command raised). *)
Inductive prog (A : Type) : Type :=
  | Ret (a : A)
  | Raise (e : exn)
  | Do (c : cmd) (k : result (resp c) -> prog A).
Arguments Ret {A} a.
Arguments Raise {A} e.
Arguments Do {A} c k.

Fixpoint bind {A B : Type} (p : prog A) (f : A -> prog B) : prog B :=
  match p with
  | Ret a => f a
  | Raise e => Raise e
  | Do c k => Do c (fun r => bind (k r) f)
  end.

#[export] Instance prog_ret : MRet prog := @Ret.
#[export] Instance prog_bind : MBind prog := fun A B f p => bind p f.
#[export] Instance result_ret : MRet result := @Ok.
#[export] Instance result_mbind : MBind result := fun A B f r => result_bind r f.

Definition lift {A : Type} (r : result A) : prog A :=
  match r with
  | Ok a => Ret a
  | Err e => Raise e
  end.

Definition call (c : cmd) : prog (resp c) := Do c lift.

(** [try: p finally: f] *)
Fixpoint finally {A : Type} (p : prog A) (f : prog unit) : prog A :=
  match p with
  | Ret a => bind f (fun _ => Ret a)
  | Raise e => bind f (fun _ => Raise e)
  | Do c k => Do c (fun r => finally (k r) f)
  end.

(** [with lock: body] *)
Definition with_lock {A : Type} (l : lock_id) (body : prog A) : prog A :=
  call (LockAcquire l);; finally body (call (LockRelease l)).

(** [for i in range(n): body] *)
Fixpoint for_range (n : nat) (body : prog unit) : prog unit :=
  match n with
  | O => Ret tt
  | S n' => body;; for_range n' body
  end.

(** [d[key]] *)
Definition dict_get (d : gmap string pyval) (key : string) : prog pyval :=
  match d !! key with
  | Some v => Ret v
  | None => Raise KeyError
  end.

(** ** The world the threads share *)

Record timer : Type := MkTimer {
  t_interval : Z;
  t_function : callback;
  t_started : bool;
  t_finished : bool;
  t_fired : bool;
}.

Record world : Type := MkWorld {
  w_settings_lock : option tid;
  w_pixel_lock : option tid;
  w_brightness : float;
  w_buffer : rgb;
  w_shown : float * rgb;
  w_resolution : option (Z * Z);
  w_settings : option (gmap string pyval);
  w_settings_update_timer : option nat;
  w_timers : list timer;
  w_trace : list (tid * cmd);
}.

Definition lock_of (l : lock_id) (w : world) : option tid :=
  match l with
  | SettingsLock => w_settings_lock w
  | PixelLock => w_pixel_lock w
  end.

Definition set_lock (l : lock_id) (o : option tid) (w : world) : world :=
  match l with
  | SettingsLock =>
      MkWorld o (w_pixel_lock w) (w_brightness w) (w_buffer w) (w_shown w) (w_resolution w)
        (w_settings w) (w_settings_update_timer w) (w_timers w) (w_trace w)
  | PixelLock =>
      MkWorld (w_settings_lock w) o (w_brightness w) (w_buffer w) (w_shown w) (w_resolution w)
        (w_settings w) (w_settings_update_timer w) (w_timers w) (w_trace w)
  end.

Definition set_brightness (b : float) (w : world) : world :=
  MkWorld (w_settings_lock w) (w_pixel_lock w) b (w_buffer w) (w_shown w) (w_resolution w)
    (w_settings w) (w_settings_update_timer w) (w_timers w) (w_trace w).

Definition set_buffer (c : rgb) (w : world) : world :=
  MkWorld (w_settings_lock w) (w_pixel_lock w) (w_brightness w) c (w_shown w) (w_resolution w)
    (w_settings w) (w_settings_update_timer w) (w_timers w) (w_trace w).

Definition set_shown (s : float * rgb) (w : world) : world :=
  MkWorld (w_settings_lock w) (w_pixel_lock w) (w_brightness w) (w_buffer w) s (w_resolution w)
    (w_settings w) (w_settings_update_timer w) (w_timers w) (w_trace w).

Definition set_resolution (r : Z * Z) (w : world) : world :=
  MkWorld (w_settings_lock w) (w_pixel_lock w) (w_brightness w) (w_buffer w) (w_shown w) (Some r)
    (w_settings w) (w_settings_update_timer w) (w_timers w) (w_trace w).

Definition set_settings (d : gmap string pyval) (w : world) : world :=
  MkWorld (w_settings_lock w) (w_pixel_lock w) (w_brightness w) (w_buffer w) (w_shown w)
    (w_resolution w) (Some d) (w_settings_update_timer w) (w_timers w) (w_trace w).

Definition set_settings_update_timer (t : nat) (w : world) : world :=
  MkWorld (w_settings_lock w) (w_pixel_lock w) (w_brightness w) (w_buffer w) (w_shown w)
    (w_resolution w) (w_settings w) (Some t) (w_timers w) (w_trace w).

Definition set_timers (ts : list timer) (w : world) : world :=
  MkWorld (w_settings_lock w) (w_pixel_lock w) (w_brightness w) (w_buffer w) (w_shown w)
    (w_resolution w) (w_settings w) (w_settings_update_timer w) ts (w_trace w).

(** The world with [tr] added to its trace. *)
Definition extend_trace (tr : list (tid * cmd)) (w : world) : world :=
  MkWorld (w_settings_lock w) (w_pixel_lock w) (w_brightness w) (w_buffer w) (w_shown w)
    (w_resolution w) (w_settings w) (w_settings_update_timer w) (w_timers w) (w_trace w ++ tr).

Definition start_timer (t : timer) : timer :=
  MkTimer (t_interval t) (t_function t) true (t_finished t) (t_fired t).

Definition cancel_timer (t : timer) : timer :=
  MkTimer (t_interval t) (t_function t) (t_started t) true (t_fired t).

Definition fire_timer (t : timer) : timer :=
  MkTimer (t_interval t) (t_function t) (t_started t) (t_finished t) true.

(** A timer that was started and neither cancelled nor fired yet. *)
Definition pending (t : timer) : bool :=
  t_started t && negb (t_finished t) && negb (t_fired t).

(** What the subprocesses and the camera driver answer. *)
Definition oracle : Type := forall c : cmd, result (resp c).

Definition attr {A : Type} (o : option A) : result A :=
  match o with
  | Some a => Ok a
  | None => Err AttributeError
  end.

(** Thread [t] performed [c]. *)
Definition log (t : tid) (c : cmd) (w : world) : world := extend_trace [(t, c)] w.

(** A command of the camera: the answer is the environment's, the world only
    records it. *)
Definition external (t : tid) (o : oracle) (c : cmd) (w : world) : option (result (resp c) * world) :=
  Some (o c, log t c w).

(** One command of thread [t] on the world: its answer and the world after
    it, or [None] when the thread cannot go on (a lock that is held).  Every
    command performed is written to the trace. *)
Definition handle (t : tid) (o : oracle) (c : cmd) (w : world)
  : option (result (resp c) * world) :=
  match c as c0 return option (result (resp c0) * world) with
  | Print _ => Some (Ok tt, log t c w)
  | LockAcquire l =>
      match lock_of l w with
      | None => Some (Ok tt, log t c (set_lock l (Some t) w))
      | Some _ => None
      end
  | LockRelease l =>
      match lock_of l w with
      | Some _ => Some (Ok tt, log t c (set_lock l None w))
      | None => Some (Err RuntimeError, log t c w)
      end
  | SetBrightness b => Some (Ok tt, log t c (set_brightness b w))
  | Fill colour => Some (Ok tt, log t c (set_buffer colour w))
  | Show => Some (Ok tt, log t c (set_shown (w_brightness w, w_buffer w) w))
  | Sleep _ => Some (Ok tt, log t c w)
  | GetResolution => Some (attr (w_resolution w), log t c w)
  | SetResolution r => Some (Ok tt, log t c (set_resolution r w))
  | GetSettings => Some (attr (w_settings w), log t c w)
  | SetSettings d => Some (Ok tt, log t c (set_settings d w))
  | GetTimer => Some (attr (w_settings_update_timer w), log t c w)
  | SetTimer h => Some (Ok tt, log t c (set_settings_update_timer h w))
  | TimerNew interval f =>
      Some (Ok (length (w_timers w)),
            log t c (set_timers (w_timers w ++ [MkTimer interval f false false false]) w))
  | TimerStart h =>
      match w_timers w !! h with
      | Some tm =>
          if t_started tm then Some (Err RuntimeError, log t c w)
          else Some (Ok tt, log t c (set_timers (<[h := start_timer tm]> (w_timers w)) w))
      | None => Some (Err RuntimeError, log t c w)
      end
  | TimerCancel h =>
      match w_timers w !! h with
      | Some tm => Some (Ok tt, log t c (set_timers (<[h := cancel_timer tm]> (w_timers w)) w))
      | None => Some (Err RuntimeError, log t c w)
      end
  | SubprocessShell cmdline => external t o (SubprocessShell cmdline) w
  | SubprocessRun argv => external t o (SubprocessRun argv) w
  | SubprocessCall argv => external t o (SubprocessCall argv) w
  | PiCameraOpen r => external t o (PiCameraOpen r) w
  | PiCameraExposureSpeed => external t o PiCameraExposureSpeed w
  | PiCameraAwbGains => external t o PiCameraAwbGains w
  | PiCameraSet a v => external t o (PiCameraSet a v) w
  | PiCameraCapture path => external t o (PiCameraCapture path) w
  | PiCameraClose => external t o PiCameraClose w
  end.

(** How a piece of code ends when one thread runs it alone. *)
Inductive outcome (A : Type) : Type :=
  | Returned (a : A)
  | Raised (e : exn)
  | Blocked.
Arguments Returned {A} a.
Arguments Raised {A} e.
Arguments Blocked {A}.

Fixpoint run {A : Type} (t : tid) (o : oracle) (p : prog A) (w : world) : outcome A * world :=
  match p with
  | Ret a => (Returned a, w)
  | Raise e => (Raised e, w)
  | Do c k =>
      match handle t o c w with
      | Some (r, w') => run t o (k r) w'
      | None => (Blocked, w)
      end
  end.

(** ** [PixelArray] *)

Set Warnings "-inexact-float".
Definition FLASH_BRIGHTNESS : float := 0.2%float.
Definition IDLE_BRIGHTNESS : float := 0.05%float.
Set Warnings "+inexact-float".

Definition red : rgb := (255, 0, 0).
Definition black : rgb := (0, 0, 0).
Definition white : rgb := (255, 255, 255).

(** One round of the countdown: red, half a second, dark, one second. *)
Definition blink : prog unit :=
  call (Fill red);;
  call Show;;
  call (Sleep (1 # 2));;
  call (Fill black);;
  call Show;;
  call (Sleep 1).

Definition flash_on (countdown : bool) : prog unit :=
  call (LockAcquire PixelLock);;
  call (SetBrightness FLASH_BRIGHTNESS);;
  (if countdown then for_range 3 blink else Ret tt);;
  call (Fill white);;
  call Show.

Definition flash_off : prog unit :=
  call (SetBrightness IDLE_BRIGHTNESS);;
  call (Fill black);;
  call Show;;
  call (LockRelease PixelLock).

(** ** [PyCamera] *)

(** [with PiCamera(resolution=...) as camera: body] *)
Definition with_picamera {A : Type} (resolution : Z * Z) (body : prog A) : prog A :=
  call (PiCameraOpen resolution);; finally body (call PiCameraClose).

Definition pycamera_update_capture_settings : prog (gmap string pyval) :=
  let settings : gmap string pyval := <["digital_gain" := VNone]> (<["analog_gain" := VNone]> ∅) in
  resolution ← call GetResolution;
  with_picamera resolution (
    call (Sleep 2);;
    exposure_speed ← call PiCameraExposureSpeed;
    let settings := <["shutter_speed" := VInt exposure_speed]> settings in
    awb_gains ← call PiCameraAwbGains;
    let settings := <["awb_gains" := VList (map float_of_fraction awb_gains)]> settings in
    Ret settings).

Definition pycamera_capture_image (output_path : string) : prog unit :=
  resolution ← call GetResolution;
  with_picamera resolution (
    call (PiCameraSet "exposure_mode" (VStr "off"));;
    settings ← call GetSettings;
    shutter_speed ← dict_get settings "shutter_speed";
    call (PiCameraSet "shutter_speed" shutter_speed);;
    call (PiCameraSet "awb_mode" (VStr "off"));;
    settings ← call GetSettings;
    awb_gains ← dict_get settings "awb_gains";
    call (PiCameraSet "awb_gains" awb_gains);;
    call (PiCameraCapture output_path)).

(** ** [RaspiStillCamera] *)

Definition EXPOSURE_PATTERN : pattern :=
  [Lit "mmal: Exposure now "; Digits "exposure";
   Lit ", analog gain "; Digits "analog_gain_n"; Lit "/"; Digits "analog_gain_d";
   Lit ", digital gain "; Digits "digital_gain_n"; Lit "/"; Digits "digital_gain_d"].

Definition AWB_PATTERN : pattern :=
  [Lit "mmal: AWB R="; Digits "awb_r_n"; Lit "/"; Digits "awb_r_d";
   Lit ", B="; Digits "awb_b_n"; Lit "/"; Digits "awb_b_d"].

(** [float(m.group(name))]; [m] is what [find_last_match] returned. *)
Definition float_group (m : option re_match) (name : string) : result float :=
  match m with
  | Some m => s ← group m name; py_float s
  | None => Err AttributeError
  end.

(** [float(m.group(n)) / float(m.group(d))] *)
Definition ratio (m : option re_match) (n d : string) : result float :=
  a ← float_group m n;
  b ← float_group m d;
  py_truediv a b.

(** Lines 197 to 210 of [update_capture_settings]: from the text of the
    diagnostic stream to the settings. *)
Definition parse_settings (text : string) : result (gmap string pyval) :=
  m1 ← find_last_match re_finditer EXPOSURE_PATTERN text;
  m2 ← find_last_match re_finditer AWB_PATTERN text;
  analog_gain ← ratio m1 "analog_gain_n" "analog_gain_d";
  digital_gain ← ratio m1 "digital_gain_n" "digital_gain_d";
  shutter_speed ← float_group m1 "exposure";
  awb_r ← ratio m2 "awb_r_n" "awb_r_d";
  awb_b ← ratio m2 "awb_b_n" "awb_b_d";
  Ok (<["awb_gains" := VList [awb_r; awb_b]]>
      (<["shutter_speed" := VFloat shutter_speed]>
       (<["digital_gain" := VFloat digital_gain]>
        (<["analog_gain" := VFloat analog_gain]> ∅)))).

(** The command line of the settings probe. *)
Definition probe_argv (resolution : Z * Z) : list string :=
  ["raspistill";
   "--width"; py_str_int resolution.1;
   "--height"; py_str_int resolution.2;
   "--nopreview";
   "--settings"].

Definition raspistill_update_capture_settings : prog (gmap string pyval) :=
  resolution ← call GetResolution;
  let cmd := probe_argv resolution in
  call (SubprocessShell "chvt 6");;
  call (SubprocessShell "chvt 7");;
  stderr ← call (SubprocessRun cmd);
  call (SubprocessShell "tvservice -p");;
  lift (parse_settings (py_str_bytes stderr)).

(** [sep.join(l)] *)
Fixpoint py_join (sep : string) (l : list string) : string :=
  match l with
  | [] => EmptyString
  | [s] => s
  | s :: l' => s ++ sep ++ py_join sep l'
  end.

Fixpoint chars (s : string) : list string :=
  match s with
  | EmptyString => []
  | String c s' => String c EmptyString :: chars s'
  end.

Inductive backend : Type := Camera | PyCamera | RaspiStillCamera.

Definition SETTINGS_UPDATE_INTERVAL : Z := 10 * 60.

Section Controller.
  (** [str(f)] for a float, Python's shortest decimal that reads back as
      [f]: the library's, taken as it is. *)
  Variable py_str_float : float -> string.

(** [str(v)] *)
Definition py_str (v : pyval) : string :=
  match v with
  | VNone => "None"
  | VInt z => py_str_int z
  | VFloat f => py_str_float f
  | VStr s => s
  | VList l => "[" ++ py_join ", " (map py_str_float l) ++ "]"
  end.

(** [[str(g) for g in v]] *)
Definition str_each (v : pyval) : prog (list string) :=
  match v with
  | VList l => Ret (map py_str_float l)
  | VStr s => Ret (chars s)
  | _ => Raise TypeError
  end.

Definition raspistill_capture_image (output_path : string) : prog unit :=
  r0 ← call GetResolution;
  r1 ← call GetResolution;
  s ← call GetSettings; analog_gain ← dict_get s "analog_gain";
  s ← call GetSettings; digital_gain ← dict_get s "digital_gain";
  s ← call GetSettings; shutter_speed ← dict_get s "shutter_speed";
  s ← call GetSettings; awb_gains ← dict_get s "awb_gains";
  gains ← str_each awb_gains;
  call (SubprocessCall
    ["raspistill";
     "--output"; output_path;
     "--thumb"; "none";
     "--width"; py_str_int r0.1;
     "--height"; py_str_int r1.2;
     "--analoggain"; py_str analog_gain;
     "--digitalgain"; py_str digital_gain;
     "--exposure"; "off";
     "--shutter"; py_str shutter_speed;
     "--awb"; "off";
     "--awbgains"; py_join "," gains;
     "--timeout"; "1";
     "--nopreview";
     "--verbose"]);;
  Ret tt.

(** ** [Camera] *)

Definition update_capture_settings (b : backend) : prog (gmap string pyval) :=
  match b with
  | Camera => Raise Exception_
  | PyCamera => pycamera_update_capture_settings
  | RaspiStillCamera => raspistill_update_capture_settings
  end.

Definition capture_image (b : backend) (path : string) : prog unit :=
  match b with
  | Camera => Raise Exception_
  | PyCamera => pycamera_capture_image path
  | RaspiStillCamera => raspistill_capture_image path
  end.

(** [print(label, self.settings[key])] *)
Definition print_setting (label key : string) : prog unit :=
  settings ← call GetSettings;
  v ← dict_get settings key;
  call (Print [VStr label; v]).

Definition update_settings (b : backend) : prog unit :=
  call (Print [VStr "Updating settings..."]);;
  with_lock SettingsLock (
    flash_on false;;
    settings ← update_capture_settings b;
    call (SetSettings settings);;
    flash_off);;
  print_setting "  Analog gain:" "analog_gain";;
  print_setting "  Digital gain:" "digital_gain";;
  print_setting "  Shutter speed:" "shutter_speed";;
  print_setting "  AWB gains:" "awb_gains";;
  t ← call (TimerNew SETTINGS_UPDATE_INTERVAL UpdateSettings);
  call (SetTimer t);;
  call (TimerStart t).

Definition take_photo (b : backend) (output_path : string) : prog unit :=
  with_lock SettingsLock (
    flash_on true;;
    capture_image b output_path;;
    flash_off).

(** [Camera.__init__]: the indicator and the fresh [settings_lock] are the
    world's two locks. *)
Definition init (b : backend) (resolution : Z * Z) : prog unit :=
  call (SetResolution resolution);;
  update_settings b.

Definition destroy : prog unit :=
  t ← call GetTimer;
  call (TimerCancel t).

End Controller.

(** The world before anything ran: [PixelArray.__init__] made the indicator
    lock and the ring at idle brightness, nothing else exists yet. *)
Definition initial_world : world :=
  MkWorld None None IDLE_BRIGHTNESS black (IDLE_BRIGHTNESS, black) None None None [] [].

(** ** The threads of the process *)

#[export] Instance lock_id_eq_dec : EqDecision lock_id.
Proof. solve_decision. Defined.

#[export] Instance tid_eq_dec : EqDecision tid.
Proof. solve_decision. Defined.

(** The process: the world, the code each thread still has to run, and
    whether the main loop was left (the [finally] of the script ran). *)
Record pool : Type := MkPool {
  p_world : world;
  p_threads : tid -> option (prog unit);
  p_shutdown : bool;
}.

Definition set_thread (t : tid) (p : option (prog unit)) (ths : tid -> option (prog unit))
  : tid -> option (prog unit) :=
  fun t' => if decide (t = t') then p else ths t'.

Section Process.
  Variable py_str_float : float -> string.
  Variable b : backend.

(** The steps of the process.  A thread performs its next command, with
    whatever the environment answers; the main loop, back from a call, takes
    the next photo when the button is pressed; a pending timer fires and its
    thread calls [update_settings]; an exception in the main thread leaves
    the loop for the [finally] block, which destroys the camera.  The
    threads are the two that use the camera; the idle animation, which
    only draws on the ring under the indicator lock, is left out. *)
Inductive step : pool -> pool -> Prop :=
  | step_cmd (t : tid) (o : oracle) (c : cmd) k r w w' ths sd :
      ths t = Some (Do c k) ->
      handle t o c w = Some (r, w') ->
      step (MkPool w ths sd) (MkPool w' (set_thread t (Some (k r)) ths) sd)
  | step_press (path : string) w ths :
      ths MainThread = Some (Ret tt) ->
      step (MkPool w ths false)
           (MkPool w (set_thread MainThread (Some (take_photo py_str_float b path)) ths) false)
  | step_fire (n : nat) (tm : timer) w ths sd :
      w_timers w !! n = Some tm ->
      pending tm = true ->
      ths (TimerThread n) = None ->
      step (MkPool w ths sd)
           (MkPool (set_timers (<[n := fire_timer tm]> (w_timers w)) w)
                   (set_thread (TimerThread n) (Some (update_settings b)) ths) sd)
  | step_finally (e : exn) w ths :
      ths MainThread = Some (Raise e) ->
      step (MkPool w ths false) (MkPool w (set_thread MainThread (Some destroy) ths) true).

(** The process at its start: the main thread constructs the camera. *)
Definition initial_pool (resolution : Z * Z) : pool :=
  MkPool initial_world (set_thread MainThread (Some (init b resolution)) (fun _ => None)) false.

Definition reachable (resolution : Z * Z) (s : pool) : Prop :=
  rtc step (initial_pool resolution) s.

(** A thread that no step moves. *)
Definition blocked (s : pool) (t : tid) : Prop :=
  forall s', step s s' -> p_threads s' t = p_threads s t.

End Process.

(** ** Notions the statements use *)

Fixpoint group_names (p : pattern) : list string :=
  match p with
  | [] => []
  | Lit _ :: p' => group_names p'
  | Digits name :: p' => name :: group_names p'
  end.

(** The seconds slept in a trace. *)
Fixpoint slept (tr : list (tid * cmd)) : Q :=
  match tr with
  | [] => 0
  | (_, Sleep s) :: tr' => s + slept tr'
  | _ :: tr' => slept tr'
  end.


(** The commands of thread [t]. *)
Definition by_thread (t : tid) (cs : list cmd) : list (tid * cmd) := map (pair t) cs.

(** What [flash_on] does once it has the lock. *)
Definition blink_cmds : list cmd :=
  [Fill red; Show; Sleep (1 # 2); Fill black; Show; Sleep 1].

Definition flash_on_cmds (countdown : bool) : list cmd :=
  [LockAcquire PixelLock; SetBrightness FLASH_BRIGHTNESS]
  ++ (if countdown then blink_cmds ++ blink_cmds ++ blink_cmds else [])
  ++ [Fill white; Show].

Definition flash_off_cmds : list cmd :=
  [SetBrightness IDLE_BRIGHTNESS; Fill black; Show; LockRelease PixelLock].

(** Whether thread [t] is inside [with self.settings_lock], by the trace:
    its last event on the lock is an acquisition. *)
Definition lock_event (t : tid) (held : bool) (e : tid * cmd) : bool :=
  if decide (e.1 = t) then
    match e.2 with
    | LockAcquire SettingsLock => true
    | LockRelease SettingsLock => false
    | _ => held
    end
  else held.

Definition active (t : tid) (tr : list (tid * cmd)) : bool :=
  fold_left (lock_event t) tr false.

(** Commands that leave locks, ring, attributes and timers as they are. *)
Definition quiet_cmd (c : cmd) : bool :=
  match c with
  | Print _ | Sleep _ | GetResolution | GetSettings | GetTimer => true
  | _ => is_camera_cmd c
  end.

Fixpoint quiet {A : Type} (p : prog A) : Prop :=
  match p with
  | Ret _ | Raise _ => True
  | Do c k => quiet_cmd c = true /\ forall r, quiet (k r)
  end.

(** Every value the code can return satisfies [P]. *)
Fixpoint returns {A : Type} (P : A -> Prop) (p : prog A) : Prop :=
  match p with
  | Ret a => P a
  | Raise _ => True
  | Do c k => forall r, returns P (k r)
  end.

(** Every settings value the code can store satisfies [P]. *)
Fixpoint publishes {A : Type} (P : gmap string pyval -> Prop) (p : prog A) : Prop :=
  match p with
  | Ret _ | Raise _ => True
  | Do c k =>
      match c with SetSettings d => P d | _ => True end /\ forall r, publishes P (k r)
  end.

Definition SETTINGS_KEYS : gset string :=
  {["analog_gain"; "digital_gain"; "shutter_speed"; "awb_gains"]}.

(** A settings value with all its fields. *)
Definition complete (d : gmap string pyval) : Prop := dom d = SETTINGS_KEYS.

(** The lock discipline of a piece of code, started with the settings lock
    [held] or not: it takes the lock only when it does not have it, gives it
    back only when it has it, touches the camera only while it has it, and
    has it or not as [ret] says when it returns and as [exc] says when it
    raises.  (Taking a free lock and giving back a held one do not raise.) *)
Definition guarded_cmd (held : bool) (c : cmd) (P : bool -> result (resp c) -> Prop) : Prop :=
  match c as c0 return (bool -> result (resp c0) -> Prop) -> Prop with
  | LockAcquire SettingsLock => fun P => held = false /\ P true (Ok tt)
  | LockRelease SettingsLock => fun P => held = true /\ P false (Ok tt)
  | c0 => fun P => (is_camera_cmd c0 = true -> held = true) /\ forall r, P held r
  end P.

Fixpoint guarded {A : Type} (held ret exc : bool) (p : prog A) : Prop :=
  match p with
  | Ret _ => held = ret
  | Raise _ => held = exc
  | Do c k => guarded_cmd held c (fun h r => guarded h ret exc (k r))
  end.

(** Whether thread [t] holds the settings lock, by the lock. *)
Definition holds (w : world) (t : tid) : bool := bool_decide (w_settings_lock w = Some t).

(** Code that only returns once the settings are cached: [cached] says
    whether they are already. *)
Definition caches (c : cmd) : bool :=
  match c with
  | SetSettings _ => true
  | _ => false
  end.

Fixpoint initialises {A : Type} (cached : bool) (p : prog A) : Prop :=
  match p with
  | Ret _ => cached = true
  | Raise _ => True
  | Do c k => forall r, initialises (cached || caches c) (k r)
  end.

(** Every camera command of the trace was performed by a thread that was
    inside [with self.settings_lock] at that point. *)
Definition camera_inside (tr : list (tid * cmd)) : Prop :=
  forall tr1 t c tr2,
    tr = tr1 ++ (t, c) :: tr2 -> is_camera_cmd c = true -> active t tr1 = true.

(** Every settings value stored along the trace was complete. *)
Definition published_complete (tr : list (tid * cmd)) : Prop :=
  forall t d, In (t, SetSettings d) tr -> complete d.

(** What every state of the process satisfies (see [reachable_invariant]):
    each thread follows the lock discipline, the holder of the lock is a
    thread of the process, the trace and the lock agree on who is inside
    [with self.settings_lock], every camera command in the trace was
    performed inside, the cached settings and every settings value stored
    are complete, and the main loop runs only with settings cached. *)
Record invariant (s : pool) : Prop := MkInvariant {
  inv_guarded : forall t p, p_threads s t = Some p -> guarded (holds (p_world s) t) false false p;
  inv_holder : forall t, w_settings_lock (p_world s) = Some t -> is_Some (p_threads s t);
  inv_active : forall t, active t (w_trace (p_world s)) = holds (p_world s) t;
  inv_camera : camera_inside (w_trace (p_world s));
  inv_publishes : forall t p, p_threads s t = Some p -> publishes complete p;
  inv_cached : forall d, w_settings (p_world s) = Some d -> complete d;
  inv_published : published_complete (w_trace (p_world s));
  inv_main : p_shutdown s = false ->
             forall p, p_threads s MainThread = Some p ->
                       initialises (bool_decide (is_Some (w_settings (p_world s)))) p;
}.

(** The world after [flash_on] by thread [t]: the indicator lock is [t]'s,
    the ring is white at flash brightness. *)
Definition flashed (t : tid) (countdown : bool) (w : world) : world :=
  extend_trace (by_thread t (flash_on_cmds countdown))
    (set_shown (FLASH_BRIGHTNESS, white)
       (set_buffer white (set_brightness FLASH_BRIGHTNESS (set_lock PixelLock (Some t) w)))).

(** The world after [flash_off]: the ring dark at idle brightness, the
    indicator lock free. *)
Definition unflashed (t : tid) (w : world) : world :=
  extend_trace (by_thread t flash_off_cmds)
    (set_lock PixelLock None
       (set_shown (IDLE_BRIGHTNESS, black)
          (set_buffer black (set_brightness IDLE_BRIGHTNESS w)))).

(** Entering and leaving [with self.settings_lock]. *)
Definition entered (t : tid) (w : world) : world :=
  log t (LockAcquire SettingsLock) (set_lock SettingsLock (Some t) w).

Definition operation_left (t : tid) (w : world) : world :=
  log t (LockRelease SettingsLock) (set_lock SettingsLock None w).

(** The world when [take_photo] (with the countdown) or [update_settings]
    (without) hands over to the backend. *)
Definition in_operation (t : tid) (countdown : bool) (w : world) : world :=
  flashed t countdown (entered t w).

(** The world after [flash_off] and the end of the [with] block. *)
Definition operation_done (t : tid) (w : world) : world :=
  operation_left t (unflashed t w).

(** The end of [update_settings], after the [with] block: the four prints
    and the next timer. *)
Definition report_and_reschedule : prog unit :=
  print_setting "  Analog gain:" "analog_gain";;
  print_setting "  Digital gain:" "digital_gain";;
  print_setting "  Shutter speed:" "shutter_speed";;
  print_setting "  AWB gains:" "awb_gains";;
  t ← call (TimerNew SETTINGS_UPDATE_INTERVAL UpdateSettings);
  call (SetTimer t);;
  call (TimerStart t).

(** The timer [update_settings] leaves behind: started, not yet fired. *)
Definition next_timer : timer :=
  MkTimer SETTINGS_UPDATE_INTERVAL UpdateSettings true false false.

(** The world after [report_and_reschedule] printed the settings [d]. *)
Definition rescheduled (t : tid) (d : gmap string pyval) (w : world) : world :=
  let h := length (w_timers w) in
  extend_trace
    (by_thread t
       [GetSettings; Print [VStr "  Analog gain:"; default VNone (d !! "analog_gain")];
        GetSettings; Print [VStr "  Digital gain:"; default VNone (d !! "digital_gain")];
        GetSettings; Print [VStr "  Shutter speed:"; default VNone (d !! "shutter_speed")];
        GetSettings; Print [VStr "  AWB gains:"; default VNone (d !! "awb_gains")];
        TimerNew SETTINGS_UPDATE_INTERVAL UpdateSettings; SetTimer h; TimerStart h])
    (set_timers (w_timers w ++ [next_timer]) (set_settings_update_timer h w)).

(** A run of digits that is not empty, and one that does not spell zero. *)
Definition nonempty (s : string) : bool := negb (String.eqb s EmptyString).

Definition nonzero (s : string) : bool := negb (PrimFloat.eqb (float_of_digits s) 0%float).

(** The settings [parse_settings] builds from the texts of the groups. *)
Definition settings_of_groups (exposure an ad dn dd rn rd bn bd : string) : gmap string pyval :=
  <["awb_gains" := VList [PrimFloat.div (float_of_digits rn) (float_of_digits rd);
                          PrimFloat.div (float_of_digits bn) (float_of_digits bd)]]>
    (<["shutter_speed" := VFloat (float_of_digits exposure)]>
       (<["digital_gain" := VFloat (PrimFloat.div (float_of_digits dn) (float_of_digits dd))]>
          (<["analog_gain" := VFloat (PrimFloat.div (float_of_digits an) (float_of_digits ad))]>
             ∅))).

(** An environment that gives the same answers whenever it is asked: the
    shell commands, the settings probe, the capture command, the driver's
    calls, and the driver's two readings. *)
Definition environment (shell : result Z) (probe : result string) (capture : result Z)
    (driver : result unit) (exposure_speed : result Z) (awb_gains : result (list Q)) : oracle :=
  fun c =>
    match c as c0 return result (resp c0) with
    | SubprocessShell _ => shell
    | SubprocessRun _ => probe
    | SubprocessCall _ => capture
    | PiCameraExposureSpeed => exposure_speed
    | PiCameraAwbGains => awb_gains
    | PiCameraOpen _ | PiCameraSet _ _ | PiCameraCapture _ | PiCameraClose => driver
    | GetResolution => Err AttributeError
    | GetSettings => Err AttributeError
    | GetTimer => Err AttributeError
    | TimerNew _ _ => Err RuntimeError
    | _ => Ok tt
    end.

Definition newline : string := String (ascii_of_nat 10) EmptyString.

(** A diagnostic stream with two exposure lines, the later one with the
    converged values, and a white-balance line. *)
Definition example_stream : string :=
  "mmal: Exposure now 1200, analog gain 100/50, digital gain 10/10" ++ newline ++
  "mmal: AWB R=337/256, B=3/2" ++ newline ++
  "mmal: Exposure now 1500, analog gain 120/60, digital gain 20/10" ++ newline.



(** The resolution the script constructs the camera with. *)
Definition script_resolution : Z * Z := (951, 1268).

(** An environment in which everything works and raspistill prints [stream]. *)
Definition working_environment (stream : string) : oracle :=
  environment (Ok 0) (Ok stream) (Ok 0) (Ok tt) (Ok 33000) (Ok [337 # 256; 3 # 2]%Q).

(** The world once the script has constructed a [RaspiStillCamera] in an
    environment that printed [example_stream]. *)
Definition ready_world : world :=
  (run MainThread (working_environment example_stream)
     (init RaspiStillCamera script_resolution) initial_world).2.

(** Code that touches neither the settings lock nor the camera. *)
Definition plain_cmd (c : cmd) : bool :=
  match c with
  | LockAcquire SettingsLock | LockRelease SettingsLock => false
  | _ => negb (is_camera_cmd c)
  end.

Fixpoint plain {A : Type} (p : prog A) : Prop :=
  match p with
  | Ret _ | Raise _ => True
  | Do c k => plain_cmd c = true /\ forall r, plain (k r)
  end.

(** The process after thread [t] performed its next [n] commands (fewer if
    it ends or waits before), the environment answering as [o] says. *)
Fixpoint advance (t : tid) (o : oracle) (n : nat) (s : pool) : pool :=
  match n with
  | O => s
  | S n' =>
      match p_threads s t with
      | Some (Do c k) =>
          match handle t o c (p_world s) with
          | Some (r, w') =>
              advance t o n' (MkPool w' (set_thread t (Some (k r)) (p_threads s)) (p_shutdown s))
          | None => s
          end
      | _ => s
      end
  end.

(** ** [IdleAnimation] and [BigButton] *)

(** The orders of the colour bytes that [neopixel] knows. *)
Inductive pixel_order : Type := RGB | GRB | RGBW | GRBW.

#[export] Instance pixel_order_eq_dec : EqDecision pixel_order.
Proof. solve_decision. Defined.

(** [wheel(pos)] of [IdleAnimation.run]: a colour of three entries, or of
    four with a white of 0 when the order is neither [RGB] nor [GRB]. *)
Definition wheel (order : pixel_order) (pos : Z) : list Z :=
  let '(r, g, b) :=
    if (pos <? 0)%Z || (255 <? pos)%Z then (0, 0, 0)
    else if (pos <? 85)%Z then (pos * 3, 255 - pos * 3, 0)
    else if (pos <? 170)%Z then
      let pos := pos - 85 in (255 - pos * 3, 0, pos * 3)
    else
      let pos := pos - 170 in (0, pos * 3, 255 - pos * 3) in
  if bool_decide (order = RGB) || bool_decide (order = GRB) then [r; g; b] else [r; g; b; 0].

(** [a // b] on integers. *)
Definition py_floordiv (a b : Z) : result Z :=
  if (b =? 0)%Z then Err ZeroDivisionError else Ok (a `div` b).

(** [range(n)] *)
Definition range (n : Z) : list Z := map Z.of_nat (seq 0 (Z.to_nat n)).

(** [pixels[i] = v] on the ring's buffer: a negative index counts from the
    end, an index outside the buffer is an [IndexError]. *)
Definition setitem {A : Type} (pixels : list A) (i : Z) (v : A) : result (list A) :=
  let i := if (i <? 0)%Z then i + Z.of_nat (length pixels) else i in
  if (i <? 0)%Z || (Z.of_nat (length pixels) <=? i)%Z then Err IndexError
  else Ok (<[Z.to_nat i := v]> pixels).

(** The inner loop of [IdleAnimation.run], over the indices [indices]: frame
    [j] of the animation written to the buffer. *)
Fixpoint draw_pixels (order : pixel_order) (num_pixels j : Z) (indices : list Z)
    (pixels : list (list Z)) : result (list (list Z)) :=
  match indices with
  | [] => Ok pixels
  | i :: indices' =>
      q ← py_floordiv (i * 256) num_pixels;
      let pixel_index := q + j in
      let pixel_values := wheel order (Z.land pixel_index 255) in
      pixels' ← setitem pixels i pixel_values;
      draw_pixels order num_pixels j indices' pixels'
  end.

Definition draw_frame (order : pixel_order) (num_pixels j : Z) (pixels : list (list Z))
  : result (list (list Z)) :=
  draw_pixels order num_pixels j (range num_pixels) pixels.

(** [BigButton.wait_for_press]: [readings] are the values of
    [self.button.value] at the successive polls (the pin is pulled up, so it
    reads true until the button is pressed).  The result is the number of
    times the loop slept its 0.02 seconds and the readings not yet used, or
    [None] when the loop is still polling after the last reading. *)
Fixpoint wait_for_press (readings : list bool) : option (nat * list bool) :=
  match readings with
  | [] => None
  | value :: later =>
      if value then
        match wait_for_press later with
        | Some (sleeps, rest) => Some (S sleeps, rest)
        | None => None
        end
      else Some (O, later)
  end.

(** How a pass of the animation's [for] loop ends: [run] returned because
    [self.running] was false, the loop ran through (with the readings of
    [self.running] not yet used), or the readings ran out. *)
Inductive pass_end : Type :=
  | Stopped
  | Completed (rest : list bool)
  | Waiting.

(** The [for j in range(255)] loop of [IdleAnimation.run] over the frames
    [js] still to come.  [running] are the values of [self.running] at the
    successive checks; [shown] collects what [show()] put on the ring.  (The
    indicator lock that [run] holds around each frame is not part of this
    function.) *)
Fixpoint animation_pass (order : pixel_order) (num_pixels : Z) (js : list Z)
    (running : list bool) (pixels : list (list Z)) (shown : list (list (list Z)))
  : result (pass_end * list (list Z) * list (list (list Z))) :=
  match js with
  | [] => Ok (Completed running, pixels, shown)
  | j :: js' =>
      match running with
      | [] => Ok (Waiting, pixels, shown)
      | value :: running' =>
          if negb value then Ok (Stopped, pixels, shown)
          else
            pixels' ← draw_frame order num_pixels j pixels;
            animation_pass order num_pixels js' running' pixels' (shown ++ [pixels'])
      end
  end.

(** The [while True] loop around it, for at most [fuel] passes. *)
Fixpoint animation_loop (order : pixel_order) (num_pixels : Z) (fuel : nat)
    (running : list bool) (pixels : list (list Z)) (shown : list (list (list Z)))
  : result (pass_end * list (list Z) * list (list (list Z))) :=
  match fuel with
  | O => Ok (Waiting, pixels, shown)
  | S fuel' =>
      r ← animation_pass order num_pixels (range 255) running pixels shown;
      match r with
      | (Completed rest, pixels', shown') =>
          animation_loop order num_pixels fuel' rest pixels' shown'
      | _ => Ok r
      end
  end.

(** [IdleAnimation.run] after [self.running = True]: every pass uses up a
    reading, so one pass per reading and one more is enough. *)
Definition idle_animation_run (order : pixel_order) (num_pixels : Z) (running : list bool)
    (pixels : list (list Z)) : result (pass_end * list (list Z) * list (list (list Z))) :=
  animation_loop order num_pixels (S (length running)) running pixels [].

(** Frame [j] of the animation on a ring of [num_pixels] pixels. *)
Definition frame (order : pixel_order) (num_pixels j : Z) : list (list Z) :=
  map (fun i => wheel order (Z.land ((i * 256) `div` num_pixels + j) 255)) (range num_pixels).
(** ** Timers and the indicator lock in the process *)

(** The code starts at most [n] timers, whatever its commands answer. *)
Fixpoint starts {A : Type} (n : nat) (p : prog A) : Prop :=
  match p with
  | Ret _ | Raise _ => True
  | Do c k =>
      match c with
      | TimerStart _ =>
          match n with
          | O => False
          | S n' => forall r, starts n' (k r)
          end
      | _ => forall r, starts n (k r)
      end
  end.

(** What every state of the process satisfies about its timers: a thread
    starts at most one more timer, at most one thread starts any, and none
    does while a timer is pending, of which there is at most one. *)
Record timer_invariant (s : pool) : Prop := MkTimerInvariant {
  ti_budget : forall t p, p_threads s t = Some p -> starts 1 p;
  ti_single : forall t1 t2 p1 p2,
      t1 <> t2 -> p_threads s t1 = Some p1 -> p_threads s t2 = Some p2 ->
      starts 0 p1 \/ starts 0 p2;
  ti_pending : forall h tm t p,
      w_timers (p_world s) !! h = Some tm -> pending tm = true ->
      p_threads s t = Some p -> starts 0 p;
  ti_unique : forall h1 h2 tm1 tm2,
      w_timers (p_world s) !! h1 = Some tm1 -> pending tm1 = true ->
      w_timers (p_world s) !! h2 = Some tm2 -> pending tm2 = true ->
      h1 = h2;
}.

(** The discipline of the indicator lock in a piece of code that starts
    holding it or not, as [held] says: it takes the lock only when it does
    not have it, gives it back only when it has it, and has it or not as
    [ret] says when it returns. *)
Fixpoint pixel_guarded {A : Type} (held ret : bool) (p : prog A) : Prop :=
  match p with
  | Ret _ => held = ret
  | Raise _ => True
  | Do c k =>
      match c with
      | LockAcquire PixelLock => held = false /\ forall r, pixel_guarded true ret (k r)
      | LockRelease PixelLock => held = true /\ forall r, pixel_guarded false ret (k r)
      | _ => forall r, pixel_guarded held ret (k r)
      end
  end.

(** Code that never touches the indicator lock. *)
Fixpoint pixel_plain {A : Type} (p : prog A) : Prop :=
  match p with
  | Ret _ | Raise _ => True
  | Do c k =>
      match c with
      | LockAcquire PixelLock | LockRelease PixelLock => False
      | _ => forall r, pixel_plain (k r)
      end
  end.

(** Whether thread [t] holds the indicator lock. *)
Definition holds_pixel (w : world) (t : tid) : bool := bool_decide (w_pixel_lock w = Some t).

(** What every state of the process satisfies about the indicator lock:
    every thread follows the discipline, holding the lock at its return only
    after the shutdown, and the holder of the lock is a thread that was
    started. *)
Record pixel_invariant (s : pool) : Prop := MkPixelInvariant {
  pi_guarded : forall t p,
      p_threads s t = Some p ->
      exists ret, pixel_guarded (holds_pixel (p_world s) t) ret p
                  /\ (p_shutdown s = false -> ret = false);
  pi_holder : forall t, w_pixel_lock (p_world s) = Some t -> is_Some (p_threads s t);
}.

(** ** A constructed controller *)

(** The settings a backend's calibration returns: for the library backend
    the gains are [None], the shutter speed the driver's integer and the
    white-balance gains a list of floats; for the external-tool backend the
    gains and the shutter speed are floats and the white-balance gains a
    pair of floats; the abstract [Camera] returns none. *)
Definition calibrated (b : backend) (d : gmap string pyval) : Prop :=
  match b with
  | Camera => False
  | PyCamera =>
      exists exposure_speed gains,
        d = <["awb_gains" := VList gains]>
              (<["shutter_speed" := VInt exposure_speed]>
                 (<["digital_gain" := VNone]> (<["analog_gain" := VNone]> ∅)))
  | RaspiStillCamera =>
      exists analog_gain digital_gain shutter_speed awb_r awb_b,
        d = <["awb_gains" := VList [awb_r; awb_b]]>
              (<["shutter_speed" := VFloat shutter_speed]>
                 (<["digital_gain" := VFloat digital_gain]>
                    (<["analog_gain" := VFloat analog_gain]> ∅)))
  end.

(** A world in which the controller is constructed and idle: both locks
    free, the resolution set and calibrated settings cached. *)
Definition ready (b : backend) (resolution : Z * Z) (w : world) : Prop :=
  w_settings_lock w = None /\ w_pixel_lock w = None
  /\ w_resolution w = Some resolution
  /\ exists d, w_settings w = Some d /\ calibrated b d.

(** The exception [e] is one the environment answered a camera command with. *)
Definition from_outside (o : oracle) (e : exn) : Prop :=
  exists c, is_camera_cmd c = true
            /\ match o c with Err e' => e' = e | Ok _ => False end.
(** * Properties *)

(** ** Running code *)

Ltac unfold_monad := unfold mbind, mret, prog_bind, prog_ret, result_mbind, result_ret in *.

(** Symbolic execution of the code under [run]. *)
Ltac run_steps := cbn [run bind finally call lift handle external attr for_range].

(** The same on a world given field by field. *)
Ltac run_world :=
  cbn [run bind finally call lift handle external attr for_range
       lock_of set_lock set_brightness set_buffer set_shown set_resolution set_settings
       set_settings_update_timer set_timers log extend_trace
       w_settings_lock w_pixel_lock w_brightness w_buffer w_shown w_resolution w_settings
       w_settings_update_timer w_timers w_trace].

(** Worlds built by the setters, field by field. *)
Ltac world_norm :=
  cbv [lock_of set_lock set_brightness set_buffer set_shown set_resolution set_settings
       set_settings_update_timer set_timers log extend_trace
       w_settings_lock w_pixel_lock w_brightness w_buffer w_shown w_resolution w_settings
       w_settings_update_timer w_timers w_trace
       in_operation operation_done operation_left rescheduled flashed unflashed entered
       by_thread map start_timer cancel_timer fire_timer next_timer
       t_interval t_function t_started t_finished t_fired];
  rewrite <- ?app_assoc.

Lemma run_bind {A B : Type} t o (p : prog A) (f : A -> prog B) w :
  run t o (bind p f) w =
  match run t o p w with
  | (Returned a, w') => run t o (f a) w'
  | (Raised e, w') => (Raised e, w')
  | (Blocked, w') => (Blocked, w')
  end.
Proof.
  revert w. induction p as [a|e|c k IH]; intros w; simpl; try reflexivity.
  destruct (handle t o c w) as [[r w']|]; [apply IH | reflexivity].
Qed.

Lemma run_finally {A : Type} t o (p : prog A) (f : prog unit) w :
  run t o (finally p f) w =
  match run t o p w with
  | (Returned a, w') =>
      match run t o f w' with
      | (Returned _, w'') => (Returned a, w'')
      | (Raised e, w'') => (Raised e, w'')
      | (Blocked, w'') => (Blocked, w'')
      end
  | (Raised e, w') =>
      match run t o f w' with
      | (Returned _, w'') => (Raised e, w'')
      | (Raised e', w'') => (Raised e', w'')
      | (Blocked, w'') => (Blocked, w'')
      end
  | (Blocked, w') => (Blocked, w')
  end.
Proof.
  revert w. induction p as [a|e|c k IH]; intros w; simpl.
  - rewrite run_bind. destruct (run t o f w) as [[[]|e|] w']; reflexivity.
  - rewrite run_bind. destruct (run t o f w) as [[[]|e'|] w']; reflexivity.
  - destruct (handle t o c w) as [[r w']|]; [apply IH | reflexivity].
Qed.

Lemma run_lift {A : Type} t o (r : result A) w :
  run t o (lift r) w = (match r with Ok a => Returned a | Err e => Raised e end, w).
Proof. destruct r; reflexivity. Qed.

Lemma extend_trace_nil w : extend_trace [] w = w.
Proof. destruct w. unfold extend_trace. simpl. rewrite app_nil_r. reflexivity. Qed.

Lemma extend_trace_app tr1 tr2 w :
  extend_trace tr2 (extend_trace tr1 w) = extend_trace (tr1 ++ tr2) w.
Proof. destruct w. unfold extend_trace. simpl. rewrite app_assoc. reflexivity. Qed.

(** ** The indicator *)

Lemma run_flash_on t o countdown w :
  w_pixel_lock w = None ->
  run t o (flash_on countdown) w = (Returned tt, flashed t countdown w).
Proof.
  intros H. destruct w. simpl in H. subst.
  destruct countdown; cbv -[app]; rewrite <- ?app_assoc; reflexivity.
Qed.

Lemma run_flash_on_held t o countdown w h :
  w_pixel_lock w = Some h -> run t o (flash_on countdown) w = (Blocked, w).
Proof.
  intros H. unfold flash_on. unfold_monad. run_steps. cbv [lock_of]. rewrite H. reflexivity.
Qed.

Lemma run_flash_off t o w h :
  w_pixel_lock w = Some h ->
  run t o flash_off w = (Returned tt, unflashed t w).
Proof.
  intros H. destruct w. simpl in H. subst.
  cbv -[app]; rewrite <- ?app_assoc; reflexivity.
Qed.

(** ** Code that leaves the shared state alone *)

Lemma handle_quiet t o c w :
  quiet_cmd c = true -> exists r, handle t o c w = Some (r, log t c w).
Proof. destruct c; simpl; intros H; try discriminate; eauto. Qed.

Lemma quiet_run {A : Type} t o (p : prog A) w :
  quiet p ->
  exists out tr, run t o p w = (out, extend_trace tr w) /\ out <> Blocked.
Proof.
  revert w. induction p as [a|e|c k IH]; intros w Hq; simpl.
  - exists (Returned a), []. rewrite extend_trace_nil. split; [reflexivity | discriminate].
  - exists (Raised e), []. rewrite extend_trace_nil. split; [reflexivity | discriminate].
  - destruct Hq as [Hc Hk].
    destruct (handle_quiet t o c w Hc) as [r ->].
    destruct (IH r (log t c w) (Hk r)) as (out & tr & -> & Hout).
    exists out, ((t, c) :: tr). split; [|exact Hout].
    unfold log. rewrite extend_trace_app. reflexivity.
Qed.

Lemma quiet_bind {A B : Type} (p : prog A) (f : A -> prog B) :
  quiet p -> (forall a, quiet (f a)) -> quiet (bind p f).
Proof.
  intros Hp Hf. induction p as [a|e|c k IH]; simpl in *; auto.
  destruct Hp as [Hc Hk]. split; auto.
Qed.

Lemma quiet_finally {A : Type} (p : prog A) (f : prog unit) :
  quiet p -> quiet f -> quiet (finally p f).
Proof.
  intros Hp Hf. induction p as [a|e|c k IH]; simpl in *.
  - apply quiet_bind; simpl; auto.
  - apply quiet_bind; simpl; auto.
  - destruct Hp as [Hc Hk]. split; auto.
Qed.

Lemma quiet_lift {A : Type} (r : result A) : quiet (lift r).
Proof. destruct r; exact I. Qed.

Lemma quiet_call c : quiet_cmd c = true -> quiet (call c).
Proof. intros H. split; [exact H | intros r; apply quiet_lift]. Qed.

Lemma quiet_dict_get d key : quiet (dict_get d key).
Proof. unfold dict_get. destruct (d !! key); exact I. Qed.

Lemma quiet_str_each sf v : quiet (str_each sf v).
Proof. destruct v; exact I. Qed.

Ltac quiet_tac :=
  unfold_monad;
  repeat first
    [ apply quiet_bind; [|intros ?]
    | apply quiet_finally
    | apply quiet_call; reflexivity
    | apply quiet_lift
    | apply quiet_dict_get
    | apply quiet_str_each
    | exact I ].

Lemma quiet_update_capture_settings b : quiet (update_capture_settings b).
Proof.
  destruct b; [exact I | |].
  - unfold update_capture_settings, pycamera_update_capture_settings, with_picamera. quiet_tac.
  - unfold update_capture_settings, raspistill_update_capture_settings. quiet_tac.
Qed.

Lemma quiet_capture_image sf b path : quiet (capture_image sf b path).
Proof.
  destruct b; [exact I | |].
  - unfold capture_image, pycamera_capture_image, with_picamera. quiet_tac.
  - unfold capture_image, raspistill_capture_image. quiet_tac.
Qed.

(** ** The patterns and their matches *)

Example exposure_pattern_source :
  re_source EXPOSURE_PATTERN =
  "mmal: Exposure now (?P<exposure>[0-9]*), analog gain (?P<analog_gain_n>[0-9]*)/(?P<analog_gain_d>[0-9]*), digital gain (?P<digital_gain_n>[0-9]*)/(?P<digital_gain_d>[0-9]*)".
Proof. reflexivity. Qed.

Example awb_pattern_source :
  re_source AWB_PATTERN =
  "mmal: AWB R=(?P<awb_r_n>[0-9]*)/(?P<awb_r_d>[0-9]*), B=(?P<awb_b_n>[0-9]*)/(?P<awb_b_d>[0-9]*)".
Proof. reflexivity. Qed.

Lemma all_digits_app s1 s2 :
  all_digits s1 = true -> all_digits s2 = true -> all_digits (s1 ++ s2) = true.
Proof.
  induction s1 as [|c s1 IH]; simpl; intros H1 H2; [exact H2|].
  apply andb_true_iff in H1 as [Hc H1]. rewrite Hc. simpl. auto.
Qed.

Lemma digits_star_digits {R : Type} (k : string -> string -> option R) acc s r :
  all_digits acc = true ->
  digits_star k acc s = Some r ->
  exists d rest, all_digits d = true /\ k d rest = Some r.
Proof.
  revert acc. induction s as [|c s IH]; intros acc Hacc H; simpl in H.
  - eauto.
  - destruct (is_digit c) eqn:Hc; [|eauto].
    destruct (digits_star k (acc ++ String c EmptyString) s) as [r'|] eqn:Hrec; [|eauto].
    inversion H; subst r'.
    apply (IH (acc ++ String c EmptyString)%string); [|exact Hrec].
    apply all_digits_app; [exact Hacc|]. simpl. rewrite Hc. reflexivity.
Qed.

(** The groups of a match are those of the pattern, in order, and each holds
    a run of digits. *)
Lemma match_items_digits p s consumed g g' n :
  match_items p s consumed g = Some (g', n) ->
  exists gs, g' = g ++ gs /\ map fst gs = group_names p
             /\ Forall (fun kv => all_digits kv.2 = true) gs.
Proof.
  revert s consumed g. induction p as [|[text|name] p IH]; intros s consumed g H; simpl in H.
  - inversion H; subst. exists []. rewrite app_nil_r. auto.
  - destruct (lit_prefix text s) as [rest|]; [|discriminate].
    apply IH in H. exact H.
  - apply digits_star_digits in H as (d & rest & Hd & H); [|reflexivity].
    apply IH in H as (gs & -> & Hn & Hg).
    exists ((name, d) :: gs). rewrite <- app_assoc. simpl. rewrite Hn.
    repeat split; auto.
Qed.

Lemma scan_match_at p s pos skip m :
  In m (scan p s pos skip) -> exists s' pos', match_at p s' pos' = Some m.
Proof.
  revert pos skip. induction s as [|c s IH]; intros pos skip H; simpl in H.
  - destruct skip; [|destruct H].
    destruct (match_at p EmptyString pos) as [m'|] eqn:Hm; [|destruct H].
    destruct H as [->|[]]. eauto.
  - destruct skip as [|skip]; [|eauto].
    destruct (match_at p (String c s) pos) as [m'|] eqn:Hm; [|eauto].
    destruct H as [->|H]; eauto.
Qed.

Lemma finditer_groups p s m :
  In m (re_finditer p s) ->
  map fst (m_groups m) = group_names p
  /\ Forall (fun kv => all_digits kv.2 = true) (m_groups m).
Proof.
  intros H. apply scan_match_at in H as (s' & pos' & H).
  unfold match_at in H.
  destruct (match_items p s' 0%nat []) as [[g n]|] eqn:Hm; [|discriminate].
  inversion H; subst m. simpl.
  apply match_items_digits in Hm as (gs & -> & Hn & Hg). auto.
Qed.

(** ** [find_last_match] *)

Lemma getitem_last_snoc {M : Type} (l : list M) (m : M) : getitem_last (l ++ [m]) = Ok m.
Proof. unfold getitem_last. rewrite last_snoc. reflexivity. Qed.

Lemma find_last_match_snoc {Pat M : Type} (finditer : Pat -> string -> list M) pat s l m :
  finditer pat s = l ++ [m] -> find_last_match finditer pat s = Ok (Some m).
Proof. intros H. unfold find_last_match. simpl. rewrite H, getitem_last_snoc. reflexivity. Qed.

(** C10: on a string with no match of the pattern [find_last_match] raises
    [IndexError]; and on no input at all does it return [None], since the
    test of the iterator object is always true. *)
Theorem find_last_match_never_none {Pat M : Type} (finditer : Pat -> string -> list M)
    (pat : Pat) (s : string) :
  finditer pat s = [] ->
  find_last_match finditer pat s = Err IndexError
  /\ forall pat' s', find_last_match finditer pat' s' <> Ok None.
Proof.
  intros Hnone. split.
  - unfold find_last_match, py_list. simpl. rewrite Hnone. reflexivity.
  - intros pat' s'. unfold find_last_match, py_list. simpl.
    destruct (getitem_last (finditer pat' s')); discriminate.
Qed.

Lemma find_last_match_never_none_witness :
  re_finditer EXPOSURE_PATTERN "mmal: no settings here" = []
  /\ find_last_match re_finditer EXPOSURE_PATTERN "mmal: no settings here" = Err IndexError.
Proof.
  split; [vm_compute; reflexivity|].
  apply (find_last_match_never_none re_finditer EXPOSURE_PATTERN "mmal: no settings here").
  vm_compute; reflexivity.
Defined.

(** ** The backends' calibrations *)

Lemma run_probe (t : tid) (o : oracle) (w : world) (resolution : Z * Z) (rc6 rc7 rcp : Z)
    (stderr : string) :
  w_resolution w = Some resolution ->
  o (SubprocessShell "chvt 6") = Ok rc6 ->
  o (SubprocessShell "chvt 7") = Ok rc7 ->
  o (SubprocessRun (probe_argv resolution)) = Ok stderr ->
  o (SubprocessShell "tvservice -p") = Ok rcp ->
  run t o raspistill_update_capture_settings w =
  (match parse_settings (py_str_bytes stderr) with Ok d => Returned d | Err e => Raised e end,
   extend_trace
     (by_thread t [GetResolution; SubprocessShell "chvt 6"; SubprocessShell "chvt 7";
                   SubprocessRun (probe_argv resolution); SubprocessShell "tvservice -p"]) w).
Proof.
  intros Hres H6 H7 Hrun Hp.
  unfold raspistill_update_capture_settings. unfold_monad.
  run_steps. rewrite Hres. run_steps. rewrite H6. run_steps. rewrite H7.
  run_steps. rewrite Hrun. run_steps. rewrite Hp. run_steps.
  rewrite run_lift. unfold log. rewrite !extend_trace_app. reflexivity.
Qed.

Lemma complete_inserts (v1 v2 v3 v4 : pyval) :
  complete (<["awb_gains" := v4]> (<["shutter_speed" := v3]>
             (<["digital_gain" := v2]> (<["analog_gain" := v1]> ∅)))).
Proof.
  unfold complete, SETTINGS_KEYS. rewrite !dom_insert_L, dom_empty_L. set_solver.
Qed.

Lemma parse_settings_complete text d : parse_settings text = Ok d -> complete d.
Proof.
  unfold parse_settings. unfold_monad. unfold result_bind.
  repeat match goal with
         | |- context [match ?x with Ok _ => _ | Err _ => _ end] => destruct x; try discriminate
         end.
  intros H. inversion H. apply complete_inserts.
Qed.

Lemma returns_bind {A B : Type} (P : A -> Prop) (Q : B -> Prop) (p : prog A) (f : A -> prog B) :
  returns P p -> (forall a, P a -> returns Q (f a)) -> returns Q (bind p f).
Proof.
  intros Hp Hf. induction p as [a|e|c k IH]; simpl in *; auto.
Qed.

Lemma returns_finally {A : Type} (P : A -> Prop) (p : prog A) (f : prog unit) :
  returns P p -> returns P (finally p f).
Proof.
  intros Hp. induction p as [a|e|c k IH]; simpl in *; auto.
  - apply (returns_bind (fun _ => True)); [|intros; exact Hp].
    clear. induction f; simpl; auto.
  - apply (returns_bind (fun _ => True)); [|intros; exact I].
    clear. induction f; simpl; auto.
Qed.

Lemma returns_true {A : Type} (p : prog A) : returns (fun _ => True) p.
Proof. induction p; simpl; auto. Qed.

Lemma returns_run {A : Type} (P : A -> Prop) t o (p : prog A) w a w' :
  returns P p -> run t o p w = (Returned a, w') -> P a.
Proof.
  revert w. induction p as [a0|e|c k IH]; intros w Hp Hrun; simpl in *.
  - inversion Hrun; subst; exact Hp.
  - discriminate.
  - destruct (handle t o c w) as [[r w1]|]; [|discriminate]. eapply IH; eauto.
Qed.

Lemma returns_update_capture_settings b : returns complete (update_capture_settings b).
Proof.
  destruct b; [exact I | |].
  - unfold update_capture_settings, pycamera_update_capture_settings, with_picamera.
    unfold_monad.
    apply (returns_bind (fun _ => True)); [apply returns_true|]. intros resolution _.
    apply (returns_bind (fun _ => True)); [apply returns_true|]. intros _ _.
    apply returns_finally.
    apply (returns_bind (fun _ => True)); [apply returns_true|]. intros _ _.
    apply (returns_bind (fun _ => True)); [apply returns_true|]. intros es _.
    apply (returns_bind (fun _ => True)); [apply returns_true|]. intros g _.
    simpl. unfold complete, SETTINGS_KEYS. rewrite !dom_insert_L, dom_empty_L. set_solver.
  - unfold update_capture_settings, raspistill_update_capture_settings. unfold_monad.
    apply (returns_bind (fun _ => True)); [apply returns_true|]. intros resolution _.
    apply (returns_bind (fun _ => True)); [apply returns_true|]. intros _ _.
    apply (returns_bind (fun _ => True)); [apply returns_true|]. intros _ _.
    apply (returns_bind (fun _ => True)); [apply returns_true|]. intros stderr _.
    apply (returns_bind (fun _ => True)); [apply returns_true|]. intros _ _.
    destruct (parse_settings (py_str_bytes stderr)) as [d|e] eqn:Hd; simpl; [|exact I].
    eapply parse_settings_complete; exact Hd.
Qed.

(** ** The two operations of the controller, run by one thread *)

Lemma run_with_lock {A : Type} t o (body : prog A) w :
  w_settings_lock w = None ->
  run t o (with_lock SettingsLock body) w =
  match run t o body (entered t w) with
  | (Returned a, w') =>
      match run t o (call (LockRelease SettingsLock)) w' with
      | (Returned _, w'') => (Returned a, w'')
      | (Raised e, w'') => (Raised e, w'')
      | (Blocked, w'') => (Blocked, w'')
      end
  | (Raised e, w') =>
      match run t o (call (LockRelease SettingsLock)) w' with
      | (Returned _, w'') => (Raised e, w'')
      | (Raised e', w'') => (Raised e', w'')
      | (Blocked, w'') => (Blocked, w'')
      end
  | (Blocked, w') => (Blocked, w')
  end.
Proof.
  intros Hs. unfold with_lock. unfold_monad. run_steps. cbv [lock_of]. rewrite Hs.
  apply run_finally.
Qed.

Lemma run_release t o w h :
  w_settings_lock w = Some h ->
  run t o (call (LockRelease SettingsLock)) w = (Returned tt, operation_left t w).
Proof. intros H. run_steps. cbv [lock_of]. rewrite H. reflexivity. Qed.

Lemma run_take_photo sf t o b path w :
  w_settings_lock w = None ->
  w_pixel_lock w = None ->
  run t o (take_photo sf b path) w =
  match run t o (capture_image sf b path) (in_operation t true w) with
  | (Returned _, w') => (Returned tt, operation_done t w')
  | (Raised e, w') => (Raised e, operation_left t w')
  | (Blocked, w') => (Blocked, w')
  end.
Proof.
  intros Hs Hp.
  destruct (quiet_run t o (capture_image sf b path) (in_operation t true w)
              (quiet_capture_image sf b path)) as (out & tr & Hrun & Hout).
  unfold take_photo. rewrite run_with_lock by exact Hs. unfold_monad.
  rewrite run_bind, run_flash_on by exact Hp.
  fold (in_operation t true w). rewrite run_bind, Hrun.
  destruct out as [[]|e|]; [| |congruence].
  - rewrite (run_flash_off t o _ t) by reflexivity.
    rewrite (run_release t o _ t) by reflexivity. reflexivity.
  - rewrite (run_release t o _ t) by reflexivity. reflexivity.
Qed.

Lemma complete_lookup d key :
  complete d -> key ∈ SETTINGS_KEYS -> exists v, d !! key = Some v.
Proof.
  unfold complete. intros Hd Hk. rewrite <- Hd in Hk.
  apply elem_of_dom in Hk as [v Hv]. eauto.
Qed.

Lemma run_print_setting t o w d label key v :
  w_settings w = Some d ->
  d !! key = Some v ->
  run t o (print_setting label key) w =
  (Returned tt, extend_trace (by_thread t [GetSettings; Print [VStr label; v]]) w).
Proof.
  intros Hw Hv. unfold print_setting, dict_get. unfold_monad.
  run_steps. rewrite Hw. run_steps. cbn [w_settings log extend_trace]. rewrite Hv. run_steps.
  unfold log. rewrite extend_trace_app. reflexivity.
Qed.

Lemma run_schedule t o w :
  run t o (bind (call (TimerNew SETTINGS_UPDATE_INTERVAL UpdateSettings))
             (fun h => bind (call (SetTimer h)) (fun _ => call (TimerStart h)))) w =
  (Returned tt,
   extend_trace
     (by_thread t [TimerNew SETTINGS_UPDATE_INTERVAL UpdateSettings;
                   SetTimer (length (w_timers w)); TimerStart (length (w_timers w))])
     (set_timers (w_timers w ++ [next_timer])
        (set_settings_update_timer (length (w_timers w)) w))).
Proof.
  destruct w. run_world.
  rewrite list_lookup_middle by reflexivity. cbn [t_started]. run_world.
  replace (length w_timers0) with (length w_timers0 + 0)%nat at 2 by lia.
  rewrite insert_app_r. world_norm. reflexivity.
Qed.

Lemma w_settings_extend_trace tr w : w_settings (extend_trace tr w) = w_settings w.
Proof. reflexivity. Qed.

Lemma run_report_and_reschedule t o w d :
  w_settings w = Some d ->
  complete d ->
  run t o report_and_reschedule w = (Returned tt, rescheduled t d w).
Proof.
  intros Hw Hd.
  destruct (complete_lookup d "analog_gain" Hd) as [v1 H1]; [set_solver|].
  destruct (complete_lookup d "digital_gain" Hd) as [v2 H2]; [set_solver|].
  destruct (complete_lookup d "shutter_speed" Hd) as [v3 H3]; [set_solver|].
  destruct (complete_lookup d "awb_gains" Hd) as [v4 H4]; [set_solver|].
  unfold rescheduled. rewrite H1, H2, H3, H4. cbn [default from_option].
  unfold report_and_reschedule. unfold_monad.
  rewrite run_bind, (run_print_setting t o _ d _ _ v1) by assumption.
  rewrite run_bind, (run_print_setting t o _ d _ _ v2) by assumption.
  rewrite run_bind, (run_print_setting t o _ d _ _ v3) by assumption.
  rewrite run_bind, (run_print_setting t o _ d _ _ v4) by assumption.
  rewrite run_schedule. rewrite !extend_trace_app.
  destruct w. world_norm. reflexivity.
Qed.

Lemma run_set_settings t o d w :
  run t o (call (SetSettings d)) w = (Returned tt, log t (SetSettings d) (set_settings d w)).
Proof. reflexivity. Qed.

Lemma run_print t o args w :
  run t o (call (Print args)) w = (Returned tt, log t (Print args) w).
Proof. reflexivity. Qed.

Lemma run_update_settings t o b w :
  w_settings_lock w = None ->
  w_pixel_lock w = None ->
  run t o (update_settings b) w =
  match run t o (update_capture_settings b)
          (in_operation t false (log t (Print [VStr "Updating settings..."]) w)) with
  | (Returned d, w') =>
      run t o report_and_reschedule
        (operation_done t (log t (SetSettings d) (set_settings d w')))
  | (Raised e, w') => (Raised e, operation_left t w')
  | (Blocked, w') => (Blocked, w')
  end.
Proof.
  intros Hs Hp.
  set (w0 := log t (Print [VStr "Updating settings..."]) w).
  destruct (quiet_run t o (update_capture_settings b) (in_operation t false w0)
              (quiet_update_capture_settings b)) as (out & tr & Hrun & Hout).
  change (update_settings b) with
    (bind (call (Print [VStr "Updating settings..."]))
       (fun _ => bind (with_lock SettingsLock
                         (bind (flash_on false)
                            (fun _ => bind (update_capture_settings b)
                                        (fun settings => bind (call (SetSettings settings))
                                                           (fun _ => flash_off)))))
                   (fun _ => report_and_reschedule))).
  generalize report_and_reschedule. intros rest.
  rewrite run_bind, run_print. fold w0. rewrite run_bind.
  rewrite run_with_lock by exact Hs.
  rewrite run_bind, run_flash_on by exact Hp.
  fold (in_operation t false w0). rewrite run_bind, Hrun.
  destruct out as [d|e|]; [| |congruence].
  - cbv beta iota. rewrite run_bind, run_set_settings. rewrite (run_flash_off t o _ t) by reflexivity.
    rewrite (run_release t o _ t) by reflexivity. reflexivity.
  - rewrite (run_release t o _ t) by reflexivity. reflexivity.
Qed.

(** ** Parsing the diagnostic stream *)

Lemma py_float_digits s :
  nonempty s = true -> all_digits s = true -> py_float s = Ok (float_of_digits s).
Proof.
  intros Hn Hd. destruct s as [|c s]; [discriminate|].
  unfold py_float. rewrite Hd. reflexivity.
Qed.

Lemma py_truediv_nonzero a s :
  nonzero s = true ->
  py_truediv a (float_of_digits s) = Ok (PrimFloat.div a (float_of_digits s)).
Proof.
  unfold nonzero, py_truediv. intros H. apply negb_true_iff in H. rewrite H. reflexivity.
Qed.

Lemma getitem_last_cases {M : Type} (l : list M) :
  (l = [] /\ getitem_last l = Err IndexError) \/ (exists m, getitem_last l = Ok m).
Proof.
  unfold getitem_last. destruct (last l) as [m|] eqn:H; [right; eauto|].
  left. apply last_None in H. auto.
Qed.

Lemma parse_settings_missing text :
  re_finditer EXPOSURE_PATTERN text = [] \/ re_finditer AWB_PATTERN text = [] ->
  parse_settings text = Err IndexError.
Proof.
  intros H. unfold parse_settings, find_last_match, py_list. unfold_monad. simpl iter_items.
  cbv [iter_truthy result_bind].
  destruct (getitem_last_cases (re_finditer EXPOSURE_PATTERN text)) as [[_ E1]|[m1 E1]];
    rewrite E1; [reflexivity|].
  destruct (getitem_last_cases (re_finditer AWB_PATTERN text)) as [[_ E2]|[m2 E2]];
    rewrite E2; [reflexivity|].
  destruct H as [H|H]; rewrite H in *; discriminate.
Qed.

Lemma finditer_last_digits p text earlier m :
  re_finditer p text = earlier ++ [m] ->
  Forall (fun kv => all_digits kv.2 = true) (m_groups m).
Proof.
  intros H. apply (finditer_groups p text m).
  rewrite H. apply in_or_app. right. left. reflexivity.
Qed.

Lemma parse_settings_last text earlier1 m1 earlier2 m2 exposure an ad dn dd rn rd bn bd :
  re_finditer EXPOSURE_PATTERN text = earlier1 ++ [m1] ->
  re_finditer AWB_PATTERN text = earlier2 ++ [m2] ->
  m_groups m1 = [("exposure", exposure); ("analog_gain_n", an); ("analog_gain_d", ad);
                 ("digital_gain_n", dn); ("digital_gain_d", dd)] ->
  m_groups m2 = [("awb_r_n", rn); ("awb_r_d", rd); ("awb_b_n", bn); ("awb_b_d", bd)] ->
  forallb nonempty [exposure; an; ad; dn; dd; rn; rd; bn; bd] = true ->
  forallb nonzero [ad; dd; rd; bd] = true ->
  parse_settings text = Ok (settings_of_groups exposure an ad dn dd rn rd bn bd).
Proof.
  intros H1 H2 G1 G2 Hne Hnz.
  pose proof (finditer_last_digits _ _ _ _ H1) as D1. rewrite G1 in D1.
  pose proof (finditer_last_digits _ _ _ _ H2) as D2. rewrite G2 in D2.
  repeat match goal with H : Forall _ (_ :: _) |- _ => inversion H; clear H; subst end.
  cbn [snd] in *.
  cbn [forallb] in Hne, Hnz.
  repeat match goal with
         | H : _ && _ = true |- _ => apply andb_true_iff in H as [? H]
         end.
  unfold parse_settings.
  rewrite (find_last_match_snoc re_finditer _ _ _ _ H1).
  rewrite (find_last_match_snoc re_finditer _ _ _ _ H2).
  unfold_monad. cbv [result_bind ratio float_group group mbind result_mbind].
  rewrite G1, G2. cbn [assoc_lookup String.eqb Ascii.eqb Bool.eqb].
  repeat (rewrite py_float_digits by assumption).
  repeat (rewrite py_truediv_nonzero by assumption).
  reflexivity.
Qed.

(** ** Failed and successful calibrations *)

(** C2: when the diagnostic stream lacks the exposure line or the white
    balance line, the calibration of the external-tool backend raises (the
    [IndexError] of [find_last_match] is the parse error of the spec), so
    does [update_settings], and the cached settings are what they were. *)
Theorem missing_pattern_keeps_settings (t : tid) (o : oracle) (w : world)
    (resolution : Z * Z) (rc6 rc7 rcp : Z) (stderr : string) :
  w_settings_lock w = None ->
  w_pixel_lock w = None ->
  w_resolution w = Some resolution ->
  o (SubprocessShell "chvt 6") = Ok rc6 ->
  o (SubprocessShell "chvt 7") = Ok rc7 ->
  o (SubprocessRun (probe_argv resolution)) = Ok stderr ->
  o (SubprocessShell "tvservice -p") = Ok rcp ->
  re_finditer EXPOSURE_PATTERN (py_str_bytes stderr) = []
  \/ re_finditer AWB_PATTERN (py_str_bytes stderr) = [] ->
  (run t o (update_capture_settings RaspiStillCamera) w).1 = Raised IndexError
  /\ (run t o (update_settings RaspiStillCamera) w).1 = Raised IndexError
  /\ w_settings (run t o (update_settings RaspiStillCamera) w).2 = w_settings w.
Proof.
  intros Hs Hp Hres H6 H7 Hrun Htv Hmiss.
  apply parse_settings_missing in Hmiss.
  split.
  - cbn [update_capture_settings].
    rewrite (run_probe t o w resolution rc6 rc7 rcp stderr) by assumption.
    rewrite Hmiss. reflexivity.
  - rewrite run_update_settings by assumption. cbn [update_capture_settings].
    rewrite (run_probe t o _ resolution rc6 rc7 rcp stderr) by assumption.
    rewrite Hmiss. split; reflexivity.
Qed.

Lemma missing_pattern_keeps_settings_witness :
  let o := working_environment "mmal: AWB R=337/256, B=3/2" in
  (run MainThread o (update_capture_settings RaspiStillCamera) ready_world).1 = Raised IndexError
  /\ (run MainThread o (update_settings RaspiStillCamera) ready_world).1 = Raised IndexError
  /\ w_settings (run MainThread o (update_settings RaspiStillCamera) ready_world).2
     = w_settings ready_world.
Proof.
  intros o.
  apply (missing_pattern_keeps_settings MainThread o ready_world script_resolution 0 0 0
           "mmal: AWB R=337/256, B=3/2");
    try reflexivity.
  left. vm_compute. reflexivity.
Defined.




(** ** Traces of the operations *)

Lemma w_trace_in_operation t countdown w :
  w_trace (in_operation t countdown w)
  = w_trace w ++ by_thread t (LockAcquire SettingsLock :: flash_on_cmds countdown).
Proof.
  unfold in_operation, flashed, entered, log, extend_trace. cbn [w_trace set_lock set_shown
    set_buffer set_brightness]. rewrite <- app_assoc. reflexivity.
Qed.

Lemma w_trace_operation_done t w :
  w_trace (operation_done t w)
  = w_trace w ++ by_thread t (flash_off_cmds ++ [LockRelease SettingsLock]).
Proof.
  unfold operation_done, operation_left, unflashed, log, extend_trace.
  cbn [w_trace set_lock set_shown set_buffer set_brightness].
  rewrite <- app_assoc. reflexivity.
Qed.

(** ** C1: what happens to the indicator when the backend raises *)




(** ** C7: the indicator protocol *)

Lemma flash_on_cmds_countdown :
  flash_on_cmds true =
  [LockAcquire PixelLock; SetBrightness FLASH_BRIGHTNESS;
   Fill red; Show; Sleep (1 # 2); Fill black; Show; Sleep 1;
   Fill red; Show; Sleep (1 # 2); Fill black; Show; Sleep 1;
   Fill red; Show; Sleep (1 # 2); Fill black; Show; Sleep 1;
   Fill white; Show].
Proof. reflexivity. Qed.

(** C7: [flash_on] does not go on while the indicator lock is held; with the
    lock free it takes it, sets the flash brightness, with the countdown
    blinks red for half a second and dark for one second three times (four
    and a half seconds of sleep), and fills the ring white; [flash_off] sets
    the idle brightness, clears the ring to black and frees the lock;
    [take_photo] starts with the countdown, [update_settings] without it. *)
Theorem indicator_protocol (py_str_float : float -> string) (t h : tid) (o : oracle)
    (b : backend) (path : string) (countdown : bool) (w held : world) :
  w_settings_lock w = None ->
  w_pixel_lock w = None ->
  w_pixel_lock held = Some h ->
  run t o (flash_on countdown) held = (Blocked, held)
  /\ (run t o (flash_on countdown) w).1 = Returned tt
  /\ (let w' := (run t o (flash_on countdown) w).2 in
      w_pixel_lock w' = Some t /\ w_brightness w' = FLASH_BRIGHTNESS
      /\ w_shown w' = (FLASH_BRIGHTNESS, white)
      /\ w_trace w' = w_trace w ++ by_thread t (flash_on_cmds countdown))
  /\ flash_on_cmds true =
       [LockAcquire PixelLock; SetBrightness FLASH_BRIGHTNESS]
       ++ (blink_cmds ++ blink_cmds ++ blink_cmds) ++ [Fill white; Show]
  /\ blink_cmds = [Fill red; Show; Sleep (1 # 2); Fill black; Show; Sleep 1]
  /\ slept (by_thread t (flash_on_cmds true)) == 9 # 2
  /\ slept (by_thread t (flash_on_cmds false)) == 0
  /\ (run t o flash_off held).1 = Returned tt
  /\ (let w' := (run t o flash_off held).2 in
      w_pixel_lock w' = None /\ w_brightness w' = IDLE_BRIGHTNESS
      /\ w_buffer w' = black /\ w_shown w' = (IDLE_BRIGHTNESS, black)
      /\ w_trace w' = w_trace held ++ by_thread t flash_off_cmds)
  /\ (exists rest,
        w_trace (run t o (take_photo py_str_float b path) w).2
        = w_trace w ++ by_thread t (LockAcquire SettingsLock :: flash_on_cmds true) ++ rest)
  /\ (exists rest,
        w_trace (run t o (update_settings b) w).2
        = w_trace w
          ++ by_thread t (Print [VStr "Updating settings..."] :: LockAcquire SettingsLock
                          :: flash_on_cmds false) ++ rest).
Proof.
  intros Hs Hp Hh.
  split; [apply (run_flash_on_held t o countdown held h Hh)|].
  rewrite (run_flash_on t o countdown w Hp).
  rewrite (run_flash_off t o held h Hh).
  split; [reflexivity|]. split; [repeat split; reflexivity|].
  split; [reflexivity|]. split; [reflexivity|].
  split; [reflexivity|]. split; [reflexivity|].
  split; [reflexivity|]. split; [repeat split; reflexivity|].
  split.
  - rewrite run_take_photo by assumption.
    destruct (quiet_run t o (capture_image py_str_float b path) (in_operation t true w)
                (quiet_capture_image py_str_float b path)) as (oc & tr & Hrun & Hoc).
    rewrite Hrun. destruct oc as [[]|e|]; [| |congruence]; cbn [snd].
    + rewrite w_trace_operation_done. cbn [w_trace extend_trace].
      rewrite w_trace_in_operation, <- !app_assoc. eexists. reflexivity.
    + unfold operation_left, log. cbn [w_trace extend_trace set_lock].
      rewrite w_trace_in_operation, <- !app_assoc. eexists. reflexivity.
  - rewrite run_update_settings by assumption.
    set (w0 := log t (Print [VStr "Updating settings..."]) w).
    assert (Hw0 : w_trace (in_operation t false w0)
                  = w_trace w ++ by_thread t (Print [VStr "Updating settings..."]
                                              :: LockAcquire SettingsLock
                                              :: flash_on_cmds false)).
    { rewrite w_trace_in_operation. subst w0. unfold log. cbn [w_trace extend_trace].
      rewrite <- app_assoc. reflexivity. }
    destruct (quiet_run t o (update_capture_settings b) (in_operation t false w0)
                (quiet_update_capture_settings b)) as (oc & tr & Hrun & Hoc).
    rewrite Hrun. destruct oc as [d|e|]; [| |congruence].
    + rewrite (run_report_and_reschedule t o _ d);
        [|reflexivity
         |eapply returns_run; [apply returns_update_capture_settings | exact Hrun]].
      cbn [snd]. unfold rescheduled.
      cbn [w_trace extend_trace set_timers set_settings_update_timer].
      rewrite w_trace_operation_done. unfold log.
      cbn [w_trace extend_trace set_settings].
      rewrite Hw0, <- !app_assoc. eexists. reflexivity.
    + cbn [snd]. unfold operation_left, log. cbn [w_trace extend_trace set_lock].
      rewrite Hw0, <- !app_assoc. eexists. reflexivity.
Qed.

Lemma indicator_protocol_witness :
  let held := set_lock PixelLock (Some (TimerThread 0)) ready_world in
  let o := working_environment example_stream in
  run MainThread o (flash_on true) held = (Blocked, held)
  /\ (run MainThread o (flash_on true) ready_world).1 = Returned tt.
Proof.
  intros held o.
  destruct (indicator_protocol (fun _ => EmptyString) MainThread (TimerThread 0) o
              RaspiStillCamera "photo.jpg" true ready_world held
              eq_refl eq_refl eq_refl) as (H1 & H2 & _).
  exact (conj H1 H2).
Defined.

(** ** C8: the capture command of the external-tool backend *)

Lemma run_get_resolution {B : Type} t o w r (f : Z * Z -> prog B) :
  w_resolution w = Some r ->
  run t o (bind (call GetResolution) f) w = run t o (f r) (log t GetResolution w).
Proof. intros H. run_steps. rewrite H. reflexivity. Qed.

Lemma run_get_setting {B : Type} t o w d key v (f : pyval -> prog B) :
  w_settings w = Some d ->
  d !! key = Some v ->
  run t o (bind (call GetSettings) (fun s => bind (dict_get s key) f)) w
  = run t o (f v) (log t GetSettings w).
Proof. intros H Hv. run_steps. rewrite H. run_steps. unfold dict_get. rewrite Hv. reflexivity. Qed.

(** C8, as the code has it: with the resolution and the cached calibrated
    settings in place, [capture_image] of the external-tool backend runs
    exactly one command, raspistill with: the output path it was given, no
    thumbnail, the configured width and height, the cached analog gain,
    digital gain, shutter speed and white-balance gains as [str] renders
    them, exposure and white balance off, a timeout of 1, and two more fixed
    flags, no preview and verbose. *)
Theorem capture_command (py_str_float : float -> string) (t : tid) (o : oracle) (w : world)
    (path : string) (width height : Z) (d : gmap string pyval) (ag dg ss : float)
    (gains : list float) :
  w_resolution w = Some (width, height) ->
  w_settings w = Some d ->
  d !! "analog_gain" = Some (VFloat ag) ->
  d !! "digital_gain" = Some (VFloat dg) ->
  d !! "shutter_speed" = Some (VFloat ss) ->
  d !! "awb_gains" = Some (VList gains) ->
  let argv :=
    ["raspistill";
     "--output"; path;
     "--thumb"; "none";
     "--width"; py_str_int width;
     "--height"; py_str_int height;
     "--analoggain"; py_str_float ag;
     "--digitalgain"; py_str_float dg;
     "--exposure"; "off";
     "--shutter"; py_str_float ss;
     "--awb"; "off";
     "--awbgains"; py_join "," (map py_str_float gains);
     "--timeout"; "1";
     "--nopreview";
     "--verbose"] in
  run t o (capture_image py_str_float RaspiStillCamera path) w
  = (match o (SubprocessCall argv) with Ok _ => Returned tt | Err e => Raised e end,
     extend_trace
       (by_thread t [GetResolution; GetResolution; GetSettings; GetSettings; GetSettings;
                     GetSettings; SubprocessCall argv]) w).
Proof.
  intros Hres Hset Hag Hdg Hss Hawb argv.
  cbn [capture_image]. unfold raspistill_capture_image. unfold_monad.
  rewrite (run_get_resolution t o _ (width, height)) by exact Hres.
  rewrite (run_get_resolution t o _ (width, height)) by exact Hres.
  rewrite (run_get_setting t o _ d _ (VFloat ag)) by assumption.
  rewrite (run_get_setting t o _ d _ (VFloat dg)) by assumption.
  rewrite (run_get_setting t o _ d _ (VFloat ss)) by assumption.
  rewrite (run_get_setting t o _ d _ (VList gains)) by assumption.
  cbn [str_each py_str fst snd]. run_steps. fold argv. clearbody argv.
  destruct (o (SubprocessCall argv)) as [rc|e]; run_steps;
    unfold log; rewrite !extend_trace_app; reflexivity.
Qed.

Lemma capture_command_witness :
  (run MainThread (working_environment example_stream)
     (capture_image (fun _ => EmptyString) RaspiStillCamera "photo.jpg") ready_world).1
  = Returned tt.
Proof.
  rewrite (capture_command (fun _ => EmptyString) MainThread (working_environment example_stream)
             ready_world "photo.jpg" 951 1268
             (settings_of_groups "1500" "120" "60" "20" "10" "337" "256" "3" "2")
             2%float 2%float 1500%float [1.31640625%float; 1.5%float])
    by (vm_compute; reflexivity).
  reflexivity.
Defined.

(** The command of a capture with the settings of the example stream: its
    last two arguments are the flags for no preview and verbose output. *)
Lemma capture_command_has_more_flags :
  let r := run MainThread (working_environment example_stream)
             (capture_image (fun _ => "2.0") RaspiStillCamera "photo.jpg") ready_world in
  exists argv,
    last (w_trace r.2) = Some (MainThread, SubprocessCall argv)
    /\ argv = ["raspistill"; "--output"; "photo.jpg"; "--thumb"; "none";
               "--width"; "951"; "--height"; "1268";
               "--analoggain"; "2.0"; "--digitalgain"; "2.0"; "--exposure"; "off";
               "--shutter"; "2.0"; "--awb"; "off"; "--awbgains"; "2.0,2.0";
               "--timeout"; "1"; "--nopreview"; "--verbose"]
    /\ In "--nopreview" argv /\ In "--verbose" argv.
Proof.
  intros r. eexists. split; [vm_compute; reflexivity|].
  split; [reflexivity|]. split; vm_compute; tauto.
Qed.

(** ** C9: the calibration of the library backend *)

(** C9: the library backend opens a camera session at the configured
    resolution, sleeps 2 seconds, reads the exposure speed and the white
    balance gains and closes the session; the settings it returns hold the
    exposure speed read as the shutter speed, the gains read (as floats) as
    the white-balance gains, and [None] for both gains. *)
Theorem library_calibration (t : tid) (o : oracle) (w : world) (resolution : Z * Z)
    (exposure_speed : Z) (awb_gains : list Q) :
  w_resolution w = Some resolution ->
  o (PiCameraOpen resolution) = Ok tt ->
  o PiCameraExposureSpeed = Ok exposure_speed ->
  o PiCameraAwbGains = Ok awb_gains ->
  o PiCameraClose = Ok tt ->
  let d : gmap string pyval :=
    <["awb_gains" := VList (map float_of_fraction awb_gains)]>
      (<["shutter_speed" := VInt exposure_speed]>
         (<["digital_gain" := VNone]> (<["analog_gain" := VNone]> ∅))) in
  run t o (update_capture_settings PyCamera) w
  = (Returned d,
     extend_trace
       (by_thread t [GetResolution; PiCameraOpen resolution; Sleep 2; PiCameraExposureSpeed;
                     PiCameraAwbGains; PiCameraClose]) w)
  /\ d !! "analog_gain" = Some VNone
  /\ d !! "digital_gain" = Some VNone
  /\ d !! "shutter_speed" = Some (VInt exposure_speed)
  /\ d !! "awb_gains" = Some (VList (map float_of_fraction awb_gains)).
Proof.
  intros Hres Hopen Hes Hawb Hclose d. split.
  - cbn [update_capture_settings].
    unfold pycamera_update_capture_settings, with_picamera. unfold_monad.
    run_steps. rewrite Hres. run_steps. rewrite Hopen. run_steps.
    rewrite Hes. run_steps. rewrite Hawb. run_steps. rewrite Hclose. run_steps.
    unfold log. rewrite !extend_trace_app. reflexivity.
  - subst d. repeat split; simplify_map_eq; reflexivity.
Qed.

Lemma library_calibration_witness :
  (run MainThread (working_environment example_stream) (update_capture_settings PyCamera)
     ready_world).1
  = Returned (<["awb_gains" := VList [1.31640625%float; 1.5%float]]>
                (<["shutter_speed" := VInt 33000]>
                   (<["digital_gain" := VNone]> (<["analog_gain" := VNone]> ∅)))).
Proof.
  destruct (library_calibration MainThread (working_environment example_stream) ready_world
              script_resolution 33000 [337 # 256; 3 # 2]%Q
              eq_refl eq_refl eq_refl eq_refl eq_refl) as [H _].
  rewrite H. vm_compute. reflexivity.
Defined.

(** ** The lock discipline of the code *)

Lemma guarded_cmd_impl held c (P Q : bool -> result (resp c) -> Prop) :
  (forall h r, P h r -> Q h r) -> guarded_cmd held c P -> guarded_cmd held c Q.
Proof.
  intros HPQ. destruct c; try (destruct l); simpl; intros [H1 H2]; split; auto.
Qed.

Lemma guarded_bind {A B : Type} (p : prog A) (f : A -> prog B) held mid ret exc :
  guarded held mid exc p -> (forall a, guarded mid ret exc (f a)) ->
  guarded held ret exc (bind p f).
Proof.
  intros Hp Hf. revert held Hp. induction p as [a|e|c k IH]; intros held Hp; simpl in *.
  - subst. apply Hf.
  - exact Hp.
  - eapply guarded_cmd_impl; [|exact Hp]. intros h r. apply IH.
Qed.

Lemma guarded_finally {A : Type} (p : prog A) (f : prog unit) held mid final :
  guarded held mid mid p -> guarded mid final final f ->
  guarded held final final (finally p f).
Proof.
  intros Hp Hf. revert held Hp. induction p as [a|e|c k IH]; intros held Hp; simpl in *.
  - subst. eapply guarded_bind; [exact Hf|]. intros _. reflexivity.
  - subst. eapply guarded_bind; [exact Hf|]. intros _. reflexivity.
  - eapply guarded_cmd_impl; [|exact Hp]. intros h r. apply IH.
Qed.

Lemma guarded_plain {A : Type} (p : prog A) h : plain p -> guarded h h h p.
Proof.
  induction p as [a|e|c k IH]; simpl; auto.
  intros [Hc Hk].
  destruct c; try (destruct l); simpl in *; try discriminate; split; auto; discriminate.
Qed.

Lemma guarded_quiet {A : Type} (p : prog A) : quiet p -> guarded true true true p.
Proof.
  induction p as [a|e|c k IH]; simpl; auto.
  intros [Hc Hk].
  destruct c; simpl in *; try discriminate; split; auto.
Qed.

Lemma plain_bind {A B : Type} (p : prog A) (f : A -> prog B) :
  plain p -> (forall a, plain (f a)) -> plain (bind p f).
Proof.
  intros Hp Hf. induction p as [a|e|c k IH]; simpl in *; auto.
  destruct Hp as [Hc Hk]. split; auto.
Qed.

Lemma plain_lift {A : Type} (r : result A) : plain (lift r).
Proof. destruct r; exact I. Qed.

Lemma plain_call c : plain_cmd c = true -> plain (call c).
Proof. intros H. split; [exact H | intros r; apply plain_lift]. Qed.

Lemma plain_dict_get d key : plain (dict_get d key).
Proof. unfold dict_get. destruct (d !! key); exact I. Qed.

Lemma plain_for_range n body : plain body -> plain (for_range n body).
Proof.
  intros Hb. induction n as [|n IH]; simpl; [exact I|].
  unfold_monad. apply plain_bind; auto.
Qed.

Ltac plain_tac :=
  unfold_monad;
  repeat first
    [ apply plain_bind; [|intros ?]
    | apply plain_call; reflexivity
    | apply plain_lift
    | apply plain_dict_get
    | apply plain_for_range
    | exact I ].

Lemma plain_flash_on countdown : plain (flash_on countdown).
Proof. unfold flash_on, blink. destruct countdown; plain_tac. Qed.

Lemma plain_flash_off : plain flash_off.
Proof. unfold flash_off. plain_tac. Qed.

Lemma plain_report_and_reschedule : plain report_and_reschedule.
Proof. unfold report_and_reschedule, print_setting. plain_tac. Qed.

Lemma plain_destroy : plain destroy.
Proof. unfold destroy. plain_tac. Qed.

Lemma guarded_with_lock {A : Type} (body : prog A) :
  guarded true true true body -> guarded false false false (with_lock SettingsLock body).
Proof.
  intros Hb. unfold with_lock. unfold_monad.
  apply (guarded_bind _ _ false true false false).
  - simpl. split; reflexivity.
  - intros _. apply (guarded_finally _ _ true true false); [exact Hb|].
    simpl. split; reflexivity.
Qed.

Lemma guarded_take_photo sf b path : guarded false false false (take_photo sf b path).
Proof.
  unfold take_photo. apply guarded_with_lock. unfold_monad.
  apply (guarded_bind _ _ true true true true); [apply guarded_plain, plain_flash_on|].
  intros _. apply (guarded_bind _ _ true true true true);
    [apply guarded_quiet, quiet_capture_image|].
  intros _. apply guarded_plain, plain_flash_off.
Qed.

Lemma guarded_update_settings b : guarded false false false (update_settings b).
Proof.
  change (update_settings b) with
    (bind (call (Print [VStr "Updating settings..."]))
       (fun _ => bind (with_lock SettingsLock
                         (bind (flash_on false)
                            (fun _ => bind (update_capture_settings b)
                                        (fun settings => bind (call (SetSettings settings))
                                                           (fun _ => flash_off)))))
                   (fun _ => report_and_reschedule))).
  apply (guarded_bind _ _ false false false false);
    [apply guarded_plain, plain_call; reflexivity|].
  intros _. apply (guarded_bind _ _ false false false false);
    [|intros _; apply guarded_plain, plain_report_and_reschedule].
  apply guarded_with_lock.
  apply (guarded_bind _ _ true true true true); [apply guarded_plain, plain_flash_on|].
  intros _. apply (guarded_bind _ _ true true true true);
    [apply guarded_quiet, quiet_update_capture_settings|].
  intros settings. apply guarded_plain. plain_tac.
Qed.

Lemma guarded_init b resolution : guarded false false false (init b resolution).
Proof.
  unfold init. unfold_monad.
  apply (guarded_bind _ _ false false false false);
    [apply guarded_plain, plain_call; reflexivity|].
  intros _. apply guarded_update_settings.
Qed.

(** ** One command of a thread that follows the discipline *)

Lemma handle_trace t o c w r w' :
  handle t o c w = Some (r, w') -> w_trace w' = w_trace w ++ [(t, c)].
Proof.
  destruct c; try (destruct l); simpl; unfold external; intros H;
    repeat case_match; simplify_eq; reflexivity.
Qed.

Lemma handle_settings t o c w r w' :
  handle t o c w = Some (r, w') ->
  w_settings w' = match c with SetSettings d => Some d | _ => w_settings w end.
Proof.
  destruct c; try (destruct l); simpl; unfold external; intros H;
    repeat case_match; simplify_eq; reflexivity.
Qed.

Lemma handle_timers_length t o c w r w' :
  handle t o c w = Some (r, w') -> (length (w_timers w) <= length (w_timers w'))%nat.
Proof.
  destruct c; try (destruct l); simpl; unfold external; intros H;
    repeat case_match; simplify_eq; cbn [w_timers set_timers log extend_trace set_lock
      set_brightness set_buffer set_shown set_resolution set_settings
      set_settings_update_timer];
    rewrite ?length_app, ?length_insert; simpl; lia.
Qed.

Lemma holds_true w t : holds w t = true <-> w_settings_lock w = Some t.
Proof. unfold holds. apply bool_decide_eq_true. Qed.

Lemma handle_guarded (A : Type) t o c (kont : result (resp c) -> prog A) w r w'
    (ret exc : bool) :
  guarded (holds w t) ret exc (Do c kont) ->
  handle t o c w = Some (r, w') ->
  guarded (holds w' t) ret exc (kont r)
  /\ (forall t', t' <> t -> holds w' t' = holds w t')
  /\ (forall t', lock_event t' (holds w t') (t, c) = holds w' t')
  /\ (is_camera_cmd c = true -> holds w t = true)
  /\ (forall h, w_settings_lock w' = Some h -> h = t \/ w_settings_lock w = Some h).
Proof.
  intros Hg Hh.
  destruct c; try (destruct l); simpl in Hg; destruct Hg as [Hg1 Hg2];
    simpl in Hh; unfold external in Hh; repeat case_match; simplify_eq;
    unfold holds, lock_event in *; cbn [w_settings_lock set_lock log extend_trace
      set_brightness set_buffer set_shown set_resolution set_settings
      set_settings_update_timer set_timers fst snd] in *.
  all: try (split; [solve [apply Hg2 | exact Hg2]|];
            split; [reflexivity|];
            split; [intros t'; destruct (decide (t = t')); reflexivity|];
            split; [first [exact Hg1 | discriminate]|];
            intros h Hl; right; exact Hl).
  - (* LockAcquire SettingsLock *)
    split; [rewrite bool_decide_eq_true_2 by reflexivity; exact Hg2|].
    split.
    { intros t' Hne. rewrite !bool_decide_eq_false_2; [reflexivity|congruence|congruence]. }
    split.
    { intros t'. destruct (decide (t = t')) as [->|Hne].
      - rewrite bool_decide_eq_true_2 by reflexivity. reflexivity.
      - rewrite !bool_decide_eq_false_2; [reflexivity|congruence|congruence]. }
    split; [discriminate|]. intros h Hl. left. congruence.
  - (* LockRelease SettingsLock, the lock held *)
    apply bool_decide_eq_true in Hg1.
    split; [rewrite bool_decide_eq_false_2 by discriminate; exact Hg2|].
    split.
    { intros t' Hne. rewrite !bool_decide_eq_false_2; [reflexivity|congruence|congruence]. }
    split.
    { intros t'. destruct (decide (t = t')) as [->|Hne].
      - rewrite bool_decide_eq_false_2 by discriminate. reflexivity.
      - rewrite !bool_decide_eq_false_2; [reflexivity|congruence|congruence]. }
    split; [discriminate|]. intros h Hl. discriminate.
  - (* LockRelease SettingsLock, the lock free: excluded by the discipline *)
    apply bool_decide_eq_true in Hg1. congruence.
Qed.

(** ** What the code stores and when it returns *)

Lemma publishes_bind {A B : Type} P (Q : A -> Prop) (p : prog A) (f : A -> prog B) :
  publishes P p -> returns Q p -> (forall a, Q a -> publishes P (f a)) ->
  publishes P (bind p f).
Proof.
  intros Hp Hr Hf. induction p as [a|e|c k IH]; simpl in *; auto.
  destruct Hp as [Hc Hk]. split; auto.
Qed.

Lemma publishes_finally {A : Type} P (p : prog A) (f : prog unit) :
  publishes P p -> publishes P f -> publishes P (finally p f).
Proof.
  intros Hp Hf. induction p as [a|e|c k IH]; simpl in *.
  - apply (publishes_bind P (fun _ => True)); [exact Hf|apply returns_true|].
    intros; exact I.
  - apply (publishes_bind P (fun _ => True)); [exact Hf|apply returns_true|].
    intros; exact I.
  - destruct Hp as [Hc Hk]. split; auto.
Qed.

Lemma publishes_quiet {A : Type} P (p : prog A) : quiet p -> publishes P p.
Proof.
  induction p as [a|e|c k IH]; simpl; auto.
  intros [Hc Hk]. split; [|auto]. destruct c; try exact I. discriminate.
Qed.

Lemma publishes_lift {A : Type} P (r : result A) : publishes P (lift r).
Proof. destruct r; exact I. Qed.

Lemma publishes_call P c :
  match c with SetSettings d => P d | _ => True end -> publishes P (call c).
Proof. intros H. split; [exact H | intros r; apply publishes_lift]. Qed.

Lemma publishes_dict_get P d key : publishes P (dict_get d key).
Proof. unfold dict_get. destruct (d !! key); exact I. Qed.

Lemma publishes_for_range P n body : publishes P body -> publishes P (for_range n body).
Proof.
  intros Hb. induction n as [|n IH]; simpl; [exact I|].
  unfold_monad. apply (publishes_bind P (fun _ => True)); auto using returns_true.
Qed.

Ltac publishes_tac :=
  unfold_monad;
  repeat first
    [ apply (publishes_bind _ (fun _ => True)); [|apply returns_true|intros ? _]
    | apply publishes_call; exact I
    | apply publishes_lift
    | apply publishes_dict_get
    | apply publishes_for_range
    | exact I ].

Lemma publishes_flash_on P countdown : publishes P (flash_on countdown).
Proof. unfold flash_on, blink. destruct countdown; publishes_tac. Qed.

Lemma publishes_flash_off P : publishes P flash_off.
Proof. unfold flash_off. publishes_tac. Qed.

Lemma publishes_report_and_reschedule P : publishes P report_and_reschedule.
Proof. unfold report_and_reschedule, print_setting. publishes_tac. Qed.

Lemma publishes_destroy P : publishes P destroy.
Proof. unfold destroy. publishes_tac. Qed.

Lemma publishes_take_photo sf b path : publishes complete (take_photo sf b path).
Proof.
  unfold take_photo, with_lock. unfold_monad.
  apply (publishes_bind _ (fun _ => True)); [apply publishes_call; exact I|apply returns_true|].
  intros _ _. apply publishes_finally; [|apply publishes_call; exact I].
  apply (publishes_bind _ (fun _ => True)); [apply publishes_flash_on|apply returns_true|].
  intros _ _.
  apply (publishes_bind _ (fun _ => True));
    [apply publishes_quiet, quiet_capture_image|apply returns_true|].
  intros _ _. apply publishes_flash_off.
Qed.

Lemma publishes_update_settings b : publishes complete (update_settings b).
Proof.
  change (update_settings b) with
    (bind (call (Print [VStr "Updating settings..."]))
       (fun _ => bind (with_lock SettingsLock
                         (bind (flash_on false)
                            (fun _ => bind (update_capture_settings b)
                                        (fun settings => bind (call (SetSettings settings))
                                                           (fun _ => flash_off)))))
                   (fun _ => report_and_reschedule))).
  apply (publishes_bind _ (fun _ => True)); [apply publishes_call; exact I|apply returns_true|].
  intros _ _.
  apply (publishes_bind _ (fun _ => True));
    [|apply returns_true|intros _ _; apply publishes_report_and_reschedule].
  unfold with_lock. unfold_monad.
  apply (publishes_bind _ (fun _ => True)); [apply publishes_call; exact I|apply returns_true|].
  intros _ _. apply publishes_finally; [|apply publishes_call; exact I].
  apply (publishes_bind _ (fun _ => True)); [apply publishes_flash_on|apply returns_true|].
  intros _ _.
  apply (publishes_bind _ complete);
    [apply publishes_quiet, quiet_update_capture_settings
    |apply returns_update_capture_settings|].
  intros settings Hc.
  apply (publishes_bind _ (fun _ => True));
    [apply publishes_call; exact Hc|apply returns_true|].
  intros _ _. apply publishes_flash_off.
Qed.

Lemma publishes_init b resolution : publishes complete (init b resolution).
Proof.
  unfold init. unfold_monad.
  apply (publishes_bind _ (fun _ => True)); [apply publishes_call; exact I|apply returns_true|].
  intros _ _. apply publishes_update_settings.
Qed.

Lemma initialises_true {A : Type} (p : prog A) : initialises true p.
Proof. induction p as [a|e|c k IH]; simpl; auto. Qed.

Lemma initialises_mono {A : Type} (p : prog A) cached :
  initialises cached p -> forall cached', initialises (cached || cached') p.
Proof.
  revert cached. induction p as [a|e|c k IH]; simpl; intros cached H cached'; auto.
  - subst. reflexivity.
  - intros r. specialize (IH r _ (H r) cached').
    replace (cached || cached' || caches c) with (cached || caches c || cached')
      by (destruct cached, cached', (caches c); reflexivity).
    exact IH.
Qed.

Lemma initialises_bind_r {A B : Type} (p : prog A) (f : A -> prog B) cached :
  (forall a, initialises false (f a)) -> initialises cached (bind p f).
Proof.
  intros Hf. revert cached. induction p as [a|e|c k IH]; intros cached; simpl; auto.
  destruct cached; [apply initialises_true|apply Hf].
Qed.

Lemma initialises_bind_l {A B : Type} (p : prog A) (f : A -> prog B) cached :
  initialises cached p -> initialises cached (bind p f).
Proof.
  revert cached. induction p as [a|e|c k IH]; intros cached H; simpl in *; auto.
  subst. apply initialises_true.
Qed.

Lemma initialises_finally {A : Type} (p : prog A) (f : prog unit) cached :
  initialises cached p -> initialises cached (finally p f).
Proof.
  revert cached. induction p as [a|e|c k IH]; intros cached H; simpl in *; auto.
  - subst. apply initialises_true.
  - clear H. revert cached. induction f as [u|e'|c k IH]; intros cached; simpl; auto.
Qed.

Lemma initialises_update_settings b : initialises false (update_settings b).
Proof.
  change (update_settings b) with
    (bind (call (Print [VStr "Updating settings..."]))
       (fun _ => bind (with_lock SettingsLock
                         (bind (flash_on false)
                            (fun _ => bind (update_capture_settings b)
                                        (fun settings => bind (call (SetSettings settings))
                                                           (fun _ => flash_off)))))
                   (fun _ => report_and_reschedule))).
  apply initialises_bind_r. intros _. apply initialises_bind_l.
  unfold with_lock. unfold_monad.
  apply initialises_bind_r. intros _. apply initialises_finally.
  apply initialises_bind_r. intros _. apply initialises_bind_r. intros settings.
  simpl. intros r. apply initialises_true.
Qed.

Lemma initialises_init b resolution : initialises false (init b resolution).
Proof.
  unfold init. unfold_monad. apply initialises_bind_r. intros _.
  apply initialises_update_settings.
Qed.

(** ** The invariant of the process *)

Lemma active_snoc t tr e : active t (tr ++ [e]) = lock_event t (active t tr) e.
Proof. unfold active. rewrite fold_left_app. reflexivity. Qed.

Lemma cached_after t o c w r w' :
  handle t o c w = Some (r, w') ->
  bool_decide (is_Some (w_settings w'))
  = bool_decide (is_Some (w_settings w)) || caches c.
Proof.
  intros H. rewrite (handle_settings _ _ _ _ _ _ H).
  destruct c; simpl; rewrite ?orb_false_r; try reflexivity.
  rewrite orb_true_r. reflexivity.
Qed.

Lemma camera_inside_snoc tr t c :
  camera_inside tr -> (is_camera_cmd c = true -> active t tr = true) ->
  camera_inside (tr ++ [(t, c)]).
Proof.
  intros Hin Hc tr1 t0 c0 tr2 Heq Hcam.
  destruct tr2 as [|e tr2 _] using rev_ind.
  - apply app_inj_tail in Heq as [-> Heq]. inversion Heq; subst. auto.
  - rewrite app_comm_cons, app_assoc in Heq.
    apply app_inj_tail in Heq as [Heq _]. eapply Hin; eauto.
Qed.

Lemma invariant_initial b resolution : invariant (initial_pool b resolution).
Proof.
  unfold initial_pool. split; cbn [p_world p_threads p_shutdown].
  - intros t p. unfold set_thread. destruct (decide (MainThread = t)); [|discriminate].
    intros [= <-]. apply guarded_init.
  - discriminate.
  - reflexivity.
  - intros tr1 t c tr2 H. destruct tr1; discriminate.
  - intros t p. unfold set_thread. destruct (decide (MainThread = t)); [|discriminate].
    intros [= <-]. apply publishes_init.
  - discriminate.
  - intros t d [].
  - intros _ p. unfold set_thread. destruct (decide (MainThread = MainThread)); [|congruence].
    intros [= <-]. apply initialises_init.
Qed.

Lemma step_invariant sf b s s' : invariant s -> step sf b s s' -> invariant s'.
Proof.
  intros [Hg Hh Ha Hc Hp Hs Hpub Hm] Hstep.
  destruct Hstep as [t o c k r w w' ths sd Ht Hhandle
                    | path w ths Ht
                    | n tm w ths sd Htm Hpend Ht
                    | e w ths Ht];
    cbn [p_world p_threads p_shutdown] in *.
  - (* a command of thread [t] *)
    pose proof (Hg t _ Ht) as Hgt.
    destruct (handle_guarded _ t o c k w r w' false false Hgt Hhandle)
      as (Hk & Hother & Hev & Hcam & Hhold).
    pose proof (handle_trace _ _ _ _ _ _ Hhandle) as Htr.
    pose proof (Hp t _ Ht) as [Hpc Hpk].
    split; cbn [p_world p_threads p_shutdown].
    + intros t0 p. unfold set_thread. destruct (decide (t = t0)) as [<-|Hne].
      * intros [= <-]. exact Hk.
      * intros Hp0. rewrite Hother by congruence. auto.
    + intros h Hl. unfold set_thread. destruct (decide (t = h)); [eauto|].
      destruct (Hhold h Hl) as [->|Hold]; [congruence|auto].
    + intros t0. rewrite Htr, active_snoc, Ha. apply Hev.
    + rewrite Htr. apply camera_inside_snoc; [exact Hc|].
      intros Hcc. rewrite Ha. auto.
    + intros t0 p. unfold set_thread. destruct (decide (t = t0)) as [<-|Hne]; [|eauto].
      intros [= <-]. apply Hpk.
    + intros d. rewrite (handle_settings _ _ _ _ _ _ Hhandle).
      destruct c; auto. intros [= <-]. exact Hpc.
    + intros t0 d. rewrite Htr. intros Hin. apply in_app_or in Hin as [Hin|[Heq|[]]].
      * eapply Hpub; eauto.
      * inversion Heq; subst. exact Hpc.
    + intros Hsd p. rewrite (cached_after _ _ _ _ _ _ Hhandle).
      unfold set_thread. destruct (decide (t = MainThread)) as [->|Hne].
      * intros [= <-]. apply (Hm Hsd _ Ht).
      * intros Hmain. apply initialises_mono. auto.
  - (* the button *)
    pose proof (Hg _ _ Ht) as Hgt. simpl in Hgt.
    split; cbn [p_world p_threads p_shutdown]; auto.
    + intros t p. unfold set_thread. destruct (decide (MainThread = t)) as [<-|Hne]; [|eauto].
      intros [= <-]. rewrite Hgt. apply guarded_take_photo.
    + intros h Hl. unfold set_thread. destruct (decide (MainThread = h)); eauto.
    + intros t p. unfold set_thread. destruct (decide (MainThread = t)) as [<-|Hne]; [|eauto].
      intros [= <-]. apply publishes_take_photo.
    + intros _ p. unfold set_thread.
      destruct (decide (MainThread = MainThread)); [|congruence].
      intros [= <-]. specialize (Hm eq_refl _ Ht). simpl in Hm. rewrite Hm.
      apply initialises_true.
  - (* a timer fires *)
    split; cbn [p_world p_threads p_shutdown w_settings_lock w_trace w_settings set_timers];
      auto.
    + intros t p. unfold set_thread. destruct (decide (TimerThread n = t)) as [<-|Hne].
      * intros [= <-].
        replace (holds _ (TimerThread n)) with false; [apply guarded_update_settings|].
        symmetry. apply bool_decide_eq_false_2. intros Hl.
        destruct (Hh _ Hl) as [p Hp']. congruence.
      * apply Hg.
    + intros h Hl. unfold set_thread. destruct (decide (TimerThread n = h)); eauto.
    + intros t p. unfold set_thread. destruct (decide (TimerThread n = t)) as [<-|Hne]; [|eauto].
      intros [= <-]. apply publishes_update_settings.
  - (* the main loop is left *)
    split; cbn [p_world p_threads p_shutdown]; auto.
    + pose proof (Hg _ _ Ht) as Hgt. simpl in Hgt.
      intros t p. unfold set_thread. destruct (decide (MainThread = t)) as [<-|Hne]; [|eauto].
      intros [= <-]. rewrite Hgt. apply guarded_plain, plain_destroy.
    + intros h Hl. unfold set_thread. destruct (decide (MainThread = h)); eauto.
    + intros t p. unfold set_thread. destruct (decide (MainThread = t)) as [<-|Hne]; [|eauto].
      intros [= <-]. apply publishes_destroy.
    + discriminate.
Qed.

Lemma reachable_invariant sf b resolution s :
  reachable sf b resolution s -> invariant s.
Proof.
  unfold reachable. revert s.
  apply (rtc_ind_r (fun s => invariant s)); [apply invariant_initial|].
  intros y z _ Hstep IH. eapply step_invariant; eauto.
Qed.

(** ** C4: one camera operation at a time *)

Lemma waiting_blocked sf b s l t k h :
  p_threads s t = Some (Do (LockAcquire l) k) ->
  lock_of l (p_world s) = Some h ->
  blocked sf b s t.
Proof.
  intros Ht Hl s' Hstep.
  destruct Hstep as [t0 o c k0 r w w' ths sd Ht0 Hhandle
                    | path w ths Ht0
                    | n tm w ths sd Htm Hpend Ht0
                    | e w ths Ht0];
    cbn [p_world p_threads p_shutdown] in *; unfold set_thread.
  - destruct (decide (t0 = t)) as [->|Hne]; [|reflexivity].
    rewrite Ht in Ht0.
    assert (Hc : LockAcquire l = c).
    { apply (f_equal (fun p => match p with Some (Do c _) => c | _ => LockAcquire l end)) in Ht0.
      exact Ht0. }
    subst c. simpl in Hhandle. rewrite Hl in Hhandle. discriminate.
  - destruct (decide (MainThread = t)) as [<-|Hne]; [congruence|reflexivity].
  - destruct (decide (TimerThread n = t)) as [<-|Hne]; [congruence|reflexivity].
  - destruct (decide (MainThread = t)) as [<-|Hne]; [congruence|reflexivity].
Qed.

(** C4: in every state the process can reach, at most one thread is inside
    [with self.settings_lock] (its last event on the lock is an
    acquisition), and every camera command ever performed was performed by
    the thread that was inside; a thread that wants a lock that is held does
    not move, whatever else happens; and when the lock is free a waiting
    thread can take it, after which every other thread waiting for it does
    not move. *)
Theorem one_operation_at_a_time (py_str_float : float -> string) (b : backend)
    (resolution : Z * Z) (s : pool) :
  reachable py_str_float b resolution s ->
  (forall t1 t2,
      active t1 (w_trace (p_world s)) = true ->
      active t2 (w_trace (p_world s)) = true -> t1 = t2)
  /\ (forall tr1 t c tr2,
         w_trace (p_world s) = tr1 ++ (t, c) :: tr2 ->
         is_camera_cmd c = true -> active t tr1 = true)
  /\ (forall l t k h,
         p_threads s t = Some (Do (LockAcquire l) k) ->
         lock_of l (p_world s) = Some h ->
         blocked py_str_float b s t)
  /\ (forall l t k,
         p_threads s t = Some (Do (LockAcquire l) k) ->
         lock_of l (p_world s) = None ->
         exists s',
           step py_str_float b s s'
           /\ p_threads s' t = Some (k (Ok tt))
           /\ lock_of l (p_world s') = Some t
           /\ forall t' k',
                t' <> t ->
                p_threads s' t' = Some (Do (LockAcquire l) k') ->
                blocked py_str_float b s' t').
Proof.
  intros Hreach. pose proof (reachable_invariant _ _ _ _ Hreach) as Hinv.
  split; [|split; [|split]].
  - intros t1 t2 H1 H2. rewrite (inv_active _ Hinv) in H1, H2.
    apply holds_true in H1, H2. congruence.
  - apply (inv_camera _ Hinv).
  - intros l t k h. apply waiting_blocked.
  - intros l t k Ht Hl. destruct s as [w ths sd]. cbn [p_world p_threads] in *.
    exists (MkPool (log t (LockAcquire l) (set_lock l (Some t) w))
              (set_thread t (Some (k (Ok tt))) ths) sd).
    split.
    { apply (step_cmd _ _ t (environment (Ok 0) (Ok EmptyString) (Ok 0) (Ok tt) (Ok 0) (Ok []))
               (LockAcquire l) k (Ok tt)); [exact Ht|].
      simpl. rewrite Hl. reflexivity. }
    cbn [p_world p_threads]. split.
    { unfold set_thread. destruct (decide (t = t)); [reflexivity|congruence]. }
    split; [destruct l; reflexivity|].
    intros t' k' Hne Ht'. eapply waiting_blocked; [exact Ht'|].
    cbn [p_world]. destruct l; reflexivity.
Qed.

Lemma advance_steps sf b t o n s : rtc (step sf b) s (advance t o n s).
Proof.
  revert s. induction n as [|n IH]; intros s; simpl; [apply rtc_refl|].
  destruct (p_threads s t) as [[a|e|c k]|] eqn:Ht; try apply rtc_refl.
  destruct (handle t o c (p_world s)) as [[r w']|] eqn:Hh; [|apply rtc_refl].
  eapply rtc_l; [|apply IH].
  destruct s as [w ths sd]. cbn [p_world p_threads p_shutdown] in *.
  eapply step_cmd; eauto.
Qed.

Lemma advance_reachable sf b resolution t o n s :
  reachable sf b resolution s -> reachable sf b resolution (advance t o n s).
Proof. unfold reachable. intros H. eapply rtc_trans; [exact H|apply advance_steps]. Qed.

Lemma one_operation_at_a_time_witness :
  let s := advance MainThread (working_environment example_stream) 2
             (initial_pool RaspiStillCamera script_resolution) in
  exists s',
    step (fun _ => EmptyString) RaspiStillCamera s s'
    /\ lock_of SettingsLock (p_world s') = Some MainThread.
Proof.
  intros s.
  destruct (one_operation_at_a_time (fun _ => EmptyString) RaspiStillCamera script_resolution s
              (advance_reachable _ _ _ _ _ _ _ (rtc_refl _ _))) as (_ & _ & _ & H).
  destruct (H SettingsLock MainThread _ eq_refl eq_refl) as (s' & Hstep & _ & Hlock & _).
  exists s'. split; assumption.
Defined.

(** ** C5: the cached settings are never partial *)

(** C5: in every state the process can reach, the cached settings, if any,
    have all four fields, every settings value ever stored had them, and the
    main loop between two photos has settings cached; a run of
    [update_settings] whose calibration returned ends with exactly the
    returned value in the cache, and one whose calibration raised leaves the
    cache as it was; a run of [take_photo] leaves the cache as
    it was, and its capture runs against that cache. *)
Theorem settings_never_partial (py_str_float : float -> string) (b : backend)
    (resolution : Z * Z) (s : pool) :
  reachable py_str_float b resolution s ->
  (forall d, w_settings (p_world s) = Some d -> complete d)
  /\ (forall t d, In (t, SetSettings d) (w_trace (p_world s)) -> complete d)
  /\ (p_shutdown s = false -> p_threads s MainThread = Some (Ret tt) ->
      exists d, w_settings (p_world s) = Some d /\ complete d)
  /\ (forall t o w,
         w_settings_lock w = None -> w_pixel_lock w = None ->
         match run t o (update_capture_settings b)
                 (in_operation t false (log t (Print [VStr "Updating settings..."]) w)) with
         | (Returned d, _) =>
             complete d
             /\ (run t o (update_settings b) w).1 = Returned tt
             /\ w_settings (run t o (update_settings b) w).2 = Some d
         | (Raised e, _) =>
             (run t o (update_settings b) w).1 = Raised e
             /\ w_settings (run t o (update_settings b) w).2 = w_settings w
         | (Blocked, _) => False
         end)
  /\ (forall t o w path,
         w_settings_lock w = None -> w_pixel_lock w = None ->
         w_settings (run t o (take_photo py_str_float b path) w).2 = w_settings w
         /\ exists out tr,
              run t o (capture_image py_str_float b path) (in_operation t true w)
              = (out, extend_trace tr (in_operation t true w))
              /\ w_settings (extend_trace tr (in_operation t true w)) = w_settings w).
Proof.
  intros Hreach. pose proof (reachable_invariant _ _ _ _ Hreach) as Hinv.
  split; [apply (inv_cached _ Hinv)|].
  split; [apply (inv_published _ Hinv)|].
  split.
  { intros Hsd Hmain. pose proof (inv_main _ Hinv Hsd _ Hmain) as H. simpl in H.
    apply bool_decide_eq_true in H as [d Hd]. exists d. split; [exact Hd|].
    apply (inv_cached _ Hinv _ Hd). }
  split.
  - intros t o w Hs Hp. rewrite run_update_settings by assumption.
    set (w0 := in_operation t false (log t (Print [VStr "Updating settings..."]) w)).
    destruct (quiet_run t o (update_capture_settings b) w0
                (quiet_update_capture_settings b)) as (oc & tr & Hrun & Hoc).
    rewrite Hrun. destruct oc as [d|e|]; [| |congruence].
    + assert (Hd : complete d)
        by (eapply returns_run; [apply returns_update_capture_settings | exact Hrun]).
      rewrite (run_report_and_reschedule t o _ d); [|reflexivity|exact Hd].
      split; [exact Hd|split; reflexivity].
    + split; reflexivity.
  - intros t o w path Hs Hp. rewrite run_take_photo by assumption.
    destruct (quiet_run t o (capture_image py_str_float b path) (in_operation t true w)
                (quiet_capture_image py_str_float b path)) as (oc & tr & Hrun & Hoc).
    rewrite Hrun. split.
    + destruct oc as [[]|e|]; [| |congruence]; reflexivity.
    + exists oc, tr. split; reflexivity.
Qed.

Lemma settings_never_partial_witness :
  let s := advance MainThread (working_environment example_stream) 40
             (initial_pool RaspiStillCamera script_resolution) in
  exists d, w_settings (p_world s) = Some d /\ complete d.
Proof.
  intros s.
  destruct (settings_never_partial (fun _ => EmptyString) RaspiStillCamera script_resolution s
              (advance_reachable _ _ _ _ _ _ _ (rtc_refl _ _))) as (_ & _ & H & _).
  apply H; vm_compute; reflexivity.
Defined.

(** ** C6: the recalibration timer *)




Lemma run_destroy t o w h tm :
  w_settings_update_timer w = Some h ->
  w_timers w !! h = Some tm ->
  run t o destroy w
  = (Returned tt,
     extend_trace (by_thread t [GetTimer; TimerCancel h])
       (set_timers (<[h := cancel_timer tm]> (w_timers w)) w)).
Proof.
  intros Hh Htm. unfold destroy. unfold_monad.
  run_steps. rewrite Hh. run_steps. cbn [w_timers log extend_trace]. rewrite Htm.
  run_steps. destruct w. unfold log, extend_trace, set_timers, by_thread.
  cbn [w_settings_lock w_pixel_lock w_brightness w_buffer w_shown w_resolution w_settings
       w_settings_update_timer w_timers w_trace map].
  rewrite <- app_assoc. reflexivity.
Qed.



(** * Further properties of [cam.py] *)

(** ** The idle animation *)

Lemma wheel_channels order pos :
  exists r g b,
    wheel order pos
    = (if bool_decide (order = RGB) || bool_decide (order = GRB) then [r; g; b]
       else [r; g; b; 0])
    /\ (0 <= pos <= 255 -> 0 <= r <= 255 /\ 0 <= g <= 255 /\ 0 <= b <= 255 /\ r + g + b = 255)
    /\ (pos < 0 \/ 255 < pos -> r = 0 /\ g = 0 /\ b = 0).
Proof.
  unfold wheel.
  destruct (Z.ltb_spec pos 0); [|destruct (Z.ltb_spec 255 pos)]; cbn [orb];
    [| |destruct (Z.ltb_spec pos 85); [|destruct (Z.ltb_spec pos 170)]];
    eexists _, _, _; (split; [reflexivity|]); split; intros; lia.
Qed.

(** X1: for a position from 0 to 255, [wheel] gives channels red, green and
    blue that are each between 0 and 255 and add up to 255; for any other
    position all three are 0; the colour has three entries for the orders
    [RGB] and [GRB] and a fourth entry 0 for the others. *)
Theorem wheel_colour (order : pixel_order) (pos : Z) :
  exists r g b,
    wheel order pos
    = match order with RGB | GRB => [r; g; b] | RGBW | GRBW => [r; g; b; 0] end
    /\ (0 <= pos <= 255 -> 0 <= r <= 255 /\ 0 <= g <= 255 /\ 0 <= b <= 255 /\ r + g + b = 255)
    /\ (pos < 0 \/ 255 < pos -> r = 0 /\ g = 0 /\ b = 0).
Proof.
  destruct (wheel_channels order pos) as (r & g & b & H & Hin & Hout).
  exists r, g, b. split; [|split; assumption].
  rewrite H. destruct order; reflexivity.
Qed.

(** X2: the wheel is a closed cycle without jumps: position 255 has the
    colour of position 0, and from one position to the next no channel
    changes by more than 3. *)
Theorem wheel_cycle (order : pixel_order) (pos : Z) :
  0 <= pos < 255 ->
  wheel order 255 = wheel order 0
  /\ Forall2 (fun c c' => Z.abs (c' - c) <= 3) (wheel order pos) (wheel order (pos + 1)).
Proof.
  intros Hpos. split; [destruct order; reflexivity|].
  unfold wheel.
  destruct (Z.ltb_spec pos 0); [lia|]. destruct (Z.ltb_spec 255 pos); [lia|].
  destruct (Z.ltb_spec (pos + 1) 0); [lia|]. destruct (Z.ltb_spec 255 (pos + 1)); [lia|].
  cbn [orb].
  destruct (Z.ltb_spec pos 85), (Z.ltb_spec (pos + 1) 85); try lia;
    destruct (Z.ltb_spec pos 170), (Z.ltb_spec (pos + 1) 170); try lia;
    destruct order; cbn [bool_decide decide_rel orb];
    repeat constructor; lia.
Qed.

Lemma wheel_cycle_witness :
  Forall2 (fun c c' => Z.abs (c' - c) <= 3) [252; 3; 0] [255; 0; 0].
Proof.
  exact (proj2 (wheel_cycle GRB 84 ltac:(lia))).
Defined.

Lemma setitem_in_range {A : Type} (pixels : list A) (i : nat) (v : A) :
  (i < length pixels)%nat -> setitem pixels (Z.of_nat i) v = Ok (<[i := v]> pixels).
Proof.
  intros Hi. unfold setitem.
  replace (Z.of_nat i <? 0)%Z with false by (symmetry; apply Z.ltb_ge; lia).
  cbv zeta.
  replace (Z.of_nat i <? 0)%Z with false by (symmetry; apply Z.ltb_ge; lia).
  replace (Z.of_nat (length pixels) <=? Z.of_nat i)%Z with false
    by (symmetry; apply Z.leb_gt; lia).
  cbn [orb]. rewrite Nat2Z.id. reflexivity.
Qed.

Lemma draw_pixels_seq order num_pixels j (a n : nat) (pixels : list (list Z)) :
  num_pixels <> 0 ->
  (a + n <= length pixels)%nat ->
  exists pixels',
    draw_pixels order num_pixels j (map Z.of_nat (seq a n)) pixels = Ok pixels'
    /\ length pixels' = length pixels
    /\ forall i : nat,
         pixels' !! i
         = if bool_decide (a <= i < a + n)%nat
           then Some (wheel order (Z.land ((Z.of_nat i * 256) `div` num_pixels + j) 255))
           else pixels !! i.
Proof.
  intros Hn. revert a pixels. induction n as [|n IH]; intros a pixels Hlen.
  - exists pixels. split; [reflexivity|]. split; [reflexivity|].
    intros i. rewrite bool_decide_eq_false_2 by lia. reflexivity.
  - cbn [seq map draw_pixels]. unfold py_floordiv.
    destruct (Z.eqb_spec num_pixels 0) as [|_]; [contradiction|].
    unfold_monad. cbn [result_bind].
    rewrite setitem_in_range by lia. cbn [result_bind].
    destruct (IH (S a) (<[a := wheel order (Z.land ((Z.of_nat a * 256) `div` num_pixels + j) 255)]>
                          pixels)) as (pixels' & Hrun & Hl & Hget).
    { rewrite length_insert. lia. }
    exists pixels'. split; [exact Hrun|]. rewrite length_insert in Hl. split; [exact Hl|].
    intros i. rewrite Hget.
    destruct (decide (i = a)) as [->|Hne].
    + rewrite bool_decide_eq_false_2 by lia. rewrite bool_decide_eq_true_2 by lia.
      apply list_lookup_insert_eq. lia.
    + rewrite list_lookup_insert_ne by congruence.
      destruct (decide (S a <= i < S a + n)%nat).
      * rewrite !bool_decide_eq_true_2 by lia. reflexivity.
      * rewrite !bool_decide_eq_false_2 by lia. reflexivity.
Qed.

(** X3: on a ring buffer of [num_pixels] entries, a frame of the animation
    raises nothing (no [IndexError], and no [ZeroDivisionError] even for a
    ring of no pixels), keeps the buffer's length, and overwrites every
    pixel: pixel [i] gets the wheel colour of position
    [(i * 256 // num_pixels + j) & 255], which is never the dark colour of an
    out-of-range position. *)
Theorem frame_draws_every_pixel (order : pixel_order) (num_pixels j : Z)
    (pixels : list (list Z)) :
  Z.of_nat (length pixels) = num_pixels ->
  exists pixels',
    draw_frame order num_pixels j pixels = Ok pixels'
    /\ length pixels' = length pixels
    /\ forall i : nat,
         (i < length pixels)%nat ->
         exists r g b,
           pixels' !! i = Some (wheel order (Z.land ((Z.of_nat i * 256) `div` num_pixels + j) 255))
           /\ wheel order (Z.land ((Z.of_nat i * 256) `div` num_pixels + j) 255)
              = match order with RGB | GRB => [r; g; b] | RGBW | GRBW => [r; g; b; 0] end
           /\ r + g + b = 255.
Proof.
  intros Hlen. unfold draw_frame, range.
  destruct (decide (num_pixels = 0)) as [H0|H0].
  - exists pixels. rewrite H0. split; [reflexivity|]. split; [reflexivity|].
    intros i Hi. lia.
  - destruct (draw_pixels_seq order num_pixels j 0 (Z.to_nat num_pixels) pixels H0)
      as (pixels' & Hrun & Hl & Hget); [lia|].
    exists pixels'. split; [exact Hrun|]. split; [exact Hl|].
    intros i Hi.
    destruct (wheel_channels order (Z.land ((Z.of_nat i * 256) `div` num_pixels + j) 255))
      as (r & g & b & Hw & Hin & _).
    exists r, g, b. split; [|split].
    + rewrite Hget. rewrite bool_decide_eq_true_2 by lia. reflexivity.
    + rewrite Hw. destruct order; reflexivity.
    + apply Hin.
      pose proof (Z.land_nonneg ((Z.of_nat i * 256) `div` num_pixels + j) 255) as Hnn.
      assert (Hle : Z.land ((Z.of_nat i * 256) `div` num_pixels + j) 255 <= 255).
      { change 255 with (Z.ones 8). rewrite Z.land_ones by lia.
        pose proof (Z.mod_pos_bound ((Z.of_nat i * 256) `div` num_pixels + j) (2 ^ 8)).
        change (Z.ones 8) with 255. change (2 ^ 8) with 256 in *. lia. }
      lia.
Qed.

Lemma frame_draws_every_pixel_witness :
  exists pixels',
    draw_frame GRB 4 254 (replicate 4 [0; 0; 0]) = Ok pixels'
    /\ length pixels' = 4%nat.
Proof.
  destruct (frame_draws_every_pixel GRB 4 254 (replicate 4 [0; 0; 0]) eq_refl)
    as (pixels' & H1 & H2 & _).
  exists pixels'. split; [exact H1|exact H2].
Defined.

(** ** The animation loop *)

Lemma draw_frame_frame order num_pixels j pixels :
  Z.of_nat (length pixels) = num_pixels ->
  draw_frame order num_pixels j pixels = Ok (frame order num_pixels j).
Proof.
  intros Hlen. unfold draw_frame, frame, range.
  destruct (decide (num_pixels = 0)) as [H0|H0].
  - subst num_pixels. destruct pixels; [reflexivity|discriminate].
  - destruct (draw_pixels_seq order num_pixels j 0 (Z.to_nat num_pixels) pixels H0)
      as (pixels' & Hrun & Hl & Hget); [lia|].
    rewrite Hrun. f_equal. apply list_eq. intros i. rewrite Hget.
    rewrite !list_lookup_fmap.
    destruct (decide (i < Z.to_nat num_pixels)%nat) as [Hi|Hi].
    + rewrite bool_decide_eq_true_2 by lia.
      rewrite lookup_seq_lt by exact Hi. reflexivity.
    + rewrite bool_decide_eq_false_2 by lia.
      rewrite lookup_seq_ge by lia. apply lookup_ge_None. lia.
Qed.

Lemma frame_length order num_pixels j :
  0 <= num_pixels -> Z.of_nat (length (frame order num_pixels j)) = num_pixels.
Proof. intros H. unfold frame, range. rewrite !length_map, length_seq. lia. Qed.

Lemma animation_pass_frames order num_pixels m a n tail pixels shown :
  tail = [] \/ (exists rest, tail = false :: rest) ->
  Z.of_nat (length pixels) = num_pixels ->
  exists pixels',
    Z.of_nat (length pixels') = num_pixels
    /\ animation_pass order num_pixels (map Z.of_nat (seq a m)) (replicate n true ++ tail)
         pixels shown
       = Ok (if (n <? m)%nat then match tail with [] => Waiting | _ => Stopped end
             else Completed (replicate (n - m) true ++ tail),
             pixels',
             shown ++ map (fun k => frame order num_pixels (Z.of_nat k)) (seq a (min n m))).
Proof.
  intros Htail. revert a n pixels shown.
  induction m as [|m IH]; intros a n pixels shown Hlen.
  - exists pixels. split; [exact Hlen|]. cbn [seq map animation_pass].
    rewrite Nat.min_0_r, Nat.sub_0_r. cbn [seq map]. rewrite app_nil_r. reflexivity.
  - cbn [seq map animation_pass]. destruct n as [|n].
    + exists pixels. split; [exact Hlen|]. cbn [replicate app Nat.min seq map].
      rewrite app_nil_r. destruct Htail as [->|[rest ->]]; reflexivity.
    + cbn [replicate app negb]. rewrite (draw_frame_frame _ _ _ _ Hlen).
      unfold_monad. cbn [result_bind].
      destruct (IH (S a) n (frame order num_pixels (Z.of_nat a))
                  (shown ++ [frame order num_pixels (Z.of_nat a)])) as (pixels' & Hl & Hrun).
      { apply frame_length. lia. }
      exists pixels'. split; [exact Hl|]. rewrite Hrun.
      change (S n <? S m)%nat with (n <? m)%nat.
      change (S n - S m)%nat with (n - m)%nat.
      cbn [Nat.min seq map]. rewrite <- app_assoc. reflexivity.
Qed.

Lemma animation_loop_frames order num_pixels fuel n tail pixels shown :
  tail = [] \/ (exists rest, tail = false :: rest) ->
  (n < fuel)%nat ->
  Z.of_nat (length pixels) = num_pixels ->
  exists pixels',
    animation_loop order num_pixels fuel (replicate n true ++ tail) pixels shown
    = Ok (match tail with [] => Waiting | _ => Stopped end, pixels',
          shown ++ map (fun k => frame order num_pixels (Z.of_nat k mod 255)) (seq 0 n)).
Proof.
  intros Htail. revert n pixels shown.
  induction fuel as [|fuel IH]; intros n pixels shown Hn Hlen; [lia|].
  cbn [animation_loop].
  change (range 255) with (map Z.of_nat (seq 0 255)).
  destruct (animation_pass_frames order num_pixels 255 0 n tail pixels shown Htail Hlen)
    as (pixels1 & Hl1 & Hpass).
  rewrite Hpass. unfold_monad. cbn [result_bind].
  destruct (Nat.ltb_spec n 255) as [Hlt|Hge].
  - exists pixels1. rewrite Nat.min_l by lia.
    replace (map (fun k => frame order num_pixels (Z.of_nat k `mod` 255)) (seq 0 n))
      with (map (fun k => frame order num_pixels (Z.of_nat k)) (seq 0 n));
      [destruct Htail as [->|[rest ->]]; reflexivity|].
    apply map_ext_in. intros k Hk. apply in_seq in Hk.
    rewrite Z.mod_small by lia. reflexivity.
  - destruct (IH (n - 255)%nat pixels1
                (shown ++ map (fun k => frame order num_pixels (Z.of_nat k)) (seq 0 (min n 255))))
      as (pixels2 & Hloop); [lia|exact Hl1|].
    exists pixels2. rewrite Hloop. do 2 f_equal. rewrite <- app_assoc. f_equal.
    rewrite Nat.min_r by lia.
    assert (Hseq : seq 0 n = seq 0 255 ++ seq 255 (n - 255)).
    { change 255%nat with (0 + 255)%nat at 2. rewrite <- seq_app. f_equal. lia. }
    rewrite Hseq, map_app. apply (f_equal2 (@app _)).
    + apply map_ext_in. intros k Hk. apply in_seq in Hk.
      rewrite Z.mod_small by lia. reflexivity.
    + assert (Hshift : seq 255 (n - 255) = map (Nat.add 255) (seq 0 (n - 255)))
        by (symmetry; apply (fmap_add_seq 255 0)).
      rewrite Hshift, map_map.
      apply map_ext. intros k.
      replace (Z.of_nat (255 + k)) with (Z.of_nat k + 1 * 255) by lia.
      rewrite Z.mod_add by lia. reflexivity.
Qed.

(** X20: the animation shows whole frames in a fixed order: while
    [self.running] reads true at its checks, the [k]-th frame put on the ring
    is frame [k mod 255], every pixel of it redrawn; at the first check that
    reads false [run] returns without drawing; and while every check reads
    true it does not return. *)
Theorem animation_shows_whole_frames (order : pixel_order) (num_pixels : Z) (n : nat)
    (rest : list bool) (pixels : list (list Z)) :
  Z.of_nat (length pixels) = num_pixels ->
  let frames := map (fun k => frame order num_pixels (Z.of_nat k mod 255)) (seq 0 n) in
  (exists pixels',
      idle_animation_run order num_pixels (replicate n true ++ false :: rest) pixels
      = Ok (Stopped, pixels', frames))
  /\ (exists pixels',
         idle_animation_run order num_pixels (replicate n true) pixels
         = Ok (Waiting, pixels', frames))
  /\ Forall (fun shown =>
               length shown = length pixels
               /\ forall i, (i < length pixels)%nat ->
                    exists r g b,
                      shown !! i
                      = Some (match order with
                              | RGB | GRB => [r; g; b]
                              | RGBW | GRBW => [r; g; b; 0]
                              end)
                      /\ r + g + b = 255) frames.
Proof.
  intros Hlen frames. split; [|split].
  - unfold idle_animation_run.
    destruct (animation_loop_frames order num_pixels
                (S (length (replicate n true ++ false :: rest))) n (false :: rest) pixels [])
      as (pixels' & H); [eauto| |exact Hlen|eauto].
    rewrite length_app, length_replicate. lia.
  - unfold idle_animation_run.
    destruct (animation_loop_frames order num_pixels
                (S (length (replicate n true))) n [] pixels [])
      as (pixels' & H); [auto| |exact Hlen|].
    + rewrite length_replicate. lia.
    + rewrite app_nil_r in H. eauto.
  - subst frames. apply List.Forall_forall. intros shown Hin.
    apply in_map_iff in Hin as (k & <- & _).
    set (j := Z.of_nat k mod 255).
    assert (Hfl : length (frame order num_pixels j) = length pixels).
    { pose proof (frame_length order num_pixels j) as H. lia. }
    split; [exact Hfl|]. intros i Hi.
    destruct (wheel_channels order (Z.land ((Z.of_nat i * 256) `div` num_pixels + j) 255))
      as (r & g & b & Hw & Hin & _).
    exists r, g, b. split.
    + unfold frame, range. rewrite !list_lookup_fmap.
      rewrite lookup_seq_lt by lia. cbn [fmap option_fmap option_map].
      change (0 + i)%nat with i. rewrite Hw. destruct order; reflexivity.
    + apply Hin.
      pose proof (Z.land_nonneg ((Z.of_nat i * 256) `div` num_pixels + j) 255) as Hnn.
      assert (Hle : Z.land ((Z.of_nat i * 256) `div` num_pixels + j) 255 <= 255).
      { change 255 with (Z.ones 8). rewrite Z.land_ones by lia.
        pose proof (Z.mod_pos_bound ((Z.of_nat i * 256) `div` num_pixels + j) (2 ^ 8)).
        change (Z.ones 8) with 255. change (2 ^ 8) with 256 in *. lia. }
      lia.
Qed.

Lemma animation_shows_whole_frames_witness :
  exists pixels',
    idle_animation_run GRB 2 [true; true; false] [[0; 0; 0]; [0; 0; 0]]
    = Ok (Stopped, pixels', [frame GRB 2 0; frame GRB 2 1]).
Proof.
  exact (proj1 (animation_shows_whole_frames GRB 2 2 [] [[0; 0; 0]; [0; 0; 0]] eq_refl)).
Defined.

(** ** The button *)

(** X4: [wait_for_press] returns at the first poll that reads the pin low,
    having slept once for every poll before it, all of which read high; while
    every reading is high it does not return. *)
Theorem wait_for_press_first_low (readings : list bool) :
  (forall sleeps rest,
      wait_for_press readings = Some (sleeps, rest)
      <-> readings = replicate sleeps true ++ false :: rest)
  /\ (wait_for_press readings = None <-> Forall (fun value => value = true) readings).
Proof.
  induction readings as [|value later [IH1 IH2]].
  - split.
    + intros sleeps rest. split; [discriminate|].
      destruct sleeps; discriminate.
    + split; [constructor|reflexivity].
  - split.
    + intros sleeps rest. cbn [wait_for_press]. destruct value.
      * destruct (wait_for_press later) as [[n r]|] eqn:Hw.
        -- split.
           ++ intros H. inversion H; subst. cbn [replicate app]. f_equal.
              apply IH1. reflexivity.
           ++ destruct sleeps as [|m]; [discriminate|]. cbn [replicate app].
              intros H. inversion H as [H']. apply IH1 in H'. congruence.
        -- split; [discriminate|].
           destruct sleeps as [|m]; [discriminate|]. cbn [replicate app].
           intros H. inversion H as [H']. apply IH1 in H'. congruence.
      * split.
        -- intros H. inversion H; subst. reflexivity.
        -- destruct sleeps as [|m]; cbn [replicate app]; intros H; [|discriminate].
           inversion H; subst. reflexivity.
    + cbn [wait_for_press]. destruct value.
      * destruct (wait_for_press later) as [[n r]|] eqn:Hw.
        -- split; [discriminate|]. intros H. apply Forall_cons in H as [_ H].
           apply IH2 in H. discriminate.
        -- split; [|reflexivity]. intros _. constructor; [reflexivity|].
           apply IH2. reflexivity.
      * split; [discriminate|]. intros H. apply Forall_cons in H as [H _]. discriminate.
Qed.

(** ** The indicator and the two operations *)

(** X5: [flash_off] with the indicator lock free darkens the ring and then
    raises [RuntimeError], the release of a lock that is not held; the lock
    is still free. *)
Theorem flash_off_without_flash_on (t : tid) (o : oracle) (w : world) :
  w_pixel_lock w = None ->
  (run t o flash_off w).1 = Raised RuntimeError
  /\ (let w' := (run t o flash_off w).2 in
      w_pixel_lock w' = None
      /\ w_brightness w' = IDLE_BRIGHTNESS
      /\ w_shown w' = (IDLE_BRIGHTNESS, black)
      /\ w_trace w' = w_trace w ++ by_thread t flash_off_cmds).
Proof.
  intros Hp. destruct w as [sl pl br buf sh res st tm tms tr]. cbn in Hp. subst pl.
  cbv -[app IDLE_BRIGHTNESS]. rewrite <- !app_assoc. repeat split; reflexivity.
Qed.

Lemma flash_off_without_flash_on_witness :
  (run MainThread (working_environment example_stream) flash_off initial_world).1
  = Raised RuntimeError.
Proof.
  exact (proj1 (flash_off_without_flash_on MainThread (working_environment example_stream)
                  initial_world eq_refl)).
Defined.

Lemma world_eq (w1 w2 : world) :
  w_settings_lock w1 = w_settings_lock w2 ->
  w_pixel_lock w1 = w_pixel_lock w2 ->
  w_brightness w1 = w_brightness w2 ->
  w_buffer w1 = w_buffer w2 ->
  w_shown w1 = w_shown w2 ->
  w_resolution w1 = w_resolution w2 ->
  w_settings w1 = w_settings w2 ->
  w_settings_update_timer w1 = w_settings_update_timer w2 ->
  w_timers w1 = w_timers w2 ->
  w_trace w1 = w_trace w2 ->
  w1 = w2.
Proof. destruct w1, w2. simpl. intros. subst. reflexivity. Qed.

(** X6: a [take_photo] that returns, started with both locks free and the
    ring idle, leaves the world as it found it but for the trace: the locks
    free, the ring idle, and resolution, cached settings and timers
    untouched. *)
Theorem successful_photo_leaves_no_residue (py_str_float : float -> string) (t : tid)
    (o : oracle) (b : backend) (path : string) (w w' : world) :
  w_settings_lock w = None ->
  w_pixel_lock w = None ->
  w_brightness w = IDLE_BRIGHTNESS ->
  w_buffer w = black ->
  w_shown w = (IDLE_BRIGHTNESS, black) ->
  run t o (take_photo py_str_float b path) w = (Returned tt, w') ->
  exists tr, w' = extend_trace tr w.
Proof.
  intros Hs Hp Hbr Hbuf Hsh Hrun.
  rewrite run_take_photo in Hrun by assumption.
  destruct (quiet_run t o (capture_image py_str_float b path) (in_operation t true w)
              (quiet_capture_image py_str_float b path)) as (oc & tr & Hcap & Hoc).
  rewrite Hcap in Hrun. destruct oc as [[]|e|]; [|discriminate|congruence].
  inversion Hrun as [Hw']. clear Hrun.
  exists (by_thread t (LockAcquire SettingsLock :: flash_on_cmds true) ++ tr
          ++ by_thread t (flash_off_cmds ++ [LockRelease SettingsLock])).
  apply world_eq; try reflexivity; try (symmetry; assumption).
  cbv [operation_done operation_left unflashed in_operation flashed entered log extend_trace
       set_lock set_shown set_buffer set_brightness w_trace].
  cbn [by_thread map app]. rewrite <- !app_assoc. reflexivity.
Qed.

Lemma successful_photo_leaves_no_residue_witness :
  exists tr,
    (run MainThread (working_environment example_stream)
       (take_photo (fun _ => "2.0") RaspiStillCamera "photo.jpg") ready_world).2
    = extend_trace tr ready_world.
Proof.
  apply (successful_photo_leaves_no_residue (fun _ => "2.0") MainThread
           (working_environment example_stream) RaspiStillCamera "photo.jpg" ready_world);
    vm_compute; reflexivity.
Defined.

Lemma run_take_photo_held sf t o b path w h :
  w_settings_lock w = None ->
  w_pixel_lock w = Some h ->
  run t o (take_photo sf b path) w = (Blocked, entered t w).
Proof.
  intros Hs Hp. unfold take_photo. rewrite run_with_lock by exact Hs.
  unfold_monad. rewrite run_bind.
  rewrite (run_flash_on_held t o true (entered t w) h) by exact Hp.
  reflexivity.
Qed.

Lemma run_update_settings_held t o b w h :
  w_settings_lock w = None ->
  w_pixel_lock w = Some h ->
  run t o (update_settings b) w
  = (Blocked, entered t (log t (Print [VStr "Updating settings..."]) w)).
Proof.
  intros Hs Hp. unfold update_settings. unfold_monad.
  rewrite run_bind, run_print. cbv beta iota.
  rewrite run_bind. rewrite run_with_lock by exact Hs.
  rewrite run_bind.
  rewrite (run_flash_on_held t o false _ h) by exact Hp.
  reflexivity.
Qed.

Lemma run_acquire_held t o l w h :
  lock_of l w = Some h -> run t o (call (LockAcquire l)) w = (Blocked, w).
Proof. intros H. run_steps. rewrite H. reflexivity. Qed.

Lemma failed_operation_world sf t o b path w e w' :
  w_settings_lock w = None ->
  w_pixel_lock w = None ->
  run t o (take_photo sf b path) w = (Raised e, w')
  \/ run t o (update_settings b) w = (Raised e, w') ->
  w_settings_lock w' = None /\ w_pixel_lock w' = Some t.
Proof.
  intros Hs Hp [H|H].
  - rewrite run_take_photo in H by assumption.
    destruct (quiet_run t o (capture_image sf b path) (in_operation t true w)
                (quiet_capture_image sf b path)) as (oc & tr & Hrun & Hoc).
    rewrite Hrun in H. destruct oc as [[]|e'|]; [discriminate| |congruence].
    inversion H; subst. split; reflexivity.
  - rewrite run_update_settings in H by assumption.
    set (w0 := in_operation t false (log t (Print [VStr "Updating settings..."]) w)) in *.
    destruct (quiet_run t o (update_capture_settings b) w0
                (quiet_update_capture_settings b)) as (oc & tr & Hrun & Hoc).
    rewrite Hrun in H. destruct oc as [d|e'|]; [| |congruence].
    + rewrite (run_report_and_reschedule t o _ d) in H;
        [discriminate|reflexivity
        |eapply returns_run; [apply returns_update_capture_settings | exact Hrun]].
    + inversion H; subst. split; reflexivity.
Qed.

(** X7: once a [take_photo] or an [update_settings] has raised, the next
    [take_photo] or [update_settings], by any thread and in any environment,
    takes the settings lock and then stops at the indicator lock, which the
    failed caller still holds; and while it waits there, every further
    [take_photo] or [update_settings] stops at the settings lock. *)
Theorem failed_operation_blocks_the_next (py_str_float : float -> string) (t : tid)
    (o : oracle) (b : backend) (path : string) (w : world) (e : exn) (w' : world) :
  w_settings_lock w = None ->
  w_pixel_lock w = None ->
  run t o (take_photo py_str_float b path) w = (Raised e, w')
  \/ run t o (update_settings b) w = (Raised e, w') ->
  forall (t1 : tid) (o1 : oracle) (path1 : string),
    let waiting := entered t1 w' in
    let announced := entered t1 (log t1 (Print [VStr "Updating settings..."]) w') in
    run t1 o1 (take_photo py_str_float b path1) w' = (Blocked, waiting)
    /\ run t1 o1 (update_settings b) w' = (Blocked, announced)
    /\ w_settings_lock waiting = Some t1 /\ w_pixel_lock waiting = Some t
    /\ w_settings_lock announced = Some t1 /\ w_pixel_lock announced = Some t
    /\ forall (t2 : tid) (o2 : oracle) (path2 : string),
         run t2 o2 (take_photo py_str_float b path2) waiting = (Blocked, waiting)
         /\ (run t2 o2 (update_settings b) waiting).1 = Blocked
         /\ run t2 o2 (take_photo py_str_float b path2) announced = (Blocked, announced)
         /\ (run t2 o2 (update_settings b) announced).1 = Blocked.
Proof.
  intros Hs Hp Hfail t1 o1 path1 waiting announced.
  destruct (failed_operation_world _ _ _ _ _ _ _ _ Hs Hp Hfail) as [Hs' Hp'].
  split; [apply (run_take_photo_held _ _ _ _ _ _ t Hs' Hp')|].
  split; [apply (run_update_settings_held _ _ _ _ t Hs' Hp')|].
  split; [reflexivity|]. split; [exact Hp'|]. split; [reflexivity|]. split; [exact Hp'|].
  intros t2 o2 path2.
  split; [reflexivity|]. split; [reflexivity|]. split; reflexivity.
Qed.

Lemma failed_operation_blocks_the_next_witness :
  let w' := (run (TimerThread 0) (working_environment EmptyString)
               (update_settings RaspiStillCamera) ready_world).2 in
  run MainThread (working_environment example_stream)
    (take_photo (fun _ => "2.0") RaspiStillCamera "photo.jpg") w'
  = (Blocked, entered MainThread w').
Proof.
  intros w'.
  destruct (failed_operation_blocks_the_next (fun _ => "2.0") (TimerThread 0)
              (working_environment EmptyString) RaspiStillCamera "photo.jpg" ready_world
              IndexError w' eq_refl eq_refl
              ltac:(right; vm_compute; reflexivity)
              MainThread (working_environment example_stream) "photo.jpg")
    as (H & _).
  exact H.
Defined.

(** ** The library backend *)

Lemma run_with_picamera {A : Type} (t : tid) (o : oracle) resolution (body : prog A) w :
  o (PiCameraOpen resolution) = Ok tt ->
  quiet body ->
  exists inner tr,
    run t o body (log t (PiCameraOpen resolution) w)
    = (inner, extend_trace tr (log t (PiCameraOpen resolution) w))
    /\ inner <> Blocked
    /\ run t o (with_picamera resolution body) w
       = (match o PiCameraClose with Ok _ => inner | Err e => Raised e end,
          extend_trace ((t, PiCameraOpen resolution) :: tr ++ [(t, PiCameraClose)]) w).
Proof.
  intros Hopen Hq. unfold with_picamera. unfold_monad.
  destruct (quiet_run t o body (log t (PiCameraOpen resolution) w) Hq)
    as (oc & tr & Hrun & Hoc).
  exists oc, tr. split; [exact Hrun|]. split; [exact Hoc|].
  run_steps. rewrite Hopen. run_steps. rewrite run_finally, Hrun.
  run_steps. unfold log. rewrite !extend_trace_app.
  destruct oc as [a|e|]; [| |congruence]; destruct (o PiCameraClose) as [[]|e'];
    reflexivity.
Qed.

Lemma run_with_picamera_busy {A : Type} (t : tid) (o : oracle) resolution (body : prog A) w e :
  o (PiCameraOpen resolution) = Err e ->
  run t o (with_picamera resolution body) w = (Raised e, log t (PiCameraOpen resolution) w).
Proof.
  intros Hopen. unfold with_picamera. unfold_monad. run_steps. rewrite Hopen. reflexivity.
Qed.

(** X9: in both operations of the library backend the camera session is
    closed on every way out: once [PiCamera(...)] has opened, closing it is
    the last thing the operation does, whether the code inside returned or
    raised; and when opening raises, that exception is the operation's and
    nothing else is asked of the camera. *)
Theorem picamera_session_always_closed (py_str_float : float -> string) (t : tid)
    (o : oracle) (w : world) (resolution : Z * Z) (path : string) :
  w_resolution w = Some resolution ->
  (o (PiCameraOpen resolution) = Ok tt ->
   (exists tr,
       w_trace (run t o (update_capture_settings PyCamera) w).2
       = w_trace w ++ by_thread t [GetResolution; PiCameraOpen resolution] ++ tr
                   ++ [(t, PiCameraClose)])
   /\ (exists tr,
          w_trace (run t o (capture_image py_str_float PyCamera path) w).2
          = w_trace w ++ by_thread t [GetResolution; PiCameraOpen resolution] ++ tr
                      ++ [(t, PiCameraClose)]))
  /\ (forall e,
         o (PiCameraOpen resolution) = Err e ->
         run t o (update_capture_settings PyCamera) w
         = (Raised e, extend_trace (by_thread t [GetResolution; PiCameraOpen resolution]) w)
         /\ run t o (capture_image py_str_float PyCamera path) w
            = (Raised e, extend_trace (by_thread t [GetResolution; PiCameraOpen resolution]) w)).
Proof.
  intros Hres. split.
  - intros Hopen. split.
    + cbn [update_capture_settings]. unfold pycamera_update_capture_settings. unfold_monad.
      rewrite (run_get_resolution t o w resolution) by exact Hres.
      cbn [resp].
      match goal with
      | |- context [run t o (@with_picamera ?A resolution ?body) ?w0] =>
          let Hq := fresh in
          assert (Hq : quiet body) by quiet_tac;
          destruct (@run_with_picamera A t o resolution body w0 Hopen Hq)
            as (inner & tr & _ & _ & Hrun)
      end.
      rewrite Hrun. exists tr. cbn [snd]. unfold log. rewrite extend_trace_app.
      cbn [w_trace extend_trace by_thread map app]. reflexivity.
    + cbn [capture_image]. unfold pycamera_capture_image. unfold_monad.
      rewrite (run_get_resolution t o w resolution) by exact Hres.
      cbn [resp].
      match goal with
      | |- context [run t o (@with_picamera ?A resolution ?body) ?w0] =>
          let Hq := fresh in
          assert (Hq : quiet body) by quiet_tac;
          destruct (@run_with_picamera A t o resolution body w0 Hopen Hq)
            as (inner & tr & _ & _ & Hrun)
      end.
      rewrite Hrun. exists tr. cbn [snd]. unfold log. rewrite extend_trace_app.
      cbn [w_trace extend_trace by_thread map app]. reflexivity.
  - intros e Hopen. split.
    + cbn [update_capture_settings]. unfold pycamera_update_capture_settings. unfold_monad.
      rewrite (run_get_resolution t o w resolution) by exact Hres.
      rewrite (run_with_picamera_busy t o resolution _ _ e Hopen).
      unfold log. rewrite extend_trace_app. reflexivity.
    + cbn [capture_image]. unfold pycamera_capture_image. unfold_monad.
      rewrite (run_get_resolution t o w resolution) by exact Hres.
      rewrite (run_with_picamera_busy t o resolution _ _ e Hopen).
      unfold log. rewrite extend_trace_app. reflexivity.
Qed.

Lemma picamera_session_always_closed_witness :
  let busy := environment (Ok 0) (Ok example_stream) (Ok 0) (Err (EnvError "camera busy"))
                (Ok 33000) (Ok []) in
  run MainThread busy (update_capture_settings PyCamera) ready_world
  = (Raised (EnvError "camera busy"),
     extend_trace (by_thread MainThread [GetResolution; PiCameraOpen script_resolution])
       ready_world).
Proof.
  intros busy.
  destruct (picamera_session_always_closed (fun _ => "2.0") MainThread busy ready_world
              script_resolution "photo.jpg" eq_refl) as [_ H].
  exact (proj1 (H (EnvError "camera busy") eq_refl)).
Defined.

Lemma run_picamera_open {B : Type} (t : tid) (o : oracle) w resolution (f : unit -> prog B) :
  o (PiCameraOpen resolution) = Ok tt ->
  run t o (bind (call (PiCameraOpen resolution)) f) w
  = run t o (f tt) (log t (PiCameraOpen resolution) w).
Proof. intros H. run_steps. rewrite H. reflexivity. Qed.

Lemma run_picamera_set {B : Type} (t : tid) (o : oracle) w name v (f : unit -> prog B) :
  o (PiCameraSet name v) = Ok tt ->
  run t o (bind (call (PiCameraSet name v)) f) w
  = run t o (f tt) (log t (PiCameraSet name v) w).
Proof. intros H. run_steps. rewrite H. reflexivity. Qed.

Lemma run_picamera_capture (t : tid) (o : oracle) w path :
  o (PiCameraCapture path) = Ok tt ->
  @run unit t o (call (PiCameraCapture path)) w = (Returned tt, log t (PiCameraCapture path) w).
Proof. intros H. run_steps. rewrite H. reflexivity. Qed.

Lemma run_picamera_close (t : tid) (o : oracle) w :
  o PiCameraClose = Ok tt ->
  @run unit t o (call PiCameraClose) w = (Returned tt, log t PiCameraClose w).
Proof. intros H. run_steps. rewrite H. reflexivity. Qed.

(** X8: with the resolution and cached settings in place and a driver that
    accepts every call, [capture_image] of the library backend opens a
    session at the configured resolution, switches the exposure mode off,
    sets the cached shutter speed, switches the white-balance mode off, sets
    the cached white-balance gains, captures to the path it was given and
    closes the session, in this order and nothing else. *)
Theorem library_capture (py_str_float : float -> string) (t : tid) (o : oracle) (w : world)
    (resolution : Z * Z) (path : string) (d : gmap string pyval)
    (shutter_speed awb_gains : pyval) :
  w_resolution w = Some resolution ->
  w_settings w = Some d ->
  d !! "shutter_speed" = Some shutter_speed ->
  d !! "awb_gains" = Some awb_gains ->
  o (PiCameraOpen resolution) = Ok tt ->
  (forall name v, o (PiCameraSet name v) = Ok tt) ->
  o (PiCameraCapture path) = Ok tt ->
  o PiCameraClose = Ok tt ->
  run t o (capture_image py_str_float PyCamera path) w
  = (Returned tt,
     extend_trace
       (by_thread t [GetResolution; PiCameraOpen resolution;
                     PiCameraSet "exposure_mode" (VStr "off");
                     GetSettings; PiCameraSet "shutter_speed" shutter_speed;
                     PiCameraSet "awb_mode" (VStr "off");
                     GetSettings; PiCameraSet "awb_gains" awb_gains;
                     PiCameraCapture path; PiCameraClose]) w).
Proof.
  intros Hres Hset Hss Hawb Hopen Hattr Hcap Hclose.
  cbn [capture_image]. unfold pycamera_capture_image, with_picamera. unfold_monad.
  rewrite (run_get_resolution t o w resolution) by exact Hres.
  cbv beta. rewrite run_picamera_open by exact Hopen.
  rewrite run_finally.
  rewrite run_picamera_set by apply Hattr.
  rewrite (run_get_setting t o _ d "shutter_speed" shutter_speed) by assumption.
  rewrite run_picamera_set by apply Hattr.
  rewrite run_picamera_set by apply Hattr.
  rewrite (run_get_setting t o _ d "awb_gains" awb_gains) by assumption.
  rewrite run_picamera_set by apply Hattr.
  cbv beta. rewrite run_picamera_capture by exact Hcap.
  rewrite run_picamera_close by exact Hclose.
  unfold log. rewrite !extend_trace_app. reflexivity.
Qed.

Lemma library_capture_witness :
  let o := working_environment example_stream in
  let w := (run MainThread o (init PyCamera script_resolution) initial_world).2 in
  (run MainThread o (capture_image (fun _ => "2.0") PyCamera "photo.jpg") w).1 = Returned tt.
Proof.
  intros o w.
  rewrite (library_capture (fun _ => "2.0") MainThread o w script_resolution "photo.jpg"
             (<["awb_gains" := VList [1.31640625%float; 1.5%float]]>
                (<["shutter_speed" := VInt 33000]>
                   (<["digital_gain" := VNone]> (<["analog_gain" := VNone]> ∅))))
             (VInt 33000) (VList [1.31640625%float; 1.5%float]));
    vm_compute; reflexivity.
Defined.

(** ** The external-tool backend *)

Lemma run_raspistill_capture (py_str_float : float -> string) (t : tid) (o : oracle)
    (w : world) (path : string) (width height : Z) (d : gmap string pyval) (ag dg ss : float)
    (gains : list float) :
  w_resolution w = Some (width, height) ->
  w_settings w = Some d ->
  d !! "analog_gain" = Some (VFloat ag) ->
  d !! "digital_gain" = Some (VFloat dg) ->
  d !! "shutter_speed" = Some (VFloat ss) ->
  d !! "awb_gains" = Some (VList gains) ->
  let argv :=
    ["raspistill";
     "--output"; path;
     "--thumb"; "none";
     "--width"; py_str_int width;
     "--height"; py_str_int height;
     "--analoggain"; py_str_float ag;
     "--digitalgain"; py_str_float dg;
     "--exposure"; "off";
     "--shutter"; py_str_float ss;
     "--awb"; "off";
     "--awbgains"; py_join "," (map py_str_float gains);
     "--timeout"; "1";
     "--nopreview";
     "--verbose"] in
  run t o (capture_image py_str_float RaspiStillCamera path) w
  = (match o (SubprocessCall argv) with Ok _ => Returned tt | Err e => Raised e end,
     extend_trace
       (by_thread t [GetResolution; GetResolution; GetSettings; GetSettings; GetSettings;
                     GetSettings; SubprocessCall argv]) w).
Proof.
  intros Hres Hset Hag Hdg Hss Hawb argv.
  cbn [capture_image]. unfold raspistill_capture_image. unfold_monad.
  rewrite (run_get_resolution t o _ (width, height)) by exact Hres.
  rewrite (run_get_resolution t o _ (width, height)) by exact Hres.
  rewrite (run_get_setting t o _ d _ (VFloat ag)) by assumption.
  rewrite (run_get_setting t o _ d _ (VFloat dg)) by assumption.
  rewrite (run_get_setting t o _ d _ (VFloat ss)) by assumption.
  rewrite (run_get_setting t o _ d _ (VList gains)) by assumption.
  cbn [str_each py_str fst snd]. run_steps. fold argv. clearbody argv.
  destruct (o (SubprocessCall argv)) as [rc|e]; run_steps;
    unfold log; rewrite !extend_trace_app; reflexivity.
Qed.

(** X11: the exit status of raspistill is not looked at: whatever status
    the capture command reports, [capture_image] of the external-tool backend
    returns, and so does a [take_photo] started with both locks free, which
    then has switched the ring back to idle and released both locks. *)
Theorem capture_exit_status_ignored (py_str_float : float -> string) (t : tid) (o : oracle)
    (w : world) (path : string) (width height : Z) (d : gmap string pyval) (ag dg ss : float)
    (gains : list float) :
  w_resolution w = Some (width, height) ->
  w_settings w = Some d ->
  d !! "analog_gain" = Some (VFloat ag) ->
  d !! "digital_gain" = Some (VFloat dg) ->
  d !! "shutter_speed" = Some (VFloat ss) ->
  d !! "awb_gains" = Some (VList gains) ->
  (forall argv, exists status : Z, o (SubprocessCall argv) = Ok status) ->
  (run t o (capture_image py_str_float RaspiStillCamera path) w).1 = Returned tt
  /\ (w_settings_lock w = None -> w_pixel_lock w = None ->
      let r := run t o (take_photo py_str_float RaspiStillCamera path) w in
      r.1 = Returned tt
      /\ w_settings_lock r.2 = None /\ w_pixel_lock r.2 = None
      /\ w_shown r.2 = (IDLE_BRIGHTNESS, black)).
Proof.
  intros Hres Hset Hag Hdg Hss Hawb Hstatus. split.
  - rewrite (run_raspistill_capture py_str_float t o w path width height d ag dg ss gains)
      by assumption.
    match goal with
    | |- context [o (SubprocessCall ?argv)] => destruct (Hstatus argv) as [status ->]
    end.
    reflexivity.
  - intros Hs Hp r. subst r. rewrite run_take_photo by assumption.
    rewrite (run_raspistill_capture py_str_float t o _ path width height d ag dg ss gains)
      by assumption.
    match goal with
    | |- context [o (SubprocessCall ?argv)] => destruct (Hstatus argv) as [status ->]
    end.
    repeat split; reflexivity.
Qed.

Lemma capture_exit_status_ignored_witness :
  let failing := environment (Ok 0) (Ok example_stream) (Ok 70) (Ok tt) (Ok 33000) (Ok []) in
  (run MainThread failing (take_photo (fun _ => "2.0") RaspiStillCamera "photo.jpg")
     ready_world).1 = Returned tt.
Proof.
  intros failing.
  destruct (capture_exit_status_ignored (fun _ => "2.0") MainThread failing ready_world
              "photo.jpg" 951 1268
              (settings_of_groups "1500" "120" "60" "20" "10" "337" "256" "3" "2")
              2%float 2%float 1500%float [1.31640625%float; 1.5%float]
              ltac:(vm_compute; reflexivity) ltac:(vm_compute; reflexivity)
              ltac:(vm_compute; reflexivity) ltac:(vm_compute; reflexivity)
              ltac:(vm_compute; reflexivity) ltac:(vm_compute; reflexivity)
              ltac:(intros argv; exists 70; reflexivity)) as [_ H].
  exact (proj1 (H eq_refl eq_refl)).
Defined.

Lemma run_calibrated_init (t : tid) (o : oracle) (w : world)
    (resolution : Z * Z) (rc6 rc7 rcp : Z) (stderr : string) (d : gmap string pyval) :
  w_settings_lock w = None ->
  w_pixel_lock w = None ->
  o (SubprocessShell "chvt 6") = Ok rc6 ->
  o (SubprocessShell "chvt 7") = Ok rc7 ->
  o (SubprocessRun (probe_argv resolution)) = Ok stderr ->
  o (SubprocessShell "tvservice -p") = Ok rcp ->
  parse_settings (py_str_bytes stderr) = Ok d ->
  exists w',
    run t o (init RaspiStillCamera resolution) w = (Returned tt, w')
    /\ w_settings_lock w' = None /\ w_pixel_lock w' = None
    /\ w_resolution w' = Some resolution /\ w_settings w' = Some d.
Proof.
  intros Hs Hp H6 H7 Hrun Htv Hparse.
  change (run t o (init RaspiStillCamera resolution) w)
    with (run t o (update_settings RaspiStillCamera)
            (log t (SetResolution resolution) (set_resolution resolution w))).
  rewrite run_update_settings by assumption.
  cbn [update_capture_settings].
  rewrite (run_probe t o _ resolution rc6 rc7 rcp stderr) by (assumption || reflexivity).
  rewrite Hparse.
  rewrite (run_report_and_reschedule t o _ d);
    [|reflexivity|exact (parse_settings_complete _ _ Hparse)].
  eexists. split; [reflexivity|]. repeat split; reflexivity.
Qed.

(** X10: what the calibration parsed is what the next capture passes on:
    after a constructor of the external-tool backend whose diagnostic stream
    ends in well-formed settings lines, a [take_photo] runs raspistill with
    the configured width and height and with the gains, shutter speed and
    white-balance gains computed from the last occurrence of each line. *)
Theorem calibrated_values_reach_capture (py_str_float : float -> string) (t : tid)
    (o : oracle) (w : world) (width height : Z) (rc6 rc7 rcp : Z) (stderr : string)
    (earlier1 : list re_match) (m1 : re_match) (earlier2 : list re_match) (m2 : re_match)
    (exposure an ad dn dd rn rd bn bd : string) :
  w_settings_lock w = None ->
  w_pixel_lock w = None ->
  o (SubprocessShell "chvt 6") = Ok rc6 ->
  o (SubprocessShell "chvt 7") = Ok rc7 ->
  o (SubprocessRun (probe_argv (width, height))) = Ok stderr ->
  o (SubprocessShell "tvservice -p") = Ok rcp ->
  re_finditer EXPOSURE_PATTERN (py_str_bytes stderr) = earlier1 ++ [m1] ->
  re_finditer AWB_PATTERN (py_str_bytes stderr) = earlier2 ++ [m2] ->
  m_groups m1 = [("exposure", exposure); ("analog_gain_n", an); ("analog_gain_d", ad);
                 ("digital_gain_n", dn); ("digital_gain_d", dd)] ->
  m_groups m2 = [("awb_r_n", rn); ("awb_r_d", rd); ("awb_b_n", bn); ("awb_b_d", bd)] ->
  forallb nonempty [exposure; an; ad; dn; dd; rn; rd; bn; bd] = true ->
  forallb nonzero [ad; dd; rd; bd] = true ->
  let constructed := run t o (init RaspiStillCamera (width, height)) w in
  let argv (path : string) :=
    ["raspistill";
     "--output"; path;
     "--thumb"; "none";
     "--width"; py_str_int width;
     "--height"; py_str_int height;
     "--analoggain"; py_str_float (float_of_digits an / float_of_digits ad)%float;
     "--digitalgain"; py_str_float (float_of_digits dn / float_of_digits dd)%float;
     "--exposure"; "off";
     "--shutter"; py_str_float (float_of_digits exposure);
     "--awb"; "off";
     "--awbgains"; py_join "," [py_str_float (float_of_digits rn / float_of_digits rd)%float;
                                py_str_float (float_of_digits bn / float_of_digits bd)%float];
     "--timeout"; "1";
     "--nopreview";
     "--verbose"] in
  constructed.1 = Returned tt
  /\ forall (t1 : tid) (o1 : oracle) (path : string),
       let r := run t1 o1 (take_photo py_str_float RaspiStillCamera path) constructed.2 in
       r.1 = match o1 (SubprocessCall (argv path)) with
             | Ok _ => Returned tt
             | Err e => Raised e
             end
       /\ In (t1, SubprocessCall (argv path)) (w_trace r.2).
Proof.
  intros Hs Hp H6 H7 Hrun Htv H1 H2 G1 G2 Hne Hnz constructed argv.
  pose proof (parse_settings_last _ _ _ _ _ _ _ _ _ _ _ _ _ _ H1 H2 G1 G2 Hne Hnz) as Hparse.
  destruct (run_calibrated_init t o w (width, height) rc6 rc7 rcp stderr _
              Hs Hp H6 H7 Hrun Htv Hparse) as (w' & Hinit & Hs' & Hp' & Hres' & Hset').
  subst constructed. rewrite Hinit. cbn [fst snd]. split; [reflexivity|].
  intros t1 o1 path. cbv zeta.
  rewrite run_take_photo by assumption.
  rewrite (run_raspistill_capture py_str_float t1 o1 _ path width height
             (settings_of_groups exposure an ad dn dd rn rd bn bd)
             (float_of_digits an / float_of_digits ad)%float
             (float_of_digits dn / float_of_digits dd)%float
             (float_of_digits exposure)
             [(float_of_digits rn / float_of_digits rd)%float;
              (float_of_digits bn / float_of_digits bd)%float]);
    [|exact Hres'|exact Hset'|reflexivity..].
  cbn [map]. fold (argv path).
  destruct (o1 (SubprocessCall (argv path))) as [status|e].
  - split; [reflexivity|]. cbn [snd]. rewrite w_trace_operation_done.
    cbn [w_trace extend_trace]. rewrite !in_app_iff. left. right.
    unfold by_thread. cbn [map In]. tauto.
  - split; [reflexivity|]. cbn [snd].
    unfold operation_left, log. cbn [w_trace extend_trace set_lock].
    rewrite !in_app_iff. left. right.
    unfold by_thread. cbn [map In]. tauto.
Qed.

Lemma calibrated_values_reach_capture_witness :
  (run MainThread (working_environment example_stream)
     (init RaspiStillCamera script_resolution) initial_world).1 = Returned tt.
Proof.
  refine (proj1 (calibrated_values_reach_capture (fun _ => "2.0") MainThread
                   (working_environment example_stream) initial_world 951 1268 0 0 0
                   example_stream
                   [MkMatch 2 65 [("exposure", "1200"); ("analog_gain_n", "100");
                                  ("analog_gain_d", "50"); ("digital_gain_n", "10");
                                  ("digital_gain_d", "10")]]
                   (MkMatch 95 158 [("exposure", "1500"); ("analog_gain_n", "120");
                                    ("analog_gain_d", "60"); ("digital_gain_n", "20");
                                    ("digital_gain_d", "10")])
                   []
                   (MkMatch 67 93 [("awb_r_n", "337"); ("awb_r_d", "256"); ("awb_b_n", "3");
                                   ("awb_b_d", "2")])
                   "1500" "120" "60" "20" "10" "337" "256" "3" "2"
                   _ _ _ _ _ _ _ _ _ _ _ _));
    vm_compute; reflexivity.
Defined.

(** ** Scraping the diagnostic stream *)

Lemma py_float_cases s :
  all_digits s = true -> py_float s = Err ValueError \/ py_float s = Ok (float_of_digits s).
Proof.
  intros H. unfold py_float. destruct s as [|c s]; [left; reflexivity|].
  rewrite H. right. reflexivity.
Qed.

Lemma py_truediv_cases a b :
  py_truediv a b = Err ZeroDivisionError \/ py_truediv a b = Ok (a / b)%float.
Proof. unfold py_truediv. destruct (PrimFloat.eqb b 0); auto. Qed.

Lemma ratio_cases m n d vn vd :
  group m n = Ok vn -> group m d = Ok vd ->
  all_digits vn = true -> all_digits vd = true ->
  ratio (Some m) n d = Err ValueError
  \/ ratio (Some m) n d = Err ZeroDivisionError
  \/ ratio (Some m) n d = Ok (float_of_digits vn / float_of_digits vd)%float.
Proof.
  intros Gn Gd Hn Hd. unfold ratio, float_group. unfold_monad. unfold result_bind.
  rewrite Gn, Gd.
  destruct (py_float_cases vn Hn) as [->| ->]; [auto|].
  destruct (py_float_cases vd Hd) as [->| ->]; [auto|].
  destruct (py_truediv_cases (float_of_digits vn) (float_of_digits vd)) as [->| ->]; auto.
Qed.

Lemma float_group_cases m n v :
  group m n = Ok v -> all_digits v = true ->
  float_group (Some m) n = Err ValueError
  \/ float_group (Some m) n = Ok (float_of_digits v).
Proof.
  intros G Hv. unfold float_group. unfold_monad. unfold result_bind. rewrite G.
  apply py_float_cases, Hv.
Qed.

Lemma last_match_groups p text earlier m :
  re_finditer p text = earlier ++ [m] ->
  Forall2 (fun name kv => kv.1 = name /\ all_digits kv.2 = true) (group_names p) (m_groups m).
Proof.
  intros H. destruct (finditer_groups p text m) as [Hn Hd].
  { rewrite H. apply in_or_app. right. left. reflexivity. }
  rewrite <- Hn. clear Hn. induction Hd as [|kv g Hkv Hg IH]; cbn [map]; constructor; auto.
Qed.

Lemma parse_settings_found text earlier1 m1 earlier2 m2 :
  re_finditer EXPOSURE_PATTERN text = earlier1 ++ [m1] ->
  re_finditer AWB_PATTERN text = earlier2 ++ [m2] ->
  match parse_settings text with
  | Ok d =>
      exists analog_gain digital_gain shutter_speed awb_r awb_b,
        d = <["awb_gains" := VList [awb_r; awb_b]]>
              (<["shutter_speed" := VFloat shutter_speed]>
                 (<["digital_gain" := VFloat digital_gain]>
                    (<["analog_gain" := VFloat analog_gain]> ∅)))
  | Err e => e = ValueError \/ e = ZeroDivisionError
  end.
Proof.
  intros H1 H2.
  pose proof (last_match_groups _ _ _ _ H1) as G1.
  pose proof (last_match_groups _ _ _ _ H2) as G2.
  cbn [EXPOSURE_PATTERN AWB_PATTERN group_names] in G1, G2.
  destruct m1 as [s1 e1 g1], m2 as [s2 e2 g2]. cbn [m_groups] in G1, G2.
  repeat match goal with
         | H : Forall2 _ (_ :: _) _ |- _ => inversion H; clear H; subst
         | H : Forall2 _ [] _ |- _ => inversion H; clear H; subst
         end.
  repeat match goal with
         | H : _ /\ _ |- _ => destruct H
         | kv : (string * string)%type |- _ => destruct kv; cbn [fst snd] in *; subst
         end.
  unfold parse_settings.
  rewrite (find_last_match_snoc re_finditer _ _ _ _ H1).
  rewrite (find_last_match_snoc re_finditer _ _ _ _ H2).
  unfold_monad. unfold result_bind at 1 2.
  repeat match goal with
         | |- match result_bind (ratio (Some ?m) ?n ?d) _ with Ok _ => _ | Err _ => _ end =>
             destruct (ratio_cases m n d _ _ eq_refl eq_refl
                         ltac:(assumption) ltac:(assumption)) as [E|[E|E]];
             rewrite E; clear E; cbn [result_bind]; [left; reflexivity|right; reflexivity|]
         | |- match result_bind (float_group (Some ?m) ?n) _ with Ok _ => _ | Err _ => _ end =>
             destruct (float_group_cases m n _ eq_refl ltac:(assumption)) as [E|E];
             rewrite E; clear E; cbn [result_bind]; [left; reflexivity|]
         end.
  eexists _, _, _, _, _. reflexivity.
Qed.

(** X12: scraping a text gives the settings, all four fields, the gains and
    the shutter speed floats and the white-balance gains a pair of floats, or
    raises one of three exceptions: [IndexError], which it raises exactly
    when one of the two patterns occurs nowhere in the text, [ValueError] or
    [ZeroDivisionError]. *)
Theorem parse_settings_outcomes (text : string) :
  (parse_settings text = Err IndexError
   <-> re_finditer EXPOSURE_PATTERN text = [] \/ re_finditer AWB_PATTERN text = [])
  /\ match parse_settings text with
     | Ok d =>
         complete d
         /\ exists analog_gain digital_gain shutter_speed awb_r awb_b,
              d = <["awb_gains" := VList [awb_r; awb_b]]>
                    (<["shutter_speed" := VFloat shutter_speed]>
                       (<["digital_gain" := VFloat digital_gain]>
                          (<["analog_gain" := VFloat analog_gain]> ∅)))
     | Err e => e = IndexError \/ e = ValueError \/ e = ZeroDivisionError
     end.
Proof.
  destruct (re_finditer EXPOSURE_PATTERN text) as [|a1 l1] eqn:H1 using rev_ind;
    [rewrite (parse_settings_missing text) by (left; exact H1); split; [tauto|auto]|].
  destruct (re_finditer AWB_PATTERN text) as [|a2 l2] eqn:H2 using rev_ind;
    [rewrite (parse_settings_missing text) by (right; exact H2); split; [tauto|auto]|].
  pose proof (parse_settings_found text _ _ _ _ H1 H2) as Hfound.
  pose proof (parse_settings_complete text) as Hcomplete.
  destruct (parse_settings text) as [d|e].
  - split.
    + split; [discriminate|]. intros [H|H]; destruct l1, l2; discriminate.
    + split; [apply Hcomplete; reflexivity|exact Hfound].
  - split.
    + split.
      * intros H. inversion H; subst. destruct Hfound; discriminate.
      * intros [H|H]; destruct l1, l2; discriminate.
    + tauto.
Qed.

(** X13: [find_last_match] returns a match exactly when the pattern occurs,
    and the match it returns is the last one [re.finditer] yields. *)
Theorem find_last_match_is_last {Pat M : Type} (finditer : Pat -> string -> list M)
    (pat : Pat) (s : string) (m : M) :
  find_last_match finditer pat s = Ok (Some m)
  <-> exists earlier, finditer pat s = earlier ++ [m].
Proof.
  split.
  - unfold find_last_match, py_list, getitem_last. cbn [iter_truthy iter_items].
    destruct (finditer pat s) as [|a l] eqn:H using rev_ind; [discriminate|].
    rewrite last_snoc. intros E. inversion E; subst. exists l. reflexivity.
  - intros [earlier H]. apply (find_last_match_snoc finditer pat s earlier m H).
Qed.



(** ** The timers of the process *)

Lemma starts_mono {A : Type} (p : prog A) n m : (n <= m)%nat -> starts n p -> starts m p.
Proof.
  revert n m. induction p as [a|e|c k IH]; intros n m Hnm; simpl; auto.
  destruct c; try (intros H ?; eapply IH; [exact Hnm|apply H]).
  intros H. destruct n as [|n]; [contradiction|]. destruct m as [|m]; [lia|].
  intros r. eapply IH; [|apply H]. lia.
Qed.

Lemma starts_bind {A B : Type} (p : prog A) (f : A -> prog B) n :
  starts 0 p -> (forall a, starts n (f a)) -> starts n (bind p f).
Proof.
  intros Hp Hf. induction p as [a|e|c k IH]; simpl in *; auto.
  destruct c; try (intros ?; apply IH; apply Hp). contradiction.
Qed.

Lemma starts_finally {A : Type} (p : prog A) (f : prog unit) :
  starts 0 p -> starts 0 f -> starts 0 (finally p f).
Proof.
  intros Hp Hf. induction p as [a|e|c k IH]; simpl in *.
  - apply starts_bind; [exact Hf|]. intros _. exact I.
  - apply starts_bind; [exact Hf|]. intros _. exact I.
  - destruct c; try (intros ?; apply IH; apply Hp). contradiction.
Qed.

Lemma starts_quiet {A : Type} (p : prog A) : quiet p -> starts 0 p.
Proof.
  induction p as [a|e|c k IH]; simpl; auto.
  intros [Hc Hk]. destruct c; try discriminate; intros ?; apply IH, Hk.
Qed.

Lemma starts_lift {A : Type} (r : result A) : starts 0 (lift r).
Proof. destruct r; exact I. Qed.

Lemma starts_call c :
  match c with TimerStart _ => False | _ => True end -> starts 0 (call c).
Proof. destruct c; simpl; intros H; try contradiction; intros ?; apply starts_lift. Qed.

Lemma starts_for_range n body : starts 0 body -> starts 0 (for_range n body).
Proof.
  intros Hb. induction n as [|n IH]; simpl; [exact I|].
  unfold_monad. apply starts_bind; auto.
Qed.

Ltac starts_tac :=
  unfold_monad;
  repeat first
    [ apply starts_bind; [|intros ?]
    | apply starts_finally
    | apply starts_for_range
    | match goal with |- starts 0 (call ?c) => apply (starts_call c); exact I end
    | apply starts_lift
    | apply starts_quiet, quiet_dict_get
    | exact I ].

Lemma starts_take_photo sf b path : starts 0 (take_photo sf b path).
Proof.
  unfold take_photo, with_lock, flash_on, flash_off, blink. unfold_monad.
  apply starts_bind; [starts_tac|]. intros _.
  apply starts_finally; [|starts_tac].
  apply starts_bind; [starts_tac|]. intros _.
  apply starts_bind; [apply starts_quiet, quiet_capture_image|]. intros _.
  starts_tac.
Qed.

Lemma starts_update_settings b : starts 1 (update_settings b).
Proof.
  change (update_settings b) with
    (bind (call (Print [VStr "Updating settings..."]))
       (fun _ => bind (with_lock SettingsLock
                         (bind (flash_on false)
                            (fun _ => bind (update_capture_settings b)
                                        (fun settings => bind (call (SetSettings settings))
                                                           (fun _ => flash_off)))))
                   (fun _ => report_and_reschedule))).
  apply starts_bind; [starts_tac|]. intros _.
  apply starts_bind.
  - unfold with_lock, flash_on, flash_off. unfold_monad.
    apply starts_bind; [starts_tac|]. intros _.
    apply starts_finally; [|starts_tac].
    apply starts_bind; [starts_tac|]. intros _.
    apply starts_bind; [apply starts_quiet, quiet_update_capture_settings|]. intros d.
    starts_tac.
  - intros _. unfold report_and_reschedule, print_setting. unfold_monad.
    repeat (apply starts_bind; [starts_tac|]; intros ?).
    simpl. intros ?. apply starts_lift.
Qed.

Lemma starts_init b resolution : starts 1 (init b resolution).
Proof.
  unfold init. unfold_monad. apply starts_bind; [starts_tac|].
  intros _. apply starts_update_settings.
Qed.

Lemma starts_destroy : starts 0 destroy.
Proof. unfold destroy. starts_tac. Qed.

Lemma handle_pending t o c w r w' h tm :
  handle t o c w = Some (r, w') ->
  w_timers w' !! h = Some tm ->
  pending tm = true ->
  w_timers w !! h = Some tm \/ c = TimerStart h.
Proof.
  intros Hh Htm Hpend.
  destruct c; try (destruct l); simpl in Hh; unfold external in Hh;
    repeat case_match; simplify_eq;
    cbn [w_timers set_timers log extend_trace set_lock set_brightness set_buffer set_shown
         set_resolution set_settings set_settings_update_timer] in Htm;
    auto.
  - apply lookup_app_Some in Htm as [Htm|[_ Htm]]; [auto|].
    apply list_lookup_singleton_Some in Htm as [_ <-]. discriminate.
  - destruct (decide (t0 = h)) as [->|Hne]; [auto|].
    rewrite list_lookup_insert_ne in Htm by exact Hne. auto.
  - destruct (decide (t0 = h)) as [->|Hne].
    + rewrite list_lookup_insert_eq in Htm by (eapply lookup_lt_Some; eauto).
      simplify_eq. unfold pending, cancel_timer in Hpend. cbn in Hpend.
      rewrite andb_false_r in Hpend. discriminate.
    + rewrite list_lookup_insert_ne in Htm by exact Hne. auto.
Qed.

Lemma starts_step {A : Type} c (k : result (resp c) -> prog A) n r :
  match c with TimerStart _ => False | _ => True end ->
  starts n (Do c k) -> starts n (k r).
Proof. destruct c; simpl; intros Hc H; try contradiction; apply H. Qed.

Lemma timer_invariant_initial b resolution : timer_invariant (initial_pool b resolution).
Proof.
  unfold initial_pool. split; cbn [p_world p_threads p_shutdown].
  - intros t p. unfold set_thread. destruct (decide (MainThread = t)); [|discriminate].
    intros [= <-]. apply starts_init.
  - intros t1 t2 p1 p2 Hne. unfold set_thread.
    destruct (decide (MainThread = t1)), (decide (MainThread = t2));
      try discriminate. congruence.
  - intros h tm t p H. discriminate.
  - intros h1 h2 tm1 tm2 H. discriminate.
Qed.

Lemma step_timer_invariant sf b s s' :
  timer_invariant s -> step sf b s s' -> timer_invariant s'.
Proof.
  intros [Hb Hs Hp Hu] Hstep.
  destruct Hstep as [t o c k r w w' ths sd Ht Hhandle
                    | path w ths Ht
                    | n tm w ths sd Htm Hpend Ht
                    | e w ths Ht];
    cbn [p_world p_threads p_shutdown] in *.
  - (* a command of thread [t] *)
    pose proof (Hb t _ Ht) as Hbt.
    assert (Hold : forall h tm, w_timers w' !! h = Some tm -> pending tm = true ->
                                c <> TimerStart h -> w_timers w !! h = Some tm).
    { intros h tm H1 H2 Hc.
      destruct (handle_pending _ _ _ _ _ _ _ _ Hhandle H1 H2); [assumption|contradiction]. }
    assert (Hcase : (exists h, c = TimerStart h)
                    \/ match c with TimerStart _ => False | _ => True end)
      by (destruct c; eauto).
    destruct Hcase as [[h0 ->]|Hc'].
    + (* the thread starts a timer *)
      assert (Hk : forall r0, starts 0 (k r0)) by exact Hbt.
      assert (Hnone : forall h tm, w_timers w !! h = Some tm -> pending tm = true -> False).
      { intros h tm H1 H2. exact (Hp h tm t _ H1 H2 Ht). }
      assert (Hothers : forall t0 p, t0 <> t -> ths t0 = Some p -> starts 0 p).
      { intros t0 p Hne H0. destruct (Hs t0 t p _ Hne H0 Ht) as [H|[]]. exact H. }
      assert (Hnew : forall h tm, w_timers w' !! h = Some tm -> pending tm = true -> h = h0).
      { intros h tm H1 H2.
        destruct (handle_pending _ _ _ _ _ _ _ _ Hhandle H1 H2) as [H|H].
        - destruct (Hnone _ _ H H2).
        - congruence. }
      split; cbn [p_world p_threads p_shutdown].
      * intros t0 p. unfold set_thread. destruct (decide (t = t0)) as [<-|Hne].
        -- intros [= <-]. eapply starts_mono; [|apply Hk]. lia.
        -- apply Hb.
      * intros t1 t2 p1 p2 Hne. unfold set_thread.
        destruct (decide (t = t1)) as [<-|H1].
        -- intros [= <-] _. left. apply Hk.
        -- destruct (decide (t = t2)) as [<-|H2].
           ++ intros _ [= <-]. right. apply Hk.
           ++ intros H _. left. apply (Hothers t1); [congruence|exact H].
      * intros h tm t0 p _ _. unfold set_thread. destruct (decide (t = t0)) as [<-|Hne].
        -- intros [= <-]. apply Hk.
        -- apply Hothers. congruence.
      * intros h1 h2 tm1 tm2 H1 P1 H2 P2.
        rewrite (Hnew _ _ H1 P1), (Hnew _ _ H2 P2). reflexivity.
    + (* any other command *)
      assert (Hne : forall h, c <> TimerStart h) by (intros h ->; exact Hc').
      split; cbn [p_world p_threads p_shutdown].
      * intros t0 p. unfold set_thread. destruct (decide (t = t0)) as [<-|Hn].
        -- intros [= <-]. apply (starts_step c k 1 r Hc' Hbt).
        -- apply Hb.
      * intros t1 t2 p1 p2 Hn. unfold set_thread.
        destruct (decide (t = t1)) as [<-|H1], (decide (t = t2)) as [<-|H2];
          try congruence.
        -- intros [= <-] H. destruct (Hs t t2 _ _ Hn Ht H) as [H0|H0]; [left|right; exact H0].
           apply (starts_step c k 0 r Hc' H0).
        -- intros H [= <-]. destruct (Hs t1 t _ _ Hn H Ht) as [H0|H0]; [left; exact H0|right].
           apply (starts_step c k 0 r Hc' H0).
        -- apply Hs. exact Hn.
      * intros h tm t0 p H1 P1. pose proof (Hold _ _ H1 P1 (Hne h)) as H0.
        unfold set_thread. destruct (decide (t = t0)) as [<-|Hn].
        -- intros [= <-]. apply (starts_step c k 0 r Hc'). apply (Hp h tm t _ H0 P1 Ht).
        -- apply (Hp h tm t0 p H0 P1).
      * intros h1 h2 tm1 tm2 H1 P1 H2 P2.
        apply (Hu h1 h2 tm1 tm2); auto.
  - (* the button *)
    split; cbn [p_world p_threads p_shutdown]; auto.
    + intros t p. unfold set_thread. destruct (decide (MainThread = t)) as [<-|Hne]; [|eauto].
      intros [= <-]. eapply starts_mono; [|apply starts_take_photo]. lia.
    + intros t1 t2 p1 p2 Hn. unfold set_thread.
      destruct (decide (MainThread = t1)) as [<-|H1].
      * intros [= <-] _. left. apply starts_take_photo.
      * destruct (decide (MainThread = t2)) as [<-|H2].
        -- intros _ [= <-]. right. apply starts_take_photo.
        -- apply Hs. exact Hn.
    + intros h tm t p H1 P1. unfold set_thread.
      destruct (decide (MainThread = t)) as [<-|Hne]; [|eauto].
      intros [= <-]. apply starts_take_photo.
  - (* a timer fires *)
    assert (Hnone : forall h tm', <[n := fire_timer tm]> (w_timers w) !! h = Some tm' ->
                                  pending tm' = true -> False).
    { intros h tm' H1 P1. destruct (decide (n = h)) as [->|Hne].
      - rewrite list_lookup_insert_eq in H1 by (eapply lookup_lt_Some; eauto).
        simplify_eq. unfold pending, fire_timer in P1. cbn in P1.
        rewrite andb_false_r in P1. discriminate.
      - rewrite list_lookup_insert_ne in H1 by exact Hne.
        apply Hne. apply (Hu n h tm tm'); assumption. }
    split; cbn [p_world p_threads p_shutdown w_timers set_timers].
    + intros t p. unfold set_thread. destruct (decide (TimerThread n = t)) as [<-|Hne].
      * intros [= <-]. apply starts_update_settings.
      * apply Hb.
    + intros t1 t2 p1 p2 Hn. unfold set_thread.
      destruct (decide (TimerThread n = t1)) as [<-|H1].
      * destruct (decide (TimerThread n = t2)) as [<-|H2]; [congruence|].
        intros _ H. right. apply (Hp n tm t2 p2 Htm Hpend H).
      * intros H _. left. apply (Hp n tm t1 p1 Htm Hpend H).
    + intros h tm' t p H1 P1. destruct (Hnone _ _ H1 P1).
    + intros h1 h2 tm1 tm2 H1 P1. destruct (Hnone _ _ H1 P1).
  - (* the main loop is left *)
    split; cbn [p_world p_threads p_shutdown]; auto.
    + intros t p. unfold set_thread. destruct (decide (MainThread = t)) as [<-|Hne]; [|eauto].
      intros [= <-]. eapply starts_mono; [|apply starts_destroy]. lia.
    + intros t1 t2 p1 p2 Hn. unfold set_thread.
      destruct (decide (MainThread = t1)) as [<-|H1].
      * intros [= <-] _. left. apply starts_destroy.
      * destruct (decide (MainThread = t2)) as [<-|H2].
        -- intros _ [= <-]. right. apply starts_destroy.
        -- apply Hs. exact Hn.
    + intros h tm t p H1 P1. unfold set_thread.
      destruct (decide (MainThread = t)) as [<-|Hne]; [|eauto].
      intros [= <-]. apply starts_destroy.
Qed.

Lemma reachable_timer_invariant sf b resolution s :
  reachable sf b resolution s -> timer_invariant s.
Proof.
  unfold reachable. revert s.
  apply (rtc_ind_r (fun s => timer_invariant s)); [apply timer_invariant_initial|].
  intros y z _ Hstep IH. exact (step_timer_invariant sf b y z IH Hstep).
Qed.

Lemma In_lookup {A : Type} (l : list A) (y : A) : In y l -> exists j, l !! j = Some y.
Proof.
  induction l as [|a l IH]; [intros []|]. intros [->|H].
  - exists 0%nat. reflexivity.
  - destruct (IH H) as [j Hj]. exists (S j). exact Hj.
Qed.

Lemma filter_at_most_one {A : Type} (P : A -> bool) (l : list A) :
  (forall i j x y, l !! i = Some x -> P x = true -> l !! j = Some y -> P y = true -> i = j) ->
  (length (List.filter P l) <= 1)%nat.
Proof.
  induction l as [|a l IH]; intros H; [simpl; lia|].
  cbn [List.filter]. destruct (P a) eqn:Pa.
  - assert (Hnil : List.filter P l = []).
    { destruct (List.filter P l) as [|y l'] eqn:Hf; [reflexivity|].
      assert (Hin : In y (List.filter P l)) by (rewrite Hf; left; reflexivity).
      apply filter_In in Hin as [Hin Py].
      apply In_lookup in Hin as [j Hj].
      specialize (H 0%nat (S j) a y eq_refl Pa Hj Py). discriminate. }
    rewrite Hnil. simpl. lia.
  - apply IH. intros i j x y Hi Px Hj Py.
    specialize (H (S i) (S j) x y Hi Px Hj Py). lia.
Qed.

(** X14: recalibrations never pile up: in every state the process can
    reach at most one timer is pending; while one is pending no thread has a
    timer left to start; and of any two threads at most one has. *)
Theorem one_pending_timer (py_str_float : float -> string) (b : backend)
    (resolution : Z * Z) (s : pool) :
  reachable py_str_float b resolution s ->
  (length (List.filter pending (w_timers (p_world s))) <= 1)%nat
  /\ (forall h tm t p,
         w_timers (p_world s) !! h = Some tm -> pending tm = true ->
         p_threads s t = Some p -> starts 0 p)
  /\ (forall t1 t2 p1 p2,
         t1 <> t2 -> p_threads s t1 = Some p1 -> p_threads s t2 = Some p2 ->
         starts 0 p1 \/ starts 0 p2).
Proof.
  intros Hreach. pose proof (reachable_timer_invariant _ _ _ _ Hreach) as [Hb Hs Hp Hu].
  split; [|split; assumption].
  apply filter_at_most_one. intros i j x y Hi Px Hj Py. exact (Hu i j x y Hi Px Hj Py).
Qed.

Lemma one_pending_timer_witness :
  let s := advance MainThread (working_environment example_stream) 40
             (initial_pool RaspiStillCamera script_resolution) in
  List.filter pending (w_timers (p_world s)) = [next_timer]
  /\ (length (List.filter pending (w_timers (p_world s))) <= 1)%nat.
Proof.
  intros s. split; [vm_compute; reflexivity|].
  exact (proj1 (one_pending_timer (fun _ => EmptyString) RaspiStillCamera script_resolution s
                  (advance_reachable _ _ _ _ _ _ _ (rtc_refl _ _)))).
Defined.

(** X15: [destroy] does not reach a recalibration in flight: when it runs
    while an [update_settings] has left its [with] block but not yet made its
    timer, it cancels the timer stored before, and the [update_settings]
    then starts a new timer all the same, which is pending, is the one the
    controller now stores, and can fire and run [update_settings] again even
    though the process has shut down. *)
Theorem destroy_misses_reschedule (py_str_float : float -> string) (b : backend)
    (t : tid) (o o1 : oracle) (w : world) (d : gmap string pyval) (h : nat) (tm : timer) :
  w_settings w = Some d ->
  complete d ->
  w_settings_update_timer w = Some h ->
  w_timers w !! h = Some tm ->
  let destroyed := run MainThread o destroy w in
  let finished := run t o1 report_and_reschedule destroyed.2 in
  let n := length (w_timers w) in
  destroyed.1 = Returned tt
  /\ finished.1 = Returned tt
  /\ w_timers finished.2 = <[h := cancel_timer tm]> (w_timers w) ++ [next_timer]
  /\ w_settings_update_timer finished.2 = Some n
  /\ w_timers finished.2 !! n = Some next_timer
  /\ pending next_timer = true
  /\ forall ths,
       ths (TimerThread n) = None ->
       step py_str_float b (MkPool finished.2 ths true)
         (MkPool (set_timers (<[n := fire_timer next_timer]> (w_timers finished.2)) finished.2)
                 (set_thread (TimerThread n) (Some (update_settings b)) ths) true).
Proof.
  intros Hset Hd Hh Htm destroyed finished n.
  subst destroyed finished. rewrite (run_destroy MainThread o w h tm Hh Htm). cbn [fst snd].
  rewrite (run_report_and_reschedule t o1 _ d); [|exact Hset|exact Hd]. cbn [fst snd].
  assert (Hlen : length (<[h := cancel_timer tm]> (w_timers w)) = n)
    by apply length_insert.
  assert (Hlook : (<[h := cancel_timer tm]> (w_timers w) ++ [next_timer]) !! n
                  = Some next_timer).
  { rewrite lookup_app_r by lia. rewrite Hlen, Nat.sub_diag. reflexivity. }
  split; [reflexivity|]. split; [reflexivity|]. split; [reflexivity|].
  split; [cbn [rescheduled w_settings_update_timer extend_trace set_timers
               set_settings_update_timer w_timers]; rewrite Hlen; reflexivity|].
  split; [exact Hlook|]. split; [reflexivity|].
  intros ths Hnone. apply step_fire; [exact Hlook|reflexivity|exact Hnone].
Qed.

Lemma destroy_misses_reschedule_witness :
  let destroyed := run MainThread (working_environment example_stream) destroy ready_world in
  let finished := run (TimerThread 0) (working_environment example_stream)
                    report_and_reschedule destroyed.2 in
  w_timers finished.2 = [MkTimer 600 UpdateSettings true true false; next_timer].
Proof.
  intros destroyed finished.
  destruct (destroy_misses_reschedule (fun _ => EmptyString) RaspiStillCamera (TimerThread 0)
              (working_environment example_stream) (working_environment example_stream)
              ready_world
              (settings_of_groups "1500" "120" "60" "20" "10" "337" "256" "3" "2")
              0%nat next_timer
              ltac:(vm_compute; reflexivity) (complete_inserts _ _ _ _)
              ltac:(vm_compute; reflexivity) ltac:(vm_compute; reflexivity))
    as (_ & _ & H & _).
  subst destroyed finished. rewrite H. vm_compute. reflexivity.
Defined.

(** ** The indicator lock in the process *)

Lemma pixel_guarded_bind {A B : Type} (p : prog A) (f : A -> prog B) held mid ret :
  pixel_guarded held mid p -> (forall a, pixel_guarded mid ret (f a)) ->
  pixel_guarded held ret (bind p f).
Proof.
  intros Hp Hf. revert held Hp. induction p as [a|e|c k IH]; intros held Hp; simpl in *.
  - subst. apply Hf.
  - exact I.
  - destruct c; try (destruct l); try (intros ?; apply IH; apply Hp);
      (destruct Hp as [Hh Hk]; split; [exact Hh|]; intros ?; apply IH; apply Hk).
Qed.

Lemma pixel_guarded_plain {A : Type} (p : prog A) held : pixel_plain p -> pixel_guarded held held p.
Proof.
  induction p as [a|e|c k IH]; simpl; auto.
  destruct c; try (destruct l); try contradiction; intros H ?; apply IH, H.
Qed.

Lemma pixel_guarded_finally {A : Type} (p : prog A) (f : prog unit) held ret :
  pixel_guarded held ret p -> pixel_plain f -> pixel_guarded held ret (finally p f).
Proof.
  intros Hp Hf. revert held Hp. induction p as [a|e|c k IH]; intros held Hp; simpl in *.
  - subst. eapply pixel_guarded_bind; [apply pixel_guarded_plain, Hf|]. intros _. reflexivity.
  - eapply pixel_guarded_bind; [apply (pixel_guarded_plain f held), Hf|]. intros _. exact I.
  - destruct c; try (destruct l); try (intros ?; apply IH; apply Hp);
      (destruct Hp as [Hh Hk]; split; [exact Hh|]; intros ?; apply IH; apply Hk).
Qed.

Lemma pixel_plain_quiet {A : Type} (p : prog A) : quiet p -> pixel_plain p.
Proof.
  induction p as [a|e|c k IH]; simpl; auto.
  intros [Hc Hk]. destruct c; try discriminate; intros ?; apply IH, Hk.
Qed.

Lemma pixel_plain_bind {A B : Type} (p : prog A) (f : A -> prog B) :
  pixel_plain p -> (forall a, pixel_plain (f a)) -> pixel_plain (bind p f).
Proof.
  intros Hp Hf. induction p as [a|e|c k IH]; simpl in *; auto.
  destruct c; try (destruct l); try contradiction; intros ?; apply IH, Hp.
Qed.

Lemma pixel_plain_lift {A : Type} (r : result A) : pixel_plain (lift r).
Proof. destruct r; exact I. Qed.

Lemma pixel_plain_call c :
  match c with LockAcquire PixelLock | LockRelease PixelLock => False | _ => True end ->
  pixel_plain (call c).
Proof.
  destruct c; try (destruct l); simpl; intros H; try contradiction;
    intros ?; apply pixel_plain_lift.
Qed.

Lemma pixel_plain_for_range n body : pixel_plain body -> pixel_plain (for_range n body).
Proof.
  intros Hb. induction n as [|n IH]; simpl; [exact I|].
  unfold_monad. apply pixel_plain_bind; auto.
Qed.

Ltac pixel_plain_tac :=
  unfold_monad;
  repeat first
    [ apply pixel_plain_bind; [|intros ?]
    | apply pixel_plain_for_range
    | match goal with |- pixel_plain (call ?c) => apply (pixel_plain_call c); exact I end
    | apply pixel_plain_lift
    | apply pixel_plain_quiet, quiet_dict_get
    | exact I ].

Lemma pixel_guarded_flash_on countdown : pixel_guarded false true (flash_on countdown).
Proof.
  unfold flash_on. unfold_monad.
  apply (pixel_guarded_bind _ _ false true true).
  - simpl. split; [reflexivity|]. intros [[]|e]; simpl; auto.
  - intros _. apply pixel_guarded_plain. unfold blink. destruct countdown; pixel_plain_tac.
Qed.

Lemma pixel_guarded_flash_off : pixel_guarded true false flash_off.
Proof.
  unfold flash_off. unfold_monad.
  apply (pixel_guarded_bind _ _ true true false);
    [apply pixel_guarded_plain; pixel_plain_tac|]. intros _.
  apply (pixel_guarded_bind _ _ true true false);
    [apply pixel_guarded_plain; pixel_plain_tac|]. intros _.
  apply (pixel_guarded_bind _ _ true true false);
    [apply pixel_guarded_plain; pixel_plain_tac|]. intros _.
  simpl. split; [reflexivity|]. intros [[]|e]; simpl; auto.
Qed.

Lemma pixel_guarded_with_lock {A : Type} (body : prog A) held ret :
  pixel_guarded held ret body -> pixel_guarded held ret (with_lock SettingsLock body).
Proof.
  intros Hb. unfold with_lock. unfold_monad.
  apply (pixel_guarded_bind _ _ held held ret);
    [apply pixel_guarded_plain; pixel_plain_tac|]. intros _.
  apply pixel_guarded_finally; [exact Hb|pixel_plain_tac].
Qed.

Lemma pixel_guarded_take_photo sf b path : pixel_guarded false false (take_photo sf b path).
Proof.
  unfold take_photo. apply pixel_guarded_with_lock. unfold_monad.
  apply (pixel_guarded_bind _ _ false true false); [apply pixel_guarded_flash_on|]. intros _.
  apply (pixel_guarded_bind _ _ true true false);
    [apply pixel_guarded_plain, pixel_plain_quiet, quiet_capture_image|]. intros _.
  apply pixel_guarded_flash_off.
Qed.

Lemma pixel_plain_report_and_reschedule : pixel_plain report_and_reschedule.
Proof. unfold report_and_reschedule, print_setting. pixel_plain_tac. Qed.

Lemma pixel_guarded_update_settings b : pixel_guarded false false (update_settings b).
Proof.
  change (update_settings b) with
    (bind (call (Print [VStr "Updating settings..."]))
       (fun _ => bind (with_lock SettingsLock
                         (bind (flash_on false)
                            (fun _ => bind (update_capture_settings b)
                                        (fun settings => bind (call (SetSettings settings))
                                                           (fun _ => flash_off)))))
                   (fun _ => report_and_reschedule))).
  apply (pixel_guarded_bind _ _ false false false);
    [apply pixel_guarded_plain; pixel_plain_tac|]. intros _.
  apply (pixel_guarded_bind _ _ false false false);
    [|intros _; apply pixel_guarded_plain, pixel_plain_report_and_reschedule].
  apply pixel_guarded_with_lock.
  apply (pixel_guarded_bind _ _ false true false); [apply pixel_guarded_flash_on|]. intros _.
  apply (pixel_guarded_bind _ _ true true false);
    [apply pixel_guarded_plain, pixel_plain_quiet, quiet_update_capture_settings|].
  intros settings.
  apply (pixel_guarded_bind _ _ true true false);
    [apply pixel_guarded_plain; pixel_plain_tac|]. intros _.
  apply pixel_guarded_flash_off.
Qed.

Lemma pixel_guarded_init b resolution : pixel_guarded false false (init b resolution).
Proof.
  unfold init. unfold_monad.
  apply (pixel_guarded_bind _ _ false false false);
    [apply pixel_guarded_plain; pixel_plain_tac|]. intros _.
  apply pixel_guarded_update_settings.
Qed.

Lemma pixel_plain_destroy : pixel_plain destroy.
Proof. unfold destroy. pixel_plain_tac. Qed.

Lemma handle_pixel_lock t o c w r w' :
  handle t o c w = Some (r, w') ->
  w_pixel_lock w'
  = match c with
    | LockAcquire PixelLock => Some t
    | LockRelease PixelLock =>
        match w_pixel_lock w with Some _ => None | None => None end
    | _ => w_pixel_lock w
    end
  /\ match c with LockAcquire PixelLock => w_pixel_lock w = None | _ => True end.
Proof.
  destruct c; try (destruct l); simpl; unfold external; intros H;
    repeat case_match; simplify_eq; split; auto.
Qed.

Lemma pixel_invariant_initial b resolution : pixel_invariant (initial_pool b resolution).
Proof.
  unfold initial_pool. split; cbn [p_world p_threads p_shutdown].
  - intros t p. unfold set_thread. destruct (decide (MainThread = t)); [|discriminate].
    intros [= <-]. exists false. split; [apply pixel_guarded_init|reflexivity].
  - discriminate.
Qed.

Lemma holds_pixel_true w t : holds_pixel w t = true -> w_pixel_lock w = Some t.
Proof. unfold holds_pixel. apply bool_decide_eq_true_1. Qed.

Lemma pixel_guarded_step {A : Type} t o c (k : result (resp c) -> prog A) w r w' ret :
  handle t o c w = Some (r, w') ->
  pixel_guarded (holds_pixel w t) ret (Do c k) ->
  pixel_guarded (holds_pixel w' t) ret (k r)
  /\ (forall t0, t0 <> t -> holds_pixel w' t0 = holds_pixel w t0)
  /\ (forall h, w_pixel_lock w' = Some h -> h = t \/ w_pixel_lock w = Some h).
Proof.
  intros Hh Hg. destruct (handle_pixel_lock _ _ _ _ _ _ Hh) as [Hl Hfree].
  unfold holds_pixel in *.
  destruct c; try (destruct l); simpl in Hg; rewrite Hl;
    try (split; [apply Hg|split; [reflexivity|auto]]).
  - (* the lock is taken *)
    destruct Hg as [_ Hk]. rewrite Hfree.
    split; [rewrite bool_decide_eq_true_2 by reflexivity; apply Hk|].
    split; [|intros h [= <-]; auto].
    intros t0 Hne. rewrite !bool_decide_eq_false_2 by congruence. reflexivity.
  - (* the lock is given back *)
    destruct Hg as [Hheld Hk]. apply bool_decide_eq_true_1 in Hheld. rewrite Hheld.
    split; [rewrite bool_decide_eq_false_2 by discriminate; apply Hk|].
    split; [|discriminate].
    intros t0 Hne. rewrite !bool_decide_eq_false_2 by congruence. reflexivity.
Qed.

Lemma step_pixel_invariant sf b s s' :
  pixel_invariant s -> step sf b s s' -> pixel_invariant s'.
Proof.
  intros [Hg Hh] Hstep.
  destruct Hstep as [t o c k r w w' ths sd Ht Hhandle
                    | path w ths Ht
                    | n tm w ths sd Htm Hpend Ht
                    | e w ths Ht];
    cbn [p_world p_threads p_shutdown] in *.
  - (* a command of thread [t] *)
    destruct (Hg t _ Ht) as (ret & Hgt & Hret).
    destruct (pixel_guarded_step t o c k w r w' ret Hhandle Hgt) as (Hk & Hother & Hhold).
    split; cbn [p_world p_threads p_shutdown].
    + intros t0 p. unfold set_thread. destruct (decide (t = t0)) as [<-|Hne].
      * intros [= <-]. exists ret. auto.
      * intros Hp0. rewrite Hother by congruence. auto.
    + intros h Hl. unfold set_thread. destruct (decide (t = h)); [eauto|].
      destruct (Hhold h Hl) as [->|Hold]; [congruence|auto].
  - (* the button *)
    destruct (Hg _ _ Ht) as (ret & Hgt & Hret). simpl in Hgt.
    rewrite (Hret eq_refl) in Hgt.
    split; cbn [p_world p_threads p_shutdown].
    + intros t p. unfold set_thread. destruct (decide (MainThread = t)) as [<-|Hne]; [|eauto].
      intros [= <-]. exists false. rewrite Hgt. split; [apply pixel_guarded_take_photo|auto].
    + intros h Hl. unfold set_thread. destruct (decide (MainThread = h)); eauto.
  - (* a timer fires *)
    split; cbn [p_world p_threads p_shutdown].
    + intros t p. unfold set_thread. destruct (decide (TimerThread n = t)) as [<-|Hne].
      * intros [= <-]. exists false.
        replace (holds_pixel _ (TimerThread n)) with false;
          [split; [apply pixel_guarded_update_settings|auto]|].
        symmetry. apply bool_decide_eq_false_2. intros Hl.
        destruct (Hh _ Hl) as [p Hp']. congruence.
      * apply Hg.
    + intros h Hl. unfold set_thread. destruct (decide (TimerThread n = h)); eauto.
  - (* the main loop is left *)
    split; cbn [p_world p_threads p_shutdown].
    + intros t p. unfold set_thread. destruct (decide (MainThread = t)) as [<-|Hne].
      * intros [= <-]. exists (holds_pixel w MainThread).
        split; [apply pixel_guarded_plain, pixel_plain_destroy|discriminate].
      * intros Hp0. destruct (Hg _ _ Hp0) as (ret & H1 & _). exists ret.
        split; [exact H1|discriminate].
    + intros h Hl. unfold set_thread. destruct (decide (MainThread = h)); eauto.
Qed.

Lemma reachable_pixel_invariant sf b resolution s :
  reachable sf b resolution s -> pixel_invariant s.
Proof.
  unfold reachable. revert s.
  apply (rtc_ind_r (fun s => pixel_invariant s)); [apply pixel_invariant_initial|].
  intros y z _ Hstep IH. exact (step_pixel_invariant sf b y z IH Hstep).
Qed.

Lemma pixel_plain_step {A : Type} c (k : result (resp c) -> prog A) r :
  pixel_plain (Do c k) -> pixel_plain (k r).
Proof. destruct c; try (destruct l); simpl; intros H; try contradiction; apply H. Qed.

Lemma step_stuck sf b s s' t p :
  pixel_invariant s ->
  w_pixel_lock (p_world s) = Some t ->
  p_threads s t = Some p -> pixel_plain p ->
  step sf b s s' ->
  w_pixel_lock (p_world s') = Some t
  /\ exists p', p_threads s' t = Some p' /\ pixel_plain p'.
Proof.
  intros [Hg Hh] Hl Hp Hplain Hstep.
  destruct Hstep as [t0 o c k r w w' ths sd Ht Hhandle
                    | path w ths Ht
                    | n tm w ths sd Htm Hpend Ht
                    | e w ths Ht];
    cbn [p_world p_threads p_shutdown] in *.
  - destruct (handle_pixel_lock _ _ _ _ _ _ Hhandle) as [Hl' Hfree].
    destruct (decide (t0 = t)) as [->|Hne].
    + assert (p = Do c k) by congruence. subst p.
      split.
      * rewrite Hl'. destruct c; try (destruct l); simpl in Hplain; try contradiction;
          exact Hl.
      * exists (k r). unfold set_thread. destruct (decide (t = t)); [|congruence].
        split; [reflexivity|apply (pixel_plain_step c k r Hplain)].
    + split.
      * rewrite Hl'. destruct c; try (destruct l); try exact Hl.
        -- rewrite Hfree in Hl. discriminate.
        -- destruct (Hg t0 _ Ht) as (ret & Hgt & _). simpl in Hgt. destruct Hgt as [Hheld _].
           apply holds_pixel_true in Hheld. congruence.
      * exists p. unfold set_thread. destruct (decide (t0 = t)); [congruence|auto].
  - split; [exact Hl|].
    destruct (decide (MainThread = t)) as [<-|Hne].
    + destruct (Hg _ _ Ht) as (ret & Hgt & Hret). simpl in Hgt.
      rewrite (Hret eq_refl) in Hgt. apply bool_decide_eq_false_1 in Hgt. contradiction.
    + exists p. unfold set_thread. destruct (decide (MainThread = t)); [congruence|auto].
  - split; [exact Hl|].
    exists p. unfold set_thread. destruct (decide (TimerThread n = t)); [congruence|auto].
  - split; [exact Hl|].
    unfold set_thread. destruct (decide (MainThread = t)) as [<-|Hne]; [|eauto].
    exists destroy. split; [reflexivity|apply pixel_plain_destroy].
Qed.

(** X17: the indicator lock of a failed operation is never given back: in
    every state the process can reach, if a thread holds the indicator lock
    and has ended in an exception, the thread holds the lock in every state
    that follows, whatever the other threads and the environment do. *)
Theorem indicator_lock_never_released (py_str_float : float -> string) (b : backend)
    (resolution : Z * Z) (s : pool) (t : tid) (e : exn) :
  reachable py_str_float b resolution s ->
  p_threads s t = Some (Raise e) ->
  w_pixel_lock (p_world s) = Some t ->
  forall s', rtc (step py_str_float b) s s' -> w_pixel_lock (p_world s') = Some t.
Proof.
  intros Hreach Ht Hl s' Hsteps.
  assert (Hgen : forall s0 s1,
             rtc (step py_str_float b) s0 s1 ->
             pixel_invariant s0 -> w_pixel_lock (p_world s0) = Some t ->
             (exists p, p_threads s0 t = Some p /\ pixel_plain p) ->
             w_pixel_lock (p_world s1) = Some t).
  { intros s0 s1 H. induction H as [s0|s0 s1 s2 Hstep _ IH]; intros Hinv Hl0 (p & Hp & Hplain).
    - exact Hl0.
    - destruct (step_stuck _ _ _ _ _ _ Hinv Hl0 Hp Hplain Hstep) as [Hl1 Hp1].
      apply IH; [eapply step_pixel_invariant; eauto|exact Hl1|exact Hp1]. }
  apply (Hgen s s' Hsteps); [eapply reachable_pixel_invariant; eauto|exact Hl|].
  exists (Raise e). split; [exact Ht|exact I].
Qed.

Lemma indicator_lock_never_released_witness :
  let s := advance MainThread (working_environment EmptyString) 40
             (initial_pool RaspiStillCamera script_resolution) in
  p_threads s MainThread = Some (Raise IndexError)
  /\ w_pixel_lock (p_world s) = Some MainThread.
Proof.
  intros s. split; [vm_compute; reflexivity|].
  apply (indicator_lock_never_released (fun _ => EmptyString) RaspiStillCamera
           script_resolution s MainThread IndexError
           (advance_reachable _ _ _ _ _ _ _ (rtc_refl _ _))
           ltac:(vm_compute; reflexivity) ltac:(vm_compute; reflexivity) s (rtc_refl _ _)).
Defined.

(** ** What can go wrong in a photo *)

Lemma calibrated_complete b d : calibrated b d -> complete d.
Proof.
  destruct b; simpl; [contradiction| |].
  - intros (es & gains & ->). apply complete_inserts.
  - intros (ag & dg & ss & r & bb & ->). apply complete_inserts.
Qed.

Lemma parse_settings_calibrated text d :
  parse_settings text = Ok d -> calibrated RaspiStillCamera d.
Proof.
  intros H.
  destruct (re_finditer EXPOSURE_PATTERN text) as [|a1 l1] eqn:H1 using rev_ind;
    [rewrite (parse_settings_missing text) in H by (left; exact H1); discriminate|].
  destruct (re_finditer AWB_PATTERN text) as [|a2 l2] eqn:H2 using rev_ind;
    [rewrite (parse_settings_missing text) in H by (right; exact H2); discriminate|].
  pose proof (parse_settings_found text _ _ _ _ H1 H2) as Hfound.
  rewrite H in Hfound. exact Hfound.
Qed.

Lemma returns_calibrated b : returns (calibrated b) (update_capture_settings b).
Proof.
  destruct b; [exact I | |].
  - unfold update_capture_settings, pycamera_update_capture_settings, with_picamera.
    unfold_monad.
    apply (returns_bind (fun _ => True)); [apply returns_true|]. intros resolution _.
    apply (returns_bind (fun _ => True)); [apply returns_true|]. intros _ _.
    apply returns_finally.
    apply (returns_bind (fun _ => True)); [apply returns_true|]. intros _ _.
    apply (returns_bind (fun _ => True)); [apply returns_true|]. intros es _.
    apply (returns_bind (fun _ => True)); [apply returns_true|]. intros g _.
    simpl. eauto.
  - unfold update_capture_settings, raspistill_update_capture_settings. unfold_monad.
    apply (returns_bind (fun _ => True)); [apply returns_true|]. intros resolution _.
    apply (returns_bind (fun _ => True)); [apply returns_true|]. intros _ _.
    apply (returns_bind (fun _ => True)); [apply returns_true|]. intros _ _.
    apply (returns_bind (fun _ => True)); [apply returns_true|]. intros stderr _.
    apply (returns_bind (fun _ => True)); [apply returns_true|]. intros _ _.
    destruct (parse_settings (py_str_bytes stderr)) as [d|e] eqn:Hd; simpl; [|exact I].
    eapply parse_settings_calibrated; exact Hd.
Qed.

Lemma update_settings_ready b resolution t o w w' :
  w_settings_lock w = None -> w_pixel_lock w = None ->
  w_resolution w = Some resolution ->
  run t o (update_settings b) w = (Returned tt, w') ->
  ready b resolution w'.
Proof.
  intros Hs Hp Hres Hrun. rewrite run_update_settings in Hrun by assumption.
  set (w0 := in_operation t false (log t (Print [VStr "Updating settings..."]) w)) in *.
  destruct (quiet_run t o (update_capture_settings b) w0
              (quiet_update_capture_settings b)) as (oc & tr & Hcal & Hoc).
  rewrite Hcal in Hrun. destruct oc as [d|e|]; [|discriminate|congruence].
  assert (Hd : calibrated b d)
    by (eapply returns_run; [apply returns_calibrated | exact Hcal]).
  rewrite (run_report_and_reschedule t o _ d) in Hrun;
    [|reflexivity|exact (calibrated_complete b d Hd)].
  inversion Hrun; subst w'.
  split; [reflexivity|]. split; [reflexivity|]. split; [exact Hres|].
  exists d. split; [reflexivity|exact Hd].
Qed.

Lemma run_driver_open {B : Type} (t : tid) (o : oracle) w resolution (f : unit -> prog B) :
  run t o (bind (call (PiCameraOpen resolution)) f) w
  = match o (PiCameraOpen resolution) with
    | Ok _ => run t o (f tt) (log t (PiCameraOpen resolution) w)
    | Err e => (Raised e, log t (PiCameraOpen resolution) w)
    end.
Proof. run_steps. destruct (o (PiCameraOpen resolution)) as [[]|e]; reflexivity. Qed.

Lemma run_driver_set {B : Type} (t : tid) (o : oracle) w name v (f : unit -> prog B) :
  run t o (bind (call (PiCameraSet name v)) f) w
  = match o (PiCameraSet name v) with
    | Ok _ => run t o (f tt) (log t (PiCameraSet name v) w)
    | Err e => (Raised e, log t (PiCameraSet name v) w)
    end.
Proof. run_steps. destruct (o (PiCameraSet name v)) as [[]|e]; reflexivity. Qed.

Lemma run_driver_capture (t : tid) (o : oracle) w path :
  @run unit t o (call (PiCameraCapture path)) w
  = (match o (PiCameraCapture path) with Ok _ => Returned tt | Err e => Raised e end,
     log t (PiCameraCapture path) w).
Proof. run_steps. destruct (o (PiCameraCapture path)) as [[]|e]; reflexivity. Qed.

Lemma run_driver_close (t : tid) (o : oracle) w :
  @run unit t o (call PiCameraClose) w
  = (match o PiCameraClose with Ok _ => Returned tt | Err e => Raised e end,
     log t PiCameraClose w).
Proof. run_steps. destruct (o PiCameraClose) as [[]|e]; reflexivity. Qed.

Lemma from_outside_intro (o : oracle) c e :
  is_camera_cmd c = true -> o c = Err e -> from_outside o e.
Proof. intros Hc He. exists c. rewrite He. auto. Qed.

Lemma library_capture_outcome sf (t : tid) (o : oracle) w resolution d path :
  w_resolution w = Some resolution ->
  w_settings w = Some d ->
  calibrated PyCamera d ->
  match (run t o (capture_image sf PyCamera path) w).1 with
  | Returned _ => True
  | Raised e => from_outside o e
  | Blocked => False
  end.
Proof.
  intros Hres Hset (es & gains & Hd).
  assert (Hss : d !! "shutter_speed" = Some (VInt es)) by (subst d; reflexivity).
  assert (Hawb : d !! "awb_gains" = Some (VList gains)) by (subst d; reflexivity).
  clear Hd.
  cbn [capture_image]. unfold pycamera_capture_image, with_picamera. unfold_monad.
  rewrite (run_get_resolution t o w resolution) by exact Hres.
  cbv beta. rewrite run_driver_open.
  destruct (o (PiCameraOpen resolution)) as [[]|e] eqn:Eopen;
    [|eapply from_outside_intro; [|exact Eopen]; reflexivity].
  rewrite run_finally.
  rewrite run_driver_set.
  destruct (o (PiCameraSet "exposure_mode" (VStr "off"))) as [[]|e] eqn:E1.
  2: { rewrite run_driver_close. destruct (o PiCameraClose) as [[]|e'] eqn:Eclose; cbn [fst];
       eapply from_outside_intro; try eassumption; reflexivity. }
  rewrite (run_get_setting t o _ d "shutter_speed" (VInt es)) by assumption.
  rewrite run_driver_set.
  destruct (o (PiCameraSet "shutter_speed" (VInt es))) as [[]|e] eqn:E2.
  2: { rewrite run_driver_close. destruct (o PiCameraClose) as [[]|e'] eqn:Eclose; cbn [fst];
       eapply from_outside_intro; try eassumption; reflexivity. }
  rewrite run_driver_set.
  destruct (o (PiCameraSet "awb_mode" (VStr "off"))) as [[]|e] eqn:E3.
  2: { rewrite run_driver_close. destruct (o PiCameraClose) as [[]|e'] eqn:Eclose; cbn [fst];
       eapply from_outside_intro; try eassumption; reflexivity. }
  rewrite (run_get_setting t o _ d "awb_gains" (VList gains)) by assumption.
  rewrite run_driver_set.
  destruct (o (PiCameraSet "awb_gains" (VList gains))) as [[]|e] eqn:E4.
  2: { rewrite run_driver_close. destruct (o PiCameraClose) as [[]|e'] eqn:Eclose; cbn [fst];
       eapply from_outside_intro; try eassumption; reflexivity. }
  cbv beta. rewrite run_driver_capture.
  destruct (o (PiCameraCapture path)) as [[]|e] eqn:E5;
    rewrite run_driver_close; destruct (o PiCameraClose) as [[]|e'] eqn:Eclose; cbn [fst];
    try exact I; eapply from_outside_intro; try eassumption; reflexivity.
Qed.

Lemma tool_capture_outcome sf (t : tid) (o : oracle) w resolution d path :
  w_resolution w = Some resolution ->
  w_settings w = Some d ->
  calibrated RaspiStillCamera d ->
  match (run t o (capture_image sf RaspiStillCamera path) w).1 with
  | Returned _ => True
  | Raised e => from_outside o e
  | Blocked => False
  end.
Proof.
  intros Hres Hset (ag & dg & ss & r & bb & Hd). destruct resolution as [width height].
  rewrite (run_raspistill_capture sf t o w path width height d ag dg ss [r; bb]);
    try assumption; try (subst d; reflexivity).
  cbn [fst].
  match goal with
  | |- context [o (SubprocessCall ?argv)] =>
      destruct (o (SubprocessCall argv)) as [status|e] eqn:Ecall
  end.
  - exact I.
  - eapply from_outside_intro; [|exact Ecall]. reflexivity.
Qed.

(** X18: a photo cannot go wrong from within: in a world in which the
    controller is constructed and idle, [take_photo] does not block and
    raises no exception of its own making (no missing attribute, no missing
    key, no value of the wrong type): it returns, or it raises an exception
    that the capture command or the camera driver raised.  A constructor that
    returns leaves such a world, and so does every [update_settings] that
    returns, started in a world with the resolution set and both locks
    free. *)
Theorem photo_fails_only_from_outside (py_str_float : float -> string) (b : backend)
    (resolution : Z * Z) (w : world) :
  ready b resolution w ->
  (forall (t : tid) (o : oracle) (path : string),
      match (run t o (take_photo py_str_float b path) w).1 with
      | Returned _ => True
      | Raised e => from_outside o e
      | Blocked => False
      end)
  /\ (forall (t : tid) (o : oracle) (w0 : world),
         w_settings_lock w0 = None -> w_pixel_lock w0 = None ->
         (run t o (init b resolution) w0).1 = Returned tt ->
         ready b resolution (run t o (init b resolution) w0).2)
  /\ (forall (t : tid) (o : oracle),
         (run t o (update_settings b) w).1 = Returned tt ->
         ready b resolution (run t o (update_settings b) w).2).
Proof.
  intros (Hs & Hp & Hres & d & Hset & Hd). split; [|split].
  - intros t o path. rewrite run_take_photo by assumption.
    assert (Hcap : match (run t o (capture_image py_str_float b path)
                            (in_operation t true w)).1 with
                   | Returned _ => True
                   | Raised e => from_outside o e
                   | Blocked => False
                   end).
    { destruct b; [destruct Hd| |].
      - apply (library_capture_outcome _ t o _ resolution d path); [exact Hres|exact Hset|exact Hd].
      - apply (tool_capture_outcome _ t o _ resolution d path); [exact Hres|exact Hset|exact Hd]. }
    destruct (run t o (capture_image py_str_float b path) (in_operation t true w))
      as [[[]|e|] w']; cbn [fst] in *; auto.
  - intros t o w0 Hs0 Hp0 Hret.
    destruct (run t o (init b resolution) w0) as [out w1] eqn:Hrun. cbn [fst snd] in *.
    subst out.
    change (run t o (init b resolution) w0)
      with (run t o (update_settings b)
              (log t (SetResolution resolution) (set_resolution resolution w0))) in Hrun.
    apply (update_settings_ready b resolution t o
             (log t (SetResolution resolution) (set_resolution resolution w0)) w1);
      [exact Hs0|exact Hp0|reflexivity|exact Hrun].
  - intros t o Hret.
    destruct (run t o (update_settings b) w) as [out w1] eqn:Hrun. cbn [fst snd] in *.
    subst out. apply (update_settings_ready b resolution t o w w1); assumption.
Qed.

Lemma photo_fails_only_from_outside_witness :
  ready RaspiStillCamera script_resolution
    (run MainThread (working_environment example_stream)
       (update_settings RaspiStillCamera) ready_world).2.
Proof.
  assert (Hready : ready RaspiStillCamera script_resolution ready_world).
  { split; [reflexivity|]. split; [reflexivity|]. split; [reflexivity|].
    exists (settings_of_groups "1500" "120" "60" "20" "10" "337" "256" "3" "2").
    split; [vm_compute; reflexivity|].
    exists 2%float, 2%float, 1500%float, 1.31640625%float, 1.5%float.
    vm_compute. reflexivity. }
  destruct (photo_fails_only_from_outside (fun _ => EmptyString) RaspiStillCamera
              script_resolution ready_world Hready) as (_ & _ & H).
  apply H. vm_compute. reflexivity.
Defined.

Lemma run_shell {B : Type} (t : tid) (o : oracle) w cmdline (f : Z -> prog B) :
  run t o (bind (call (SubprocessShell cmdline)) f) w
  = match o (SubprocessShell cmdline) with
    | Ok status => run t o (f status) (log t (SubprocessShell cmdline) w)
    | Err e => (Raised e, log t (SubprocessShell cmdline) w)
    end.
Proof. run_steps. destruct (o (SubprocessShell cmdline)); reflexivity. Qed.

Lemma run_subprocess_run {B : Type} (t : tid) (o : oracle) w argv (f : string -> prog B) :
  run t o (@bind string B (call (SubprocessRun argv)) f) w
  = match o (SubprocessRun argv) with
    | Ok stderr => run t o (f stderr) (log t (SubprocessRun argv) w)
    | Err e => (Raised e, log t (SubprocessRun argv) w)
    end.
Proof. run_steps. destruct (o (SubprocessRun argv)); reflexivity. Qed.

Lemma run_exposure_speed {B : Type} (t : tid) (o : oracle) w (f : Z -> prog B) :
  run t o (bind (call PiCameraExposureSpeed) f) w
  = match o PiCameraExposureSpeed with
    | Ok speed => run t o (f speed) (log t PiCameraExposureSpeed w)
    | Err e => (Raised e, log t PiCameraExposureSpeed w)
    end.
Proof. run_steps. destruct (o PiCameraExposureSpeed); reflexivity. Qed.

Lemma run_awb_gains {B : Type} (t : tid) (o : oracle) w (f : list Q -> prog B) :
  run t o (bind (call PiCameraAwbGains) f) w
  = match o PiCameraAwbGains with
    | Ok gains => run t o (f gains) (log t PiCameraAwbGains w)
    | Err e => (Raised e, log t PiCameraAwbGains w)
    end.
Proof. run_steps. destruct (o PiCameraAwbGains); reflexivity. Qed.

Lemma run_sleep {B : Type} (t : tid) (o : oracle) w seconds (f : unit -> prog B) :
  run t o (bind (call (Sleep seconds)) f) w = run t o (f tt) (log t (Sleep seconds) w).
Proof. reflexivity. Qed.

Lemma tool_calibration_outcome (t : tid) (o : oracle) w resolution :
  w_resolution w = Some resolution ->
  match (run t o (update_capture_settings RaspiStillCamera) w).1 with
  | Returned d => calibrated RaspiStillCamera d
  | Raised e => from_outside o e \/ e = IndexError \/ e = ValueError \/ e = ZeroDivisionError
  | Blocked => False
  end.
Proof.
  intros Hres.
  cbn [update_capture_settings]. unfold raspistill_update_capture_settings. unfold_monad.
  rewrite (run_get_resolution t o w resolution) by exact Hres. cbv beta zeta.
  rewrite run_shell.
  destruct (o (SubprocessShell "chvt 6")) as [rc6|e] eqn:E6;
    [|left; eapply from_outside_intro; [|exact E6]; reflexivity].
  rewrite run_shell.
  destruct (o (SubprocessShell "chvt 7")) as [rc7|e] eqn:E7;
    [|left; eapply from_outside_intro; [|exact E7]; reflexivity].
  rewrite run_subprocess_run.
  destruct (o (SubprocessRun (probe_argv resolution))) as [stderr|e] eqn:Erun;
    [|left; eapply from_outside_intro; [|exact Erun]; reflexivity].
  rewrite run_shell.
  destruct (o (SubprocessShell "tvservice -p")) as [rcp|e] eqn:Etv;
    [|left; eapply from_outside_intro; [|exact Etv]; reflexivity].
  rewrite run_lift. cbn [fst].
  destruct (parse_settings (py_str_bytes stderr)) as [d|e] eqn:Hparse.
  - exact (parse_settings_calibrated _ _ Hparse).
  - right.
    destruct (re_finditer EXPOSURE_PATTERN (py_str_bytes stderr)) as [|a1 l1] eqn:H1
      using rev_ind;
      [rewrite (parse_settings_missing _) in Hparse by (left; exact H1);
       inversion Hparse; auto|].
    destruct (re_finditer AWB_PATTERN (py_str_bytes stderr)) as [|a2 l2] eqn:H2
      using rev_ind;
      [rewrite (parse_settings_missing _) in Hparse by (right; exact H2);
       inversion Hparse; auto|].
    pose proof (parse_settings_found _ _ _ _ _ H1 H2) as Hfound.
    rewrite Hparse in Hfound. tauto.
Qed.

Lemma library_calibration_outcome (t : tid) (o : oracle) w resolution :
  w_resolution w = Some resolution ->
  match (run t o (update_capture_settings PyCamera) w).1 with
  | Returned d => calibrated PyCamera d
  | Raised e => from_outside o e
  | Blocked => False
  end.
Proof.
  intros Hres.
  cbn [update_capture_settings]. unfold pycamera_update_capture_settings, with_picamera.
  unfold_monad.
  rewrite (run_get_resolution t o w resolution) by exact Hres. cbv beta.
  rewrite run_driver_open.
  destruct (o (PiCameraOpen resolution)) as [[]|e] eqn:Eopen;
    [|eapply from_outside_intro; [|exact Eopen]; reflexivity].
  rewrite run_finally. rewrite run_sleep. rewrite run_exposure_speed.
  destruct (o PiCameraExposureSpeed) as [speed|e] eqn:E1.
  2: { rewrite run_driver_close. destruct (o PiCameraClose) as [[]|e'] eqn:Eclose; cbn [fst];
       eapply from_outside_intro; try eassumption; reflexivity. }
  rewrite run_awb_gains.
  destruct (o PiCameraAwbGains) as [gains|e] eqn:E2.
  2: { rewrite run_driver_close. destruct (o PiCameraClose) as [[]|e'] eqn:Eclose; cbn [fst];
       eapply from_outside_intro; try eassumption; reflexivity. }
  cbn [run]. rewrite run_driver_close.
  destruct (o PiCameraClose) as [[]|e'] eqn:Eclose; cbn [fst].
  - simpl. eauto.
  - eapply from_outside_intro; try eassumption; reflexivity.
Qed.

(** X19: how a recalibration can fail: started with both locks free and
    the resolution set, [update_settings] does not block; with the library
    backend it returns or raises an exception the camera driver raised; with
    the external-tool backend it returns or raises an exception one of its
    commands raised, or [IndexError], [ValueError] or [ZeroDivisionError]
    from scraping the stream; with the abstract [Camera] it raises the
    [Exception] of the method that is not implemented. *)
Theorem recalibration_failures (b : backend) (t : tid) (o : oracle) (w : world)
    (resolution : Z * Z) :
  w_settings_lock w = None ->
  w_pixel_lock w = None ->
  w_resolution w = Some resolution ->
  match (run t o (update_settings b) w).1 with
  | Returned _ => b <> Camera
  | Raised e =>
      match b with
      | Camera => e = Exception_
      | PyCamera => from_outside o e
      | RaspiStillCamera =>
          from_outside o e \/ e = IndexError \/ e = ValueError \/ e = ZeroDivisionError
      end
  | Blocked => False
  end.
Proof.
  intros Hs Hp Hres. rewrite run_update_settings by assumption.
  set (w0 := in_operation t false (log t (Print [VStr "Updating settings..."]) w)).
  assert (Hres0 : w_resolution w0 = Some resolution) by exact Hres.
  destruct b.
  - reflexivity.
  - pose proof (library_calibration_outcome t o w0 resolution Hres0) as Hcal.
    destruct (run t o (update_capture_settings PyCamera) w0) as [[d|e|] w1] eqn:Hrun;
      cbn [fst] in *; [|exact Hcal|contradiction].
    destruct (quiet_run t o (update_capture_settings PyCamera) w0
                (quiet_update_capture_settings PyCamera)) as (oc & tr & Hq & _).
    rewrite Hrun in Hq. inversion Hq; subst.
    rewrite (run_report_and_reschedule t o _ d);
      [discriminate|reflexivity|exact (calibrated_complete PyCamera d Hcal)].
  - pose proof (tool_calibration_outcome t o w0 resolution Hres0) as Hcal.
    destruct (run t o (update_capture_settings RaspiStillCamera) w0) as [[d|e|] w1] eqn:Hrun;
      cbn [fst] in *; [|exact Hcal|contradiction].
    destruct (quiet_run t o (update_capture_settings RaspiStillCamera) w0
                (quiet_update_capture_settings RaspiStillCamera)) as (oc & tr & Hq & _).
    rewrite Hrun in Hq. inversion Hq; subst.
    rewrite (run_report_and_reschedule t o _ d);
      [discriminate|reflexivity|exact (calibrated_complete RaspiStillCamera d Hcal)].
Qed.

Lemma recalibration_failures_witness :
  (run MainThread (working_environment example_stream) (update_settings Camera)
     ready_world).1 = Raised Exception_.
Proof.
  pose proof (recalibration_failures Camera MainThread (working_environment example_stream)
                ready_world script_resolution eq_refl eq_refl eq_refl) as H.
  destruct (run MainThread (working_environment example_stream) (update_settings Camera)
              ready_world) as [[u|e|] w1]; cbn [fst] in *;
    [contradiction|subst e; reflexivity|contradiction].
Defined.
